(** * ScholarOS multi-agent orchestrator: a shallow embedding

    The development follows [app/agents/types.py], [app/agents/registry.py]
    and [app/agents/orchestrator.py].  Python dictionaries whose iteration
    order is observable (the registry, the step-result map, the dependency
    graph) are association lists with Python's insertion-order semantics;
    the active-workflow map, whose order is never observed, is a [gmap]. *)

From Stdlib Require Import ZArith QArith Floats.SpecFloat Strings.Ascii.
From stdpp Require Import base option list relations strings pretty gmap.

#[local] Set Warnings "-register-all".

(** ** Python exceptions and outcomes *)

Inductive exn :=
| ValueError (msg : string)
| RuntimeError (msg : string)
| KeyError (key : string)
| TimeoutError
| ValidationError (msg : string)
| OtherError (msg : string).

(** [str(e)] for the exceptions above; [asyncio.TimeoutError()] carries no
    arguments and prints as the empty string. *)
Definition exn_str (e : exn) : string :=
  match e with
  | ValueError m | RuntimeError m | ValidationError m | OtherError m => m
  | KeyError k => "'" +:+ k +:+ "'"
  | TimeoutError => ""
  end.

Inductive outcome (A : Type) :=
| Ok (a : A)
| Raise (e : exn).
Arguments Ok {A} a.
Arguments Raise {A} e.

Definition obind {A B} (m : outcome A) (f : A -> outcome B) : outcome B :=
  match m with
  | Ok a => f a
  | Raise e => Raise e
  end.

Notation "x <~ m ;; k" := (obind m (fun x => k))
  (at level 100, m at next level, right associativity).

(** ** Insertion-ordered dictionaries *)

Module PyDict.
Section Dict.
Context {K : Type} `{EqDecision K} {V : Type}.

Definition t := list (K * V).

Fixpoint get (k : K) (d : t) : option V :=
  match d with
  | [] => None
  | (k', v) :: r => if decide (k = k') then Some v else get k r
  end.

(** [d[k] = v]: an existing key keeps its position, a new key goes last. *)
Fixpoint set (k : K) (v : V) (d : t) : t :=
  match d with
  | [] => [(k, v)]
  | (k', v') :: r =>
      if decide (k = k') then (k, v) :: r else (k', v') :: set k v r
  end.

Definition keys (d : t) : list K := d.*1.
End Dict.
Arguments t : clear implicits.

(** [d[k]] raises [KeyError] on a missing key. *)
Definition getitem {V} (k : string) (d : t string V) : outcome V :=
  match get k d with
  | Some v => Ok v
  | None => Raise (KeyError k)
  end.
End PyDict.

(** ** Types of [app/agents/types.py] *)

Inductive AgentType :=
| TASK | PROJECT | GRANT | RESEARCH | CALENDAR | WRITING | PERSONNEL
| PLANNER | ORCHESTRATOR.

Global Instance AgentType_eq_dec : EqDecision AgentType.
Proof. solve_decision. Defined.

Definition AgentType_value (t : AgentType) : string :=
  match t with
  | TASK => "task" | PROJECT => "project" | GRANT => "grant"
  | RESEARCH => "research" | CALENDAR => "calendar" | WRITING => "writing"
  | PERSONNEL => "personnel" | PLANNER => "planner"
  | ORCHESTRATOR => "orchestrator"
  end.

Inductive AgentStatus :=
| IDLE | PLANNING | EXECUTING | AWAITING_FEEDBACK | COMPLETED | FAILED.

Global Instance AgentStatus_eq_dec : EqDecision AgentStatus.
Proof. solve_decision. Defined.

Definition AgentStatus_value (s : AgentStatus) : string :=
  match s with
  | IDLE => "idle" | PLANNING => "planning" | EXECUTING => "executing"
  | AWAITING_FEEDBACK => "awaiting_feedback" | COMPLETED => "completed"
  | FAILED => "failed"
  end.

(** JSON-like values standing for [Any]. *)
Inductive pyval :=
| PNone
| PBool (b : bool)
| PInt (z : Z)
| PFloat (f : spec_float)
| PStr (s : string)
| PList (l : list pyval)
| PDict (d : list (string * pyval)).

Inductive ConditionType := CondAlways | CondIf | CondUnless.

Global Instance ConditionType_eq_dec : EqDecision ConditionType.
Proof. solve_decision. Defined.

Record WorkflowCondition := {
  cond_type : ConditionType;
  cond_expression : option string;
  cond_value : option pyval
}.

Inductive ErrorPolicy := OnFail | OnSkip | OnFallback.

Global Instance ErrorPolicy_eq_dec : EqDecision ErrorPolicy.
Proof. solve_decision. Defined.

Record WorkflowStep := {
  step_id : string;
  step_name : string;
  step_agent : AgentType;
  step_action : string;
  step_input : list (string * pyval);
  depends_on : list string;
  step_condition : option WorkflowCondition;
  step_timeout : option Z;
  step_retries : Z;
  on_error : ErrorPolicy;
  fallback_agent : option AgentType
}.

(** ** [_topological_sort] *)

Module Topo.

(** [{s.id: s.depends_on for s in steps}] *)
Definition build_graph (steps : list WorkflowStep) : PyDict.t string (list string) :=
  foldl (fun g s => PyDict.set (step_id s) (depends_on s) g) [] steps.

(** [{s.id: len(s.depends_on) for s in steps}] *)
Definition build_in_degree (steps : list WorkflowStep) : PyDict.t string Z :=
  foldl (fun g s => PyDict.set (step_id s) (Z.of_nat (length (depends_on s))) g)
        [] steps.

(** [[sid for sid, degree in in_degree.items() if degree == 0]] *)
Definition initial_queue (in_degree : PyDict.t string Z) : list string :=
  (filter (fun kv => kv.2 = 0%Z) in_degree).*1.

(** The inner [for step_id, deps in graph.items()] loop for one dequeued
    id [current]; the state is the in-degree table and the queue. *)
Fixpoint relax (current : string) (items : list (string * list string))
    (in_degree : PyDict.t string Z) (queue : list string)
    : outcome (PyDict.t string Z * list string) :=
  match items with
  | [] => Ok (in_degree, queue)
  | (sid, deps) :: rest =>
      if bool_decide (current ∈ deps) then
        d <~ PyDict.getitem sid in_degree ;;
        let in_degree' := PyDict.set sid (d - 1)%Z in_degree in
        d' <~ PyDict.getitem sid in_degree' ;;
        let queue' := if decide (d' = 0%Z) then queue ++ [sid] else queue in
        relax current rest in_degree' queue'
      else relax current rest in_degree queue
  end.

(** The [while queue:] loop.  [None] means the fuel ran out. *)
Fixpoint drain (fuel : nat) (graph : PyDict.t string (list string))
    (in_degree : PyDict.t string Z) (queue result : list string)
    : option (outcome (list string)) :=
  match queue with
  | [] => Some (Ok result)
  | current :: queue1 =>
      match fuel with
      | O => None
      | S fuel' =>
          match relax current graph in_degree queue1 with
          | Raise e => Some (Raise e)
          | Ok (in_degree', queue') =>
              drain fuel' graph in_degree' queue' (result ++ [current])
          end
      end
  end.

Definition circular_msg : string :=
  "Circular dependency detected in workflow steps".

Definition _topological_sort (steps : list WorkflowStep)
    : option (outcome (list string)) :=
  let graph := build_graph steps in
  let in_degree := build_in_degree steps in
  let queue := initial_queue in_degree in
  match drain (S (length steps)) graph in_degree queue [] with
  | None => None
  | Some (Raise e) => Some (Raise e)
  | Some (Ok result) =>
      if decide (length result ≠ length steps)
      then Some (Raise (ValueError circular_msg))
      else Some (Ok result)
  end.

End Topo.

(** ** Python strings and values *)

Module PyStr.

Definition startswith (s p : string) : bool := String.prefix p s.

(** [s[n:]] *)
Fixpoint drop (n : nat) (s : string) : string :=
  match n, s with
  | O, _ => s
  | S n', String _ r => drop n' r
  | S _, EmptyString => EmptyString
  end.

(** [s.split(sep)] for a one-character separator. *)
Fixpoint split (sep : Ascii.ascii) (s : string) : list string :=
  match s with
  | EmptyString => [EmptyString]
  | String c r =>
      if decide (c = sep) then EmptyString :: split sep r
      else match split sep r with
           | [] => [String c EmptyString]
           | w :: ws => String c w :: ws
           end
  end.

(** Characters [str.isspace] accepts among the first 256 code points. *)
Definition isspace (c : Ascii.ascii) : bool :=
  let n := Ascii.nat_of_ascii c in
  bool_decide (9 ≤ n ≤ 13) || bool_decide (28 ≤ n ≤ 32)
  || bool_decide (n = 133) || bool_decide (n = 160).

Fixpoint lstrip (s : string) : string :=
  match s with
  | String c r => if isspace c then lstrip r else s
  | EmptyString => EmptyString
  end.

Fixpoint rstrip (s : string) : string :=
  match s with
  | EmptyString => EmptyString
  | String c r =>
      match rstrip r with
      | EmptyString => if isspace c then EmptyString else String c EmptyString
      | r' => String c r'
      end
  end.

(** [s.strip()] *)
Definition strip (s : string) : string := rstrip (lstrip s).

(** [sep.join(parts)] *)
Definition join (sep : string) (parts : list string) : string :=
  String.concat sep parts.

End PyStr.

(** Text that CPython computes and this development does not spell out:
    [repr] of a string and of a float, [format] of an [AgentType] member
    inside an f-string, and the message of the validation error pydantic
    raises for a non-string [content]. *)
Class PyText := {
  repr_str : string → string;
  repr_float : spec_float → string;
  format_agent_type : AgentType → string;
  content_error_text : pyval → string
}.

Module PyVal.
Section WithText.
Context `{PyText}.

Definition float_is_zero (f : spec_float) : bool :=
  match f with
  | S754_zero _ => true
  | _ => false
  end.

(** [bool(v)] *)
Definition truthy (v : pyval) : bool :=
  match v with
  | PNone => false
  | PBool b => b
  | PInt z => negb (z =? 0)%Z
  | PFloat f => negb (float_is_zero f)
  | PStr s => negb (bool_decide (s = EmptyString))
  | PList l => negb (bool_decide (l = []))
  | PDict d => negb (bool_decide (d = []))
  end.

(** [repr(v)] *)
Fixpoint repr (v : pyval) : string :=
  match v with
  | PNone => "None"
  | PBool true => "True"
  | PBool false => "False"
  | PInt z => pretty z
  | PFloat f => repr_float f
  | PStr s => repr_str s
  | PList l => "[" +:+ PyStr.join ", " (map repr l) +:+ "]"
  | PDict d =>
      "{" +:+ PyStr.join ", "
                (map (fun kv => repr_str kv.1 +:+ ": " +:+ repr kv.2) d)
      +:+ "}"
  end.

(** [str(v)] *)
Definition str (v : pyval) : string :=
  match v with
  | PStr s => s
  | _ => repr v
  end.

(** [str(o)] for an optional string field ([None] prints as its name). *)
Definition str_opt (o : option string) : string :=
  match o with
  | Some s => s
  | None => "None"
  end.

(** [d.get(k)] on a value that is known to be a dict. *)
Definition dict_get (k : string) (d : list (string * pyval)) : pyval :=
  default PNone (PyDict.get k d).
End WithText.
End PyVal.

(** ** Remaining records of [app/agents/types.py] and [app/agents/base.py] *)

Record ToolCall := {
  tc_id : string;
  tc_name : string;
  tc_arguments : list (string * pyval)
}.

Record SuggestedAction := {
  sa_label : string;
  sa_action : string;
  sa_params : list (string * pyval)
}.

Record AgentHandoff := {
  from_agent : AgentType;
  to_agent : AgentType;
  handoff_reason : string;
  handoff_context : list (string * pyval);
  preserve_history : bool
}.

(** Of the context only the identifiers are read by the orchestrator. *)
Record AgentContext := {
  session_id : string;
  workspace_id : string;
  user_id : string
}.

Record AgentResult := {
  result_id : string;
  res_agent_type : AgentType;
  res_status : AgentStatus;
  res_output : list (string * pyval);
  res_tool_calls : list ToolCall;
  res_suggested_actions : list SuggestedAction;
  res_handoff : option AgentHandoff;
  res_error : option string;
  res_execution_time_ms : Z;
  res_tokens_used : Z
}.

Inductive StepStatus :=
| StepPending | StepRunning | StepCompleted | StepFailed | StepSkipped.

Global Instance StepStatus_eq_dec : EqDecision StepStatus.
Proof. solve_decision. Defined.

Record WorkflowStepResult := {
  sr_step_id : string;
  sr_status : StepStatus;
  sr_output : option (list (string * pyval));
  sr_error : option string;
  sr_execution_time_ms : Z;
  sr_agent_type : AgentType
}.

Inductive RunStatus := RunPending | RunRunning | RunCompleted | RunFailed.

Global Instance RunStatus_eq_dec : EqDecision RunStatus.
Proof. solve_decision. Defined.

Record WorkflowExecution := {
  ex_id : string;
  ex_workflow_id : string;
  ex_session_id : string;
  ex_status : RunStatus;
  ex_current_step : option string;
  ex_step_results : PyDict.t string WorkflowStepResult;
  ex_started_at : Z;
  ex_completed_at : option Z;
  ex_error : option string
}.

Inductive ErrorHandling := FailFast | ContinueOnError | RetryOnError | FallbackOnError.

Global Instance ErrorHandling_eq_dec : EqDecision ErrorHandling.
Proof. solve_decision. Defined.

Record WorkflowDefinition := {
  wf_id : string;
  wf_name : string;
  wf_description : string;
  wf_version : string;
  wf_steps : list WorkflowStep;
  wf_error_handling : ErrorHandling;
  wf_timeout : option Z
}.

Record ChatRequest := {
  chat_session_id : option string;
  chat_message : string;
  chat_context : list (string * pyval);
  chat_agent_type : option AgentType;
  chat_stream : bool
}.

Record ChatResponse := {
  cr_session_id : string;
  cr_message_id : string;
  cr_content : string;
  cr_agent_type : AgentType;
  cr_tool_calls : list ToolCall;
  cr_suggested_actions : list SuggestedAction;
  cr_metadata : PyDict.t string pyval
}.

Record ExecuteTaskRequest := {
  et_agent_type : AgentType;
  et_task_type : string;
  et_input : list (string * pyval);
  et_async_execution : bool
}.

Record ExecuteTaskResponse := {
  etr_task_id : string;
  etr_status : RunStatus;
  etr_result : option (list (string * pyval));
  etr_error : option string
}.

Record OrchestrateRequest := {
  or_workflow : WorkflowDefinition;
  or_input : list (string * pyval)
}.

Record OrchestrateResponse := {
  resp_execution_id : string;
  resp_status : RunStatus;
  resp_results : PyDict.t string WorkflowStepResult;
  resp_error : option string
}.

(** ** The world outside the orchestrator

    [World] is everything a provider call may read or change (the
    text-generation backend, the clock, the source of random ids). *)
Class Runtime := {
  World : Type;
(** [str(uuid.uuid4())] *)
uuid4 : World → string * World;
(** [datetime.utcnow()], in milliseconds *)
utcnow : World → Z
}.

(** A capability provider.  [execute prompt context bound w] is
    [agent.execute(prompt, context)] awaited directly ([bound = None]) or
    under [asyncio.wait_for] with [bound] seconds; a run that does not finish
    within the bound is [Raise TimeoutError]. *)
Record BaseAgent `{Runtime} := {
  agent_type : AgentType;
  agent_name : string;
  agent_description : string;
  execute : string → AgentContext → option Z → World → outcome AgentResult * World;
  can_handle : string → AgentContext → bool * Q;
  should_handoff : string → AgentContext → option AgentHandoff
}.

(** ** [app/agents/registry.py] *)

(** [x > y] on confidences, which are taken as rationals. *)
Definition Qgt_bool (x y : Q) : bool :=
  if Qlt_le_dec y x then true else false.

Module Registry.
Section WithRuntime.
Context `{Runtime}.

Definition t := PyDict.t AgentType BaseAgent.

Definition register (agent : BaseAgent) (agents : t) : t :=
  PyDict.set (agent_type agent) agent agents.

Definition get (ty : AgentType) (agents : t) : option BaseAgent :=
  PyDict.get ty agents.

(** The [for agent_type, agent in self._agents.items()] loop. *)
Fixpoint route_loop (items : list (AgentType * BaseAgent)) (request : string)
    (context : AgentContext) (exclude : list AgentType)
    (best_agent : option BaseAgent) (best_confidence : Q)
    : option BaseAgent * Q :=
  match items with
  | [] => (best_agent, best_confidence)
  | (ty, agent) :: rest =>
      if bool_decide (ty ∈ exclude) then
        route_loop rest request context exclude best_agent best_confidence
      else
        let '(can, confidence) := can_handle agent request context in
        if can && Qgt_bool confidence best_confidence then
          route_loop rest request context exclude (Some agent) confidence
        else
          route_loop rest request context exclude best_agent best_confidence
  end.

Definition route_request (agents : t) (request : string)
    (context : AgentContext) (exclude : option (list AgentType))
    : option BaseAgent * Q :=
  let exclude := default [] exclude in
  route_loop agents request context exclude None 0%Q.
End WithRuntime.
End Registry.

(** ** Template resolution: [_resolve_references] *)

Module Template.
Section WithText.
Context `{PyText}.

(** The longest run of characters other than a closing brace, and the
    rest of the text: what the group [[^}]+] can consume. *)
Fixpoint span_body (s : string) : string * string :=
  match s with
  | EmptyString => (EmptyString, EmptyString)
  | String c r =>
      if decide (c = "}"%char) then (EmptyString, s)
      else let '(b, t) := span_body r in (String c b, t)
  end.

(** A match of the pattern [\{\{([^}]+)\}\}] at the head of [s]: the text
    of group 1 and the number of characters matched. *)
Definition match_at (s : string) : option (string * nat) :=
  match s with
  | String "{"%char (String "{"%char r) =>
      match span_body r with
      | (String c b, String "}"%char (String "}"%char _)) =>
          Some (String c b, 4 + String.length (String c b))
      | _ => None
      end
  | _ => None
  end.

(** [re.sub(pattern, replacer, s)]: leftmost matches, never overlapping.
    [skip] counts the characters of the current match still to pass. *)
Fixpoint sub_from (replacer : string → string → string) (skip : nat)
    (s : string) : string :=
  match s with
  | EmptyString => EmptyString
  | String c r =>
      match skip with
      | S k => sub_from replacer k r
      | O =>
          match match_at s with
          | Some (group1, n) =>
              replacer ("{{" +:+ group1 +:+ "}}") group1
              +:+ sub_from replacer (Nat.pred n) r
          | None => String c (sub_from replacer 0 r)
          end
      end
  end.

Definition re_sub (replacer : string → string → string) (s : string)
    : string :=
  sub_from replacer 0 s.

(** The loop [for part in parts[3:]] over the output of a step. *)
Fixpoint navigate (current : pyval) (parts : list string) : pyval :=
  match parts with
  | [] => current
  | part :: rest =>
      match current with
      | PDict d => navigate (PyVal.dict_get part d) rest
      | _ => current
      end
  end.

(** The loop of the [prev.] branch, over the recorded results from the
    most recent one backwards. *)
Fixpoint prev_lookup (items : list (string * WorkflowStepResult))
    (key : string) : string :=
  match items with
  | [] => EmptyString
  | (_, result) :: rest =>
      match sr_output result with
      | Some out =>
          if bool_decide (sr_status result = StepCompleted)
             && PyVal.truthy (PDict out)
          then PyVal.str (default (PStr EmptyString) (PyDict.get key out))
          else prev_lookup rest key
      | None => prev_lookup rest key
      end
  end.

Section Resolve.
Variable step_results : PyDict.t string WorkflowStepResult.
Variable workflow_input : list (string * pyval).

(** [replacer(match)]; [group0] is [match.group(0)] and [group1] is
    [match.group(1)].  A reference that starts with [steps.] has at
    least two dot-separated parts, so [parts[1]] exists. *)
Definition replacer (group0 group1 : string) : string :=
  let ref := PyStr.strip group1 in
  if PyStr.startswith ref "input." then
    let key := PyStr.drop 6 ref in
    PyVal.str (default (PStr EmptyString) (PyDict.get key workflow_input))
  else if PyStr.startswith ref "steps." then
    let parts := PyStr.split "."%char ref in
    let sid := nth 1 parts EmptyString in
    match PyDict.get sid step_results with
    | Some result =>
        match sr_output result with
        | Some out =>
            if PyVal.truthy (PDict out) then
              let current := navigate (PDict out) (drop 3 parts) in
              if PyVal.truthy current then PyVal.str current
              else EmptyString
            else EmptyString
        | None => EmptyString
        end
    | None => EmptyString
    end
  else if PyStr.startswith ref "prev." then
    prev_lookup (reverse step_results) (PyStr.drop 5 ref)
  else group0.

Fixpoint resolve_value (value : pyval) : pyval :=
  match value with
  | PStr s => PStr (re_sub replacer s)
  | PDict d => PDict (map (fun '(k, v) => (k, resolve_value v)) d)
  | PList l => PList (map resolve_value l)
  | _ => value
  end.

Definition _resolve_references (input : list (string * pyval))
    : list (string * pyval) :=
  map (fun '(k, v) => (k, resolve_value v)) input.
End Resolve.
End WithText.
End Template.

(** ** [app/agents/orchestrator.py] *)

Module Orchestrator.
Section WithRuntime.
Context `{PyText} `{Runtime}.

(** The orchestrator's mutable state together with the world.  [calls]
    is a ghost log of the provider executions made so far (provider type
    and prompt); the code keeps no such log. *)
Record State := {
  world : World;
  active_workflows : gmap string WorkflowExecution;
  calls : list (AgentType * string)
}.

Definition with_world (w : World) (st : State) : State :=
  {| world := w; active_workflows := active_workflows st; calls := calls st |}.

(** One [await agent.execute(...)], logged. *)
Definition call_execute (agent : BaseAgent) (prompt : string)
    (context : AgentContext) (bound : option Z) (st : State)
    : outcome AgentResult * State :=
  let '(r, w) := execute agent prompt context bound (world st) in
  (r, {| world := w; active_workflows := active_workflows st;
         calls := calls st ++ [(agent_type agent, prompt)] |}).

Definition fresh_uuid (st : State) : string * State :=
  let '(u, w) := uuid4 (world st) in (u, with_world w st).

(** *** Chat *)

Definition error_response (context : AgentContext) (agent : BaseAgent)
    (message_id : string) (e : exn) : ChatResponse :=
  {| cr_session_id := session_id context;
     cr_message_id := message_id;
     cr_content :=
       "I encountered an error processing your request: " +:+ exn_str e;
     cr_agent_type := agent_type agent;
     cr_tool_calls := [];
     cr_suggested_actions := [];
     cr_metadata := [("error", PStr (exn_str e))] |}.

(** The body of the [try] block once [agent.execute] has returned. *)
Definition build_response (context : AgentContext) (agent : BaseAgent)
    (result : AgentResult) : outcome ChatResponse :=
  let content :=
    default (PStr (PyVal.str (PDict (res_output result))))
            (PyDict.get "response" (res_output result)) in
  match content with
  | PStr text =>
      let metadata :=
        [("execution_time_ms", PInt (res_execution_time_ms result));
         ("tokens_used", PInt (res_tokens_used result));
         ("status", PStr (AgentStatus_value (res_status result)))] in
      let metadata :=
        match res_handoff result with
        | Some h =>
            PyDict.set "handoff"
              (PDict [("to_agent", PStr (AgentType_value (to_agent h)));
                      ("reason", PStr (handoff_reason h))])
              metadata
        | None => metadata
        end in
      Ok {| cr_session_id := session_id context;
            cr_message_id := result_id result;
            cr_content := text;
            cr_agent_type := agent_type agent;
            cr_tool_calls := res_tool_calls result;
            cr_suggested_actions := res_suggested_actions result;
            cr_metadata := metadata |}
  | other => Raise (ValidationError (content_error_text other))
  end.

(** The provider [chat] settles on before the handoff check. *)
Definition select_agent (agents : Registry.t) (request : ChatRequest)
    (context : AgentContext) : outcome BaseAgent :=
  match chat_agent_type request with
  | Some ty =>
      match Registry.get ty agents with
      | Some agent => Ok agent
      | None =>
          Raise (ValueError ("Unknown agent type: " +:+ format_agent_type ty))
      end
  | None =>
      match Registry.route_request agents (chat_message request) context None with
      | (Some agent, _) => Ok agent
      | (None, _) =>
          match Registry.get PLANNER agents with
          | Some agent => Ok agent
          | None => Raise (RuntimeError "No agents available to handle request")
          end
      end
  end.

(** The handoff check before execution. *)
Definition apply_handoff (agents : Registry.t) (agent : BaseAgent)
    (request : ChatRequest) (context : AgentContext) : BaseAgent :=
  match should_handoff agent (chat_message request) context with
  | Some handoff =>
      match Registry.get (to_agent handoff) agents with
      | Some target_agent => target_agent
      | None => agent
      end
  | None => agent
  end.

Definition chat (agents : Registry.t) (request : ChatRequest)
    (context : AgentContext) (st : State) : outcome ChatResponse * State :=
  match select_agent agents request context with
  | Raise e => (Raise e, st)
  | Ok agent =>
      let agent := apply_handoff agents agent request context in
      let '(r, st1) := call_execute agent (chat_message request) context None st in
      match (result <~ r ;; build_response context agent result) with
      | Ok response => (Ok response, st1)
      | Raise e =>
          let '(message_id, st2) := fresh_uuid st1 in
          (Ok (error_response context agent message_id e), st2)
      end
  end.

(** *** Task execution *)

Definition execute_task (agents : Registry.t) (request : ExecuteTaskRequest)
    (context : AgentContext) (st : State)
    : outcome ExecuteTaskResponse * State :=
  match Registry.get (et_agent_type request) agents with
  | None =>
      let '(task_id, st1) := fresh_uuid st in
      (Ok {| etr_task_id := task_id;
             etr_status := RunFailed;
             etr_result := None;
             etr_error :=
               Some ("Unknown agent type: "
                     +:+ format_agent_type (et_agent_type request)) |},
       st1)
  | Some agent =>
      let '(task_id, st1) := fresh_uuid st in
      if et_async_execution request then
        (* the detached run is not followed *)
        (Ok {| etr_task_id := task_id; etr_status := RunRunning;
               etr_result := None; etr_error := None |}, st1)
      else
        let prompt :=
          "Execute " +:+ et_task_type request +:+ ": "
          +:+ PyVal.str (PDict (et_input request)) in
        let '(r, st2) := call_execute agent prompt context None st1 in
        match r with
        | Ok result =>
            (Ok {| etr_task_id := task_id;
                   etr_status :=
                     if decide (res_status result = COMPLETED)
                     then RunCompleted else RunFailed;
                   etr_result := Some (res_output result);
                   etr_error := res_error result |}, st2)
        | Raise e =>
            (Ok {| etr_task_id := task_id; etr_status := RunFailed;
                   etr_result := None; etr_error := Some (exn_str e) |}, st2)
        end
  end.

(** *** Workflow steps *)

(** [x or d] for an optional string. *)
Definition str_or (x : option string) (d : string) : string :=
  match x with
  | Some EmptyString | None => d
  | Some s => s
  end.

(** [step.timeout or 300] *)
Definition timeout_or_default (t : option Z) : Z :=
  match t with
  | Some 0%Z | None => 300%Z
  | Some z => z
  end.

(** How the retry loop of a step ends. *)
Inductive attempt_exit :=
| AttemptCompleted (result : AgentResult)
| AttemptsExhausted (last_error : option string)
| AttemptRaised (e : exn).

(** [while retries >= 0: ...]; [None] means the fuel ran out. *)
Fixpoint attempts (fuel : nat) (agent : BaseAgent) (prompt : string)
    (context : AgentContext) (bound : Z) (retries : Z)
    (last_error : option string) (st : State)
    : option (attempt_exit * State) :=
  if decide (0 ≤ retries)%Z then
    match fuel with
    | O => None
    | S fuel' =>
        let '(r, st1) := call_execute agent prompt context (Some bound) st in
        match r with
        | Ok result =>
            if decide (res_status result = COMPLETED) then
              Some (AttemptCompleted result, st1)
            else
              attempts fuel' agent prompt context bound (retries - 1)%Z
                (Some (str_or (res_error result) "Agent execution failed")) st1
        | Raise TimeoutError =>
            attempts fuel' agent prompt context bound (retries - 1)%Z
              (Some "Step timed out") st1
        | Raise e => Some (AttemptRaised e, st1)
        end
    end
  else Some (AttemptsExhausted last_error, st).

Definition step_prompt (step : WorkflowStep)
    (resolved_input : list (string * pyval)) : string :=
  "Execute action '" +:+ step_action step +:+ "' with parameters: "
  +:+ PyVal.str (PDict resolved_input).

Definition _execute_workflow_step (agents : Registry.t) (step : WorkflowStep)
    (execution : WorkflowExecution) (context : AgentContext)
    (workflow_input : list (string * pyval)) (st : State)
    : option (WorkflowStepResult * State) :=
  let start_time := utcnow (world st) in
  match Registry.get (step_agent step) agents with
  | None =>
      Some ({| sr_step_id := step_id step;
               sr_status := StepFailed;
               sr_output := None;
               sr_error :=
                 Some ("Unknown agent: " +:+ format_agent_type (step_agent step));
               sr_execution_time_ms := 0;
               sr_agent_type := step_agent step |}, st)
  | Some agent =>
      let resolved_input :=
        Template._resolve_references (ex_step_results execution)
          workflow_input (step_input step) in
      let prompt := step_prompt step resolved_input in
      match attempts (Z.to_nat (step_retries step + 1)) agent prompt context
              (timeout_or_default (step_timeout step)) (step_retries step)
              None st with
      | None => None
      | Some (exit, st1) =>
          let execution_time := (utcnow (world st1) - start_time)%Z in
          Some
            (match exit with
             | AttemptCompleted result =>
                 {| sr_step_id := step_id step;
                    sr_status := StepCompleted;
                    sr_output := Some (res_output result);
                    sr_error := None;
                    sr_execution_time_ms := execution_time;
                    sr_agent_type := step_agent step |}
             | AttemptsExhausted last_error =>
                 {| sr_step_id := step_id step;
                    sr_status := StepFailed;
                    sr_output := None;
                    sr_error := last_error;
                    sr_execution_time_ms := execution_time;
                    sr_agent_type := step_agent step |}
             | AttemptRaised e =>
                 {| sr_step_id := step_id step;
                    sr_status := StepFailed;
                    sr_output := None;
                    sr_error := Some (exn_str e);
                    sr_execution_time_ms := execution_time;
                    sr_agent_type := step_agent step |}
             end, st1)
      end
  end.

Fixpoint _dependencies_satisfied_loop (deps : list string)
    (results : PyDict.t string WorkflowStepResult) : bool :=
  match deps with
  | [] => true
  | dep_id :: rest =>
      match PyDict.get dep_id results with
      | None => false
      | Some r =>
          if bool_decide (sr_status r ∈ [StepCompleted; StepSkipped])
          then _dependencies_satisfied_loop rest results
          else false
      end
  end.

Definition _dependencies_satisfied (step : WorkflowStep)
    (execution : WorkflowExecution) : bool :=
  _dependencies_satisfied_loop (depends_on step) (ex_step_results execution).

Definition _evaluate_condition (condition : WorkflowCondition)
    (execution : WorkflowExecution) (input : list (string * pyval)) : bool :=
  if decide (cond_type condition = CondAlways) then true
  else
    match cond_expression condition with
    | Some (String c e) =>
        let expression := String c e in
        if PyStr.startswith expression "steps." then
          let parts := PyStr.split "."%char expression in
          let sid := nth 1 parts EmptyString in
          match PyDict.get sid (ex_step_results execution) with
          | Some result =>
              if decide (cond_type condition = CondIf)
              then bool_decide (sr_status result = StepCompleted)
              else bool_decide (sr_status result ≠ StepCompleted)
          | None => true
          end
        else true
    | _ => true
    end.

(** *** Workflow orchestration *)

Definition record_result (sid : string) (r : WorkflowStepResult)
    (execution : WorkflowExecution) : WorkflowExecution :=
  {| ex_id := ex_id execution;
     ex_workflow_id := ex_workflow_id execution;
     ex_session_id := ex_session_id execution;
     ex_status := ex_status execution;
     ex_current_step := ex_current_step execution;
     ex_step_results := PyDict.set sid r (ex_step_results execution);
     ex_started_at := ex_started_at execution;
     ex_completed_at := ex_completed_at execution;
     ex_error := ex_error execution |}.

Definition set_current_step (sid : string) (execution : WorkflowExecution)
    : WorkflowExecution :=
  {| ex_id := ex_id execution;
     ex_workflow_id := ex_workflow_id execution;
     ex_session_id := ex_session_id execution;
     ex_status := ex_status execution;
     ex_current_step := Some sid;
     ex_step_results := ex_step_results execution;
     ex_started_at := ex_started_at execution;
     ex_completed_at := ex_completed_at execution;
     ex_error := ex_error execution |}.

Definition finish (status : RunStatus) (error : option string) (now : Z)
    (execution : WorkflowExecution) : WorkflowExecution :=
  {| ex_id := ex_id execution;
     ex_workflow_id := ex_workflow_id execution;
     ex_session_id := ex_session_id execution;
     ex_status := status;
     ex_current_step := ex_current_step execution;
     ex_step_results := ex_step_results execution;
     ex_started_at := ex_started_at execution;
     ex_completed_at := Some now;
     ex_error := error |}.

(** The map holds the execution object itself, so every change to the
    object shows in the map. *)
Definition publish (execution : WorkflowExecution) (st : State) : State :=
  {| world := world st;
     active_workflows := <[ex_id execution := execution]> (active_workflows st);
     calls := calls st |}.

Definition skipped_result (step : WorkflowStep) : WorkflowStepResult :=
  {| sr_step_id := step_id step;
     sr_status := StepSkipped;
     sr_output := None;
     sr_error := None;
     sr_execution_time_ms := 0;
     sr_agent_type := step_agent step |}.

(** [WorkflowStep(id=f"{step_id}_fallback", ...)]: the fields not given
    take the defaults of the class. *)
Definition fallback_step (step : WorkflowStep) (agent : AgentType)
    : WorkflowStep :=
  {| step_id := step_id step +:+ "_fallback";
     step_name := step_name step +:+ " (fallback)";
     step_agent := agent;
     step_action := step_action step;
     step_input := step_input step;
     depends_on := [];
     step_condition := None;
     step_timeout := None;
     step_retries := 0;
     on_error := OnFail;
     fallback_agent := None |}.

(** [step.condition and not self._evaluate_condition(...)] *)
Definition condition_fails (step : WorkflowStep)
    (execution : WorkflowExecution) (input : list (string * pyval)) : bool :=
  match step_condition step with
  | Some condition => negb (_evaluate_condition condition execution input)
  | None => false
  end.

(** One turn of the loop [for step_id in step_order].  The first
    component is the exception the turn raises, if any. *)
Definition run_step (agents : Registry.t) (request : OrchestrateRequest)
    (context : AgentContext) (sid : string) (execution : WorkflowExecution)
    (st : State) : option (option exn * WorkflowExecution * State) :=
  let workflow := or_workflow request in
  match List.find (fun s => bool_decide (step_id s = sid)) (wf_steps workflow) with
  | None => Some (Some (OtherError EmptyString), execution, st)
  | Some step =>
      let execution := set_current_step sid execution in
      if negb (_dependencies_satisfied step execution) then
        if decide (wf_error_handling workflow = FailFast) then
          Some (Some (RuntimeError
                        ("Dependencies not satisfied for step: " +:+ sid)),
                execution, st)
        else Some (None, execution, st)
      else if condition_fails step execution (or_input request) then
        Some (None, record_result sid (skipped_result step) execution, st)
      else
        match _execute_workflow_step agents step execution context
                (or_input request) st with
        | None => None
        | Some (step_result, st1) =>
            let execution1 := record_result sid step_result execution in
            if decide (sr_status step_result = StepFailed) then
              match on_error step, fallback_agent step with
              | OnFail, _ =>
                  Some (Some (RuntimeError
                                ("Step failed: " +:+ sid +:+ " - "
                                 +:+ PyVal.str_opt (sr_error step_result))),
                        execution1, st1)
              | OnFallback, Some fb =>
                  match _execute_workflow_step agents (fallback_step step fb)
                          execution1 context (or_input request) st1 with
                  | None => None
                  | Some (fallback_result, st2) =>
                      Some (None, record_result sid fallback_result execution1,
                            st2)
                  end
              | _, _ => Some (None, execution1, st1)
              end
            else Some (None, execution1, st1)
        end
  end.

Fixpoint run_steps (agents : Registry.t) (request : OrchestrateRequest)
    (context : AgentContext) (step_order : list string)
    (execution : WorkflowExecution) (st : State)
    : option (option exn * WorkflowExecution * State) :=
  match step_order with
  | [] => Some (None, execution, st)
  | sid :: rest =>
      match run_step agents request context sid execution st with
      | None => None
      | Some (Some e, execution1, st1) =>
          Some (Some e, execution1, publish execution1 st1)
      | Some (None, execution1, st1) =>
          run_steps agents request context rest execution1
            (publish execution1 st1)
      end
  end.

(** The [try] block of [orchestrate] up to the end of the loop. *)
Definition run_workflow (agents : Registry.t) (request : OrchestrateRequest)
    (context : AgentContext) (execution : WorkflowExecution) (st : State)
    : option (option exn * WorkflowExecution * State) :=
  match Topo._topological_sort (wf_steps (or_workflow request)) with
  | None => None
  | Some (Raise e) => Some (Some e, execution, st)
  | Some (Ok step_order) =>
      run_steps agents request context step_order execution st
  end.

(** The record [orchestrate] creates at its start. *)
Definition new_execution (execution_id : string)
    (workflow : WorkflowDefinition) (context : AgentContext) (now : Z)
    : WorkflowExecution :=
  {| ex_id := execution_id;
     ex_workflow_id := wf_id workflow;
     ex_session_id := session_id context;
     ex_status := RunRunning;
     ex_current_step := None;
     ex_step_results := [];
     ex_started_at := now;
     ex_completed_at := None;
     ex_error := None |}.

(** [None] means that a loop of the model ran out of fuel. *)
Definition orchestrate (agents : Registry.t) (request : OrchestrateRequest)
    (context : AgentContext) (st : State)
    : option (OrchestrateResponse * State) :=
  let '(execution_id, st0) := fresh_uuid st in
  let workflow := or_workflow request in
  let execution :=
    new_execution execution_id workflow context (utcnow (world st0)) in
  let st1 := publish execution st0 in
  match run_workflow agents request context execution st1 with
  | None => None
  | Some (raised, execution1, st2) =>
      let status := if raised is Some _ then RunFailed else RunCompleted in
      let error := exn_str <$> raised in
      let execution2 := finish status error (utcnow (world st2)) execution1 in
      let st3 := publish execution2 st2 in
      let response :=
        {| resp_execution_id := execution_id;
           resp_status := status;
           resp_results := ex_step_results execution2;
           resp_error := error |} in
      (* finally: del self._active_workflows[execution_id] *)
      Some (response,
            {| world := world st3;
               active_workflows := delete execution_id (active_workflows st3);
               calls := calls st3 |})
  end.

Definition get_workflow_status (st : State) (execution_id : string)
    : option WorkflowExecution :=
  active_workflows st !! execution_id.
End WithRuntime.
End Orchestrator.

(** ** Notions used to state the properties *)

(** *** Dependency graphs *)

(** [depends steps d s]: the step with id [s] lists [d] in [depends_on]. *)
Definition depends (steps : list WorkflowStep) (d s : string) : Prop :=
  ∃ st, st ∈ steps ∧ step_id st = s ∧ d ∈ depends_on st.

(** The edges contain a cycle. *)
Definition cyclic (steps : list WorkflowStep) : Prop :=
  ∃ x, tc (depends steps) x x.

(** The data model of a workflow: ids are unique, and each [depends_on] is
    a set of ids of steps of the same workflow. *)
Definition well_formed (steps : list WorkflowStep) : Prop :=
  NoDup (step_id <$> steps) ∧
  ∀ st, st ∈ steps →
    NoDup (depends_on st) ∧ ∀ d, d ∈ depends_on st → d ∈ step_id <$> steps.


(** Number of sorted ids that occur in a dependency list. *)
Definition hits (sorted deps : list string) : nat :=
  length (filter (fun c => c ∈ deps) sorted).

Definition ordered (g : PyDict.t string (list string)) (sorted : list string)
    : Prop :=
  ∀ i k deps d, sorted !! i = Some k → (k, deps) ∈ g → d ∈ deps →
    ∃ j, j < i ∧ sorted !! j = Some d.

(** Invariant of the [while queue:] loop of [_topological_sort]. *)
Record kahn_inv (g : PyDict.t string (list string)) (ind : PyDict.t string Z)
    (queue sorted : list string) : Prop := {
  inv_keys : PyDict.keys ind = PyDict.keys g;
  inv_deg : ∀ k deps, (k, deps) ∈ g →
    PyDict.get k ind
    = Some (Z.of_nat (length deps) - Z.of_nat (hits sorted deps))%Z;
  inv_nodup : NoDup (sorted ++ queue);
  inv_zero : ∀ k, k ∈ sorted ++ queue ↔ PyDict.get k ind = Some 0%Z;
  inv_ordered : ordered g sorted
}.

Definition degrees (g : PyDict.t string (list string)) : PyDict.t string Z :=
  prod_map id (fun deps : list string => Z.of_nat (length deps)) <$> g.

Definition gdep (g : PyDict.t string (list string)) (d k : string) : Prop :=
  ∃ deps, (k, deps) ∈ g ∧ d ∈ deps.

(** *** Templates *)

(** The character [c] does not occur in [s]. *)
Definition char_free (c : Ascii.ascii) (s : string) : Prop :=
  c ∉ String.list_ascii_of_string s.

(** The value found by following [path] through nested maps, when every
    key on the way is present. *)
Fixpoint path_value (v : pyval) (path : list string) : option pyval :=
  match path with
  | [] => Some v
  | key :: rest =>
      match v with
      | PDict d =>
          match PyDict.get key d with
          | Some v' => path_value v' rest
          | None => None
          end
      | _ => None
      end
  end.

(** Results as the engine records them: only a completed step has an
    output. *)
Definition results_shape (results : PyDict.t string WorkflowStepResult) : Prop :=
  ∀ k r, PyDict.get k results = Some r →
    sr_status r ≠ StepCompleted → sr_output r = None.

(** *** Routing *)

Section RoutingNotions.
Context `{Runtime}.

(** The provider at position [i] of the registry is not excluded and
    accepts the request with confidence [c]. *)
Definition candidate (agents : list (AgentType * BaseAgent)) (request : string)
    (context : AgentContext) (exclude : list AgentType)
    (i : nat) (agent : BaseAgent) (c : Q) : Prop :=
  ∃ ty, agents !! i = Some (ty, agent) ∧ (ty ∉ exclude) ∧
        can_handle agent request context = (true, c).

(** [best] with confidence [conf] is the verdict of routing over [agents]:
    either nobody is above zero, or [best] is the first of the candidates
    with the greatest confidence. *)
Definition routed (agents : list (AgentType * BaseAgent)) (request : string)
    (context : AgentContext) (exclude : list AgentType)
    (best : option BaseAgent) (conf : Q) : Prop :=
  match best with
  | None =>
      conf = 0%Q ∧
      ∀ i a c, candidate agents request context exclude i a c → (c <= 0)%Q
  | Some agent =>
      ∃ i, candidate agents request context exclude i agent conf ∧
           (0 < conf)%Q ∧
           ∀ j a c, candidate agents request context exclude j a c →
             (c <= conf)%Q ∧ (j < i → (c < conf)%Q)
  end.
End RoutingNotions.

(** *** Attempts of a step *)

Section AttemptNotions.
Context `{Runtime}.

(** The outcomes of [n] executions of a provider one after the other, and
    the world they leave. *)
Fixpoint executions (agent : BaseAgent) (prompt : string)
    (context : AgentContext) (bound : option Z) (n : nat) (w : World)
    : list (outcome AgentResult) * World :=
  match n with
  | O => ([], w)
  | S n' =>
      let '(r, w1) := execute agent prompt context bound w in
      let '(rs, w2) := executions agent prompt context bound n' w1 in
      (r :: rs, w2)
  end.

(** The error an attempt leaves when it neither completes nor raises
    anything but a timeout; [None] for every other attempt. *)
Definition attempt_error (r : outcome AgentResult) : option string :=
  match r with
  | Ok result =>
      if decide (res_status result = COMPLETED) then None
      else Some (match res_error result with
                 | Some EmptyString | None => "Agent execution failed"
                 | Some e => e
                 end)
  | Raise TimeoutError => Some "Step timed out"
  | Raise _ => None
  end.

(** Every attempt of the list timed out or returned a result that is not
    completed. *)
Definition all_retried (rs : list (outcome AgentResult)) : Prop :=
  Forall (fun r => is_Some (attempt_error r)) rs.

(** The state after [n] logged executions of [agent] that leave world [w]. *)
Definition after_calls (st : Orchestrator.State) (w : World) (n : nat)
    (agent : BaseAgent) (prompt : string) : Orchestrator.State :=
  {| Orchestrator.world := w;
     Orchestrator.active_workflows := Orchestrator.active_workflows st;
     Orchestrator.calls :=
       Orchestrator.calls st ++ replicate n (agent_type agent, prompt) |}.
End AttemptNotions.

(** *** Chat *)

Section ChatNotions.
Context `{Runtime}.

(** [chosen] is the provider [chat] settles on before the handoff check:
    the provider of the requested type, or else the routed provider, or
    else the planner. *)
Definition resolves (agents : Registry.t) (request : ChatRequest)
    (context : AgentContext) (chosen : BaseAgent) : Prop :=
  match chat_agent_type request with
  | Some ty => Registry.get ty agents = Some chosen
  | None =>
      match (Registry.route_request agents (chat_message request) context None).1 with
      | Some agent => agent = chosen
      | None => Registry.get PLANNER agents = Some chosen
      end
  end.

(** The provider that executes: the target of the handoff [chosen] asks
    for, when there is one and it is registered, and [chosen] otherwise. *)
Definition after_handoff (agents : Registry.t) (request : ChatRequest)
    (context : AgentContext) (chosen : BaseAgent) : BaseAgent :=
  match should_handoff chosen (chat_message request) context with
  | Some handoff => default chosen (Registry.get (to_agent handoff) agents)
  | None => chosen
  end.
End ChatNotions.

(** ** A small concrete system

    Three providers over a world that is a counter: every provider call and
    every generated id advances it. *)

Module Example.

Definition text : PyText :=
  {| repr_str := fun s => "'" +:+ s +:+ "'";
     repr_float := fun _ => "0.0";
     format_agent_type := AgentType_value;
     content_error_text := fun _ => "Input should be a valid string" |}.

Definition runtime : Runtime :=
  {| World := nat;
     uuid4 := fun w => ("id-" +:+ pretty w, S w);
     utcnow := fun w => Z.of_nat w |}.

Definition context : AgentContext :=
  {| session_id := "s1"; workspace_id := "w1"; user_id := "u1" |}.

Definition result (ty : AgentType) (status : AgentStatus)
    (output : list (string * pyval)) (error : option string) : AgentResult :=
  {| result_id := "r"; res_agent_type := ty; res_status := status;
     res_output := output; res_tool_calls := []; res_suggested_actions := [];
     res_handoff := None; res_error := error; res_execution_time_ms := 1;
     res_tokens_used := 0 |}.

(** Fails until the counter reaches two, then completes. *)
Definition flaky : @BaseAgent runtime :=
  {| agent_type := TASK; agent_name := "flaky"; agent_description := "";
     execute := fun _ _ _ (w : @World runtime) =>
       (Ok (if (w <? 2)%nat
            then result TASK FAILED [] (Some "not yet")
            else result TASK COMPLETED [("x", PStr "42")] None),
        S w);
     can_handle := fun _ _ => (true, 1 # 2)%Q;
     should_handoff := fun _ _ => None |}.

(** Always raises. *)
Definition broken : @BaseAgent runtime :=
  {| agent_type := GRANT; agent_name := "broken"; agent_description := "";
     execute := fun _ _ _ (w : @World runtime) =>
       (Raise (OtherError "backend down"), S w);
     can_handle := fun _ _ => (true, 1 # 2)%Q;
     should_handoff := fun _ _ => None |}.

(** Never finishes within the bound. *)
Definition slow : @BaseAgent runtime :=
  {| agent_type := RESEARCH; agent_name := "slow"; agent_description := "";
     execute := fun _ _ _ (w : @World runtime) => (Raise TimeoutError, S w);
     can_handle := fun _ _ => (false, 0)%Q;
     should_handoff := fun _ _ => None |}.

(** Always completes. *)
Definition steady : @BaseAgent runtime :=
  {| agent_type := PLANNER; agent_name := "steady"; agent_description := "";
     execute := fun _ _ _ (w : @World runtime) =>
       (Ok (result PLANNER COMPLETED [("response", PStr "ok")] None), S w);
     can_handle := fun _ _ => (true, 1 # 4)%Q;
     should_handoff := fun _ _ => None |}.

Definition agents : @Registry.t runtime :=
  Registry.register steady
    (Registry.register slow
       (Registry.register broken (Registry.register flaky []))).

Definition state0 : @Orchestrator.State runtime :=
  @Orchestrator.Build_State runtime 0%nat ∅ [].

Definition step (i : string) (agent : AgentType) (deps : list string)
    (retries : Z) (policy : ErrorPolicy) (fb : option AgentType)
    (cond : option WorkflowCondition) : WorkflowStep :=
  {| step_id := i; step_name := i; step_agent := agent; step_action := "run";
     step_input := [("q", PStr "{{steps.a.output.x}}")]; depends_on := deps;
     step_condition := cond; step_timeout := None; step_retries := retries;
     on_error := policy; fallback_agent := fb |}.

Definition workflow (steps : list WorkflowStep) (mode : ErrorHandling)
    : WorkflowDefinition :=
  {| wf_id := "wf"; wf_name := "wf"; wf_description := ""; wf_version := "1.0";
     wf_steps := steps; wf_error_handling := mode; wf_timeout := None |}.

Definition request (steps : list WorkflowStep) : OrchestrateRequest :=
  {| or_workflow := workflow steps ContinueOnError; or_input := [] |}.

Definition execution0 : WorkflowExecution :=
  {| ex_id := "e"; ex_workflow_id := "wf"; ex_session_id := "s1";
     ex_status := RunRunning; ex_current_step := None; ex_step_results := [];
     ex_started_at := 0; ex_completed_at := None; ex_error := None |}.

Definition step_result (i : string) (status : StepStatus)
    (output : option (list (string * pyval))) : WorkflowStepResult :=
  {| sr_step_id := i; sr_status := status; sr_output := output;
     sr_error := None; sr_execution_time_ms := 0; sr_agent_type := TASK |}.

End Example.

(** ** [app/agents/base.py]: the default routing of a provider *)

(** The behaviour of an [execute] method: it runs the text-generation
    backend, so what it returns is left open. *)
Definition Execute `{Runtime} : Type :=
  string → AgentContext → option Z → World → outcome AgentResult * World.

Module Base.

(** [str.lower] on one of the first 256 code points. *)
Definition lower_char (c : Ascii.ascii) : Ascii.ascii :=
  let n := Ascii.nat_of_ascii c in
  if bool_decide (65 ≤ n ≤ 90)
     || (bool_decide (192 ≤ n ≤ 222) && negb (bool_decide (n = 215)))
  then Ascii.ascii_of_nat (n + 32) else c.

(** [s.lower()] *)
Fixpoint lower (s : string) : string :=
  match s with
  | EmptyString => EmptyString
  | String c r => String (lower_char c) (lower r)
  end.

(** [sub in s] *)
Fixpoint contains (sub s : string) : bool :=
  PyStr.startswith s sub
  || match s with
     | EmptyString => false
     | String _ r => contains sub r
     end.

(** [sum(1 for kw in keywords if kw in request_lower)] *)
Definition matches (keywords : list string) (request_lower : string) : nat :=
  sum_list ((fun kw => if contains kw request_lower then 1 else 0) <$> keywords).

(** [BaseAgent.can_handle].  The confidence is the quotient of two small
    integers; the code computes it as a float and compares it with the
    float [0.2].  Division and the literal are both rounded to nearest,
    rounding is monotone, and a quotient [m / n] that differs from [1/5]
    is further from it than neighbouring floats are from each other, so
    the comparisons come out as they do on the rationals. *)
Definition can_handle (keywords : list string) (request : string)
    : bool * Q :=
  let request_lower := lower request in
  let matches := matches keywords request_lower in
  let ratio := (Z.of_nat matches # Pos.of_nat (Nat.max (length keywords) 1))%Q in
  (* min(ratio, 1.0) *)
  let confidence := if Qgt_bool ratio 1 then 1%Q else ratio in
  (Qgt_bool confidence (1 # 5), confidence).

(** [BaseAgent.should_handoff]: no handoff unless a class overrides it. *)
Definition should_handoff (request : string) (context : AgentContext)
    : option AgentHandoff := None.

(** [any(kw in request_lower for kw in keywords)] *)
Definition any_in (keywords : list string) (request_lower : string) : bool :=
  existsb (fun kw => contains kw request_lower) keywords.

End Base.

(** ** [app/agents/specialized]: the eight providers

    Of each class the development keeps the type, the name, the
    description, the routing keywords and the handoff rule; [new] takes the
    behaviour of the [execute] method. *)

Module TaskAgent.
Definition _get_routing_keywords : list string :=
  ["task"; "todo"; "action"; "item"; "deadline";
   "prioritize"; "priority"; "urgent"; "important";
   "extract"; "meeting notes"; "email"; "schedule";
   "when should"; "break down"; "subtask"; "organize";
   "what should i do"; "work on"; "complete"; "finish"].

Definition new `{Runtime} (run : Execute) : BaseAgent :=
  {| agent_type := TASK;
     agent_name := "Task Assistant";
     agent_description :=
       "Helps you manage tasks, extract action items, and stay organized";
     execute := run;
     can_handle := fun request _ =>
       Base.can_handle _get_routing_keywords request;
     should_handoff := Base.should_handoff |}.
End TaskAgent.

Module ProjectAgent.
Definition _get_routing_keywords : list string :=
  ["project"; "manuscript"; "paper"; "research";
   "milestone"; "progress"; "status"; "summary";
   "health"; "risk"; "deadline"; "stage";
   "publication"; "submission"; "revision";
   "track"; "update"; "next steps"].

Definition should_handoff (request : string) (context : AgentContext)
    : option AgentHandoff :=
  let request_lower := Base.lower request in
  if Base.any_in
       ["grant proposal"; "funding"; "nih"; "nsf"; "budget"; "specific aims"]
       request_lower
  then Some {| from_agent := PROJECT;
               to_agent := GRANT;
               handoff_reason := "Request involves grant-specific details";
               handoff_context := [("original_request", PStr request)];
               preserve_history := true |}
  else if Base.any_in
            ["write"; "draft"; "abstract"; "introduction"; "methods"]
            request_lower
  then Some {| from_agent := PROJECT;
               to_agent := WRITING;
               handoff_reason := "Request involves content creation";
               handoff_context := [("original_request", PStr request)];
               preserve_history := true |}
  else None.

Definition new `{Runtime} (run : Execute) : BaseAgent :=
  Build_BaseAgent _ PROJECT "Project Manager"
    "Helps you manage academic projects, track progress, and stay on schedule"
    run
    (fun request _ => Base.can_handle _get_routing_keywords request)
    should_handoff.
End ProjectAgent.

Module GrantAgent.
Definition _get_routing_keywords : list string :=
  ["grant"; "funding"; "proposal"; "nih"; "nsf"; "r01"; "r21";
   "specific aims"; "budget"; "eligibility"; "deadline";
   "opportunity"; "application"; "submission"; "award";
   "fellowship"; "career"; "k99"; "f31"].

Definition should_handoff (request : string) (context : AgentContext)
    : option AgentHandoff :=
  let request_lower := Base.lower request in
  if Base.any_in
       ["write full"; "complete draft"; "significance section"; "innovation"]
       request_lower
  then Some {| from_agent := GRANT;
               to_agent := WRITING;
               handoff_reason :=
                 "Request involves extensive writing beyond specific aims";
               handoff_context :=
                 [("original_request", PStr request);
                  ("grant_context", PBool true)];
               preserve_history := true |}
  else if Base.any_in
            ["find papers"; "literature"; "preliminary data"; "citations"]
            request_lower
  then Some {| from_agent := GRANT;
               to_agent := RESEARCH;
               handoff_reason := "Request involves literature/research support";
               handoff_context :=
                 [("original_request", PStr request);
                  ("grant_context", PBool true)];
               preserve_history := true |}
  else None.

Definition new `{Runtime} (run : Execute) : BaseAgent :=
  Build_BaseAgent _ GRANT "Grant Assistant"
    "Helps you find grants, assess fit, and write proposals"
    run
    (fun request _ => Base.can_handle _get_routing_keywords request)
    should_handoff.
End GrantAgent.

Module ResearchAgent.
Definition _get_routing_keywords : list string :=
  ["literature"; "paper"; "citation"; "research"; "methodology";
   "study"; "findings"; "abstract"; "review"; "related work"].

Definition new `{Runtime} (run : Execute) : BaseAgent :=
  {| agent_type := RESEARCH;
     agent_name := "Research Assistant";
     agent_description :=
       "Helps with literature search, paper summaries, and research planning";
     execute := run;
     can_handle := fun request _ =>
       Base.can_handle _get_routing_keywords request;
     should_handoff := Base.should_handoff |}.
End ResearchAgent.

Module CalendarAgent.
Definition _get_routing_keywords : list string :=
  ["calendar"; "schedule"; "meeting"; "time"; "availability";
   "block"; "appointment"; "busy"; "free"; "when"].

Definition new `{Runtime} (run : Execute) : BaseAgent :=
  {| agent_type := CALENDAR;
     agent_name := "Calendar Assistant";
     agent_description :=
       "Helps manage your schedule, meetings, and time blocking";
     execute := run;
     can_handle := fun request _ =>
       Base.can_handle _get_routing_keywords request;
     should_handoff := Base.should_handoff |}.
End CalendarAgent.

Module WritingAgent.
Definition _get_routing_keywords : list string :=
  ["write"; "draft"; "edit"; "abstract"; "outline";
   "paragraph"; "section"; "improve"; "rewrite"; "grammar";
   "introduction"; "methods"; "results"; "discussion"; "conclusion"].

Definition new `{Runtime} (run : Execute) : BaseAgent :=
  {| agent_type := WRITING;
     agent_name := "Writing Assistant";
     agent_description :=
       "Helps with academic writing, editing, and document formatting";
     execute := run;
     can_handle := fun request _ =>
       Base.can_handle _get_routing_keywords request;
     should_handoff := Base.should_handoff |}.
End WritingAgent.

Module PersonnelAgent.
Definition _get_routing_keywords : list string :=
  ["student"; "mentee"; "lab"; "team"; "personnel";
   "phd"; "postdoc"; "meeting"; "progress"; "mentoring"].

Definition new `{Runtime} (run : Execute) : BaseAgent :=
  {| agent_type := PERSONNEL;
     agent_name := "Personnel Assistant";
     agent_description :=
       "Helps manage team members, mentoring, and lab personnel";
     execute := run;
     can_handle := fun request _ =>
       Base.can_handle _get_routing_keywords request;
     should_handoff := Base.should_handoff |}.
End PersonnelAgent.

Module PlannerAgent.
Definition _get_routing_keywords : list string :=
  ["plan"; "goal"; "strategy"; "career"; "long-term";
   "week"; "month"; "quarter"; "year"; "priorities";
   "help"; "what should"; "how do i"; "advice"].

Definition handoff_map : list (list string * AgentType) :=
  [(["task"; "todo"; "action item"; "extract from"], TASK);
   (["project"; "manuscript"; "paper status"], PROJECT);
   (["grant"; "funding"; "proposal"; "nih"; "nsf"], GRANT);
   (["literature"; "paper"; "citation"], RESEARCH);
   (["calendar"; "schedule"; "meeting"; "availability"], CALENDAR);
   (["write"; "draft"; "edit"; "abstract"], WRITING);
   (["student"; "mentee"; "lab member"; "postdoc"], PERSONNEL)].

(** The loop [for keywords, agent_type in handoff_map]. *)
Fixpoint handoff_loop (items : list (list string * AgentType))
    (request request_lower : string) : option AgentHandoff :=
  match items with
  | [] => None
  | (keywords, agent_type) :: rest =>
      if Base.any_in keywords request_lower then
        Some {| from_agent := PLANNER;
                to_agent := agent_type;
                handoff_reason :=
                  "Request is more appropriate for "
                  +:+ AgentType_value agent_type +:+ " agent";
                handoff_context := [("original_request", PStr request)];
                preserve_history := true |}
      else handoff_loop rest request request_lower
  end.

Definition should_handoff (request : string) (context : AgentContext)
    : option AgentHandoff :=
  handoff_loop handoff_map request (Base.lower request).

Definition new `{Runtime} (run : Execute) : BaseAgent :=
  Build_BaseAgent _ PLANNER "Planning Assistant"
    "Helps with goal setting, strategic planning, and general guidance"
    run
    (fun request _ => Base.can_handle _get_routing_keywords request)
    should_handoff.
End PlannerAgent.

(** ** [app/agents/registry.py]: the registry object *)

Module AgentRegistry.
Section WithRuntime.
Context `{Runtime}.

Record t := {
  _agents : Registry.t;
  _initialized : bool
}.

(** [AgentRegistry()] *)
Definition new : t := {| _agents := []; _initialized := false |}.

Definition register (agent : BaseAgent) (self : t) : t :=
  {| _agents := Registry.register agent (_agents self);
     _initialized := _initialized self |}.

(** [del agents[agent_type]] on a type that is present. *)
Fixpoint delitem (ty : AgentType) (agents : Registry.t) : Registry.t :=
  match agents with
  | [] => []
  | (ty', agent) :: rest =>
      if decide (ty = ty') then rest else (ty', agent) :: delitem ty rest
  end.

Definition unregister (ty : AgentType) (self : t) : t :=
  if bool_decide (ty ∈ PyDict.keys (_agents self)) then
    {| _agents := delitem ty (_agents self);
       _initialized := _initialized self |}
  else self.

Definition get (ty : AgentType) (self : t) : option BaseAgent :=
  Registry.get ty (_agents self).

Definition get_all (self : t) : list BaseAgent := (_agents self).*2.

Definition list_types (self : t) : list AgentType :=
  PyDict.keys (_agents self).

Definition route_request (self : t) (request : string)
    (context : AgentContext) (exclude : option (list AgentType))
    : option BaseAgent * Q :=
  Registry.route_request (_agents self) request context exclude.

(** [initialize_agents]; [run ty] is the behaviour of the [execute]
    method of the class of type [ty]. *)
Definition initialize_agents (run : AgentType → Execute) (self : t) : t :=
  if _initialized self then self
  else
    let agents :=
      [TaskAgent.new (run TASK);
       ProjectAgent.new (run PROJECT);
       GrantAgent.new (run GRANT);
       ResearchAgent.new (run RESEARCH);
       CalendarAgent.new (run CALENDAR);
       WritingAgent.new (run WRITING);
       PersonnelAgent.new (run PERSONNEL);
       PlannerAgent.new (run PLANNER)] in
    let self := foldl (fun self agent => register agent self) self agents in
    {| _agents := _agents self; _initialized := true |}.
End WithRuntime.
End AgentRegistry.

(** ** Inter-agent messages *)

Inductive Recipient :=
| ToAgent (ty : AgentType)
| ToOrchestrator
| ToAll.

Inductive MessageType :=
| MsgRequest | MsgResponse | MsgBroadcast | MsgHandoff | MsgStatus.

Record InterAgentMessage := {
  msg_id : string;
  msg_sender : AgentType;
  msg_recipient : Recipient;
  msg_type : MessageType;
  msg_content : list (string * pyval);
  msg_context : AgentContext;
  msg_priority : Z;
  msg_timestamp : Z
}.

Module Messaging.
Section WithRuntime.
Context `{Runtime}.

(** [send_message]: the message joins the queue; the branches on the
    recipient look providers up and do nothing with them. *)
Definition send_message (agents : Registry.t) (message : InterAgentMessage)
    (queue : list InterAgentMessage) : list InterAgentMessage :=
  let queue := queue ++ [message] in
  match msg_recipient message with
  | ToAll => let _ := agents.*2 in queue
  | ToOrchestrator => queue
  | ToAgent ty => let _ := Registry.get ty agents in queue
  end.

(** [process_messages]: the loop [while queue: queue.pop(0)].  The first
    component lists the messages in the order the loop takes them; the
    second is the queue the loop leaves. *)
Fixpoint process_messages (queue : list InterAgentMessage)
    : list InterAgentMessage * list InterAgentMessage :=
  match queue with
  | [] => ([], [])
  | message :: rest =>
      let '(taken, remaining) := process_messages rest in
      (message :: taken, remaining)
  end.
End WithRuntime.
End Messaging.

(** ** Further notions used to state the properties *)

Section RegistryNotions.
Context `{Runtime}.

(** Registries that [register] and [unregister] build from the empty one. *)
Inductive built : AgentRegistry.t → Prop :=
| built_new : built AgentRegistry.new
| built_register agent self :
    built self → built (AgentRegistry.register agent self)
| built_unregister ty self :
    built self → built (AgentRegistry.unregister ty self).
End RegistryNotions.

(** The least number of keyword hits with which the provider class of a
    type accepts a request (no class has the orchestrator type). *)
Definition threshold (ty : AgentType) : nat :=
  match ty with
  | TASK => 5
  | PROJECT | GRANT | WRITING => 4
  | RESEARCH | CALENDAR | PERSONNEL | PLANNER => 3
  | ORCHESTRATOR => 1
  end.

Definition routing_keywords (ty : AgentType) : list string :=
  match ty with
  | TASK => TaskAgent._get_routing_keywords
  | PROJECT => ProjectAgent._get_routing_keywords
  | GRANT => GrantAgent._get_routing_keywords
  | RESEARCH => ResearchAgent._get_routing_keywords
  | CALENDAR => CalendarAgent._get_routing_keywords
  | WRITING => WritingAgent._get_routing_keywords
  | PERSONNEL => PersonnelAgent._get_routing_keywords
  | PLANNER => PlannerAgent._get_routing_keywords
  | ORCHESTRATOR => []
  end.

(** The types [initialize_agents] registers, in its order. *)
Definition builtin_types : list AgentType :=
  [TASK; PROJECT; GRANT; RESEARCH; CALENDAR; WRITING; PERSONNEL; PLANNER].

(** The most provider calls a step can cause: one per attempt, and one
    more for a fallback. *)
Definition call_budget (step : WorkflowStep) : nat :=
  Z.to_nat (step_retries step + 1)
  + match on_error step, fallback_agent step with
    | OnFallback, Some _ => 1
    | _, _ => 0
    end.

(** No string value inside the value holds an opening brace. *)
Fixpoint template_free (v : pyval) : bool :=
  match v with
  | PStr s => bool_decide (char_free "{" s)
  | PList l => forallb template_free l
  | PDict d => forallb (fun kv => template_free kv.2) d
  | _ => true
  end.

(** A step result that is completed and has a non-empty output: what the
    [prev.] reference looks for. *)
Definition usable (r : WorkflowStepResult) : bool :=
  match sr_output r with
  | Some out => bool_decide (sr_status r = StepCompleted) && PyVal.truthy (PDict out)
  | None => false
  end.

(** [r] is a result the engine can record for [step]: the result of the
    step itself, skipped or executed, or the result of its fallback, which
    carries an id of its own and the type of the fallback provider. *)
Definition recorded_for (step : WorkflowStep) (r : WorkflowStepResult) : Prop :=
  (sr_step_id r = step_id step ∧ sr_agent_type r = step_agent step ∧
   sr_status r ∈ [StepCompleted; StepFailed; StepSkipped])
  ∨ (on_error step = OnFallback ∧
     fallback_agent step = Some (sr_agent_type r) ∧
     sr_step_id r = step_id step +:+ "_fallback" ∧
     sr_status r ∈ [StepCompleted; StepFailed]).

(** Invariant of the loop of [orchestrate] over the recorded results:
    every entry belongs to a step of the workflow, is a result the engine
    can record for it, and was recorded when all dependencies of the step
    had results that were completed or skipped. *)
Definition results_sound (request : OrchestrateRequest)
    (results : PyDict.t string WorkflowStepResult) : Prop :=
  ∀ k r, PyDict.get k results = Some r →
    ∃ step,
      List.find (fun s => bool_decide (step_id s = k))
        (wf_steps (or_workflow request)) = Some step ∧
      recorded_for step r ∧
      ∀ d, d ∈ depends_on step →
        ∃ rd, PyDict.get d results = Some rd ∧
              (sr_status rd = StepCompleted ∨ sr_status rd = StepSkipped).

(** How the turn of the step [sid] can raise, [results] being what is
    recorded when it does. *)
Definition raised_by `{PyText} (request : OrchestrateRequest) (sid : string)
    (step : WorkflowStep) (results : PyDict.t string WorkflowStepResult)
    (e : exn) : Prop :=
  (wf_error_handling (or_workflow request) = FailFast ∧
   PyDict.get sid results = None ∧
   e = RuntimeError ("Dependencies not satisfied for step: " +:+ sid))
  ∨ (on_error step = OnFail ∧
     ∃ r, PyDict.get sid results = Some r ∧ sr_status r = StepFailed ∧
          e = RuntimeError ("Step failed: " +:+ sid +:+ " - "
                            +:+ PyVal.str_opt (sr_error r))).

(** The messages an error response of [orchestrate] can carry. *)
Definition failure_message `{PyText} (request : OrchestrateRequest)
    (results : PyDict.t string WorkflowStepResult) (message : string) : Prop :=
  (Topo._topological_sort (wf_steps (or_workflow request))
   = Some (Raise (ValueError Topo.circular_msg)) ∧
   results = [] ∧
   message = Topo.circular_msg)
  ∨ (wf_error_handling (or_workflow request) = FailFast ∧
     ∃ step, step ∈ wf_steps (or_workflow request) ∧
       PyDict.get (step_id step) results = None ∧
       message = "Dependencies not satisfied for step: " +:+ step_id step)
  ∨ (∃ step r, step ∈ wf_steps (or_workflow request) ∧
       on_error step = OnFail ∧
       PyDict.get (step_id step) results = Some r ∧
       sr_status r = StepFailed ∧
       message = "Step failed: " +:+ step_id step +:+ " - "
                 +:+ PyVal.str_opt (sr_error r)).

(** ** The built-in providers over the example world *)

Module Builtin.

(** Every provider completes with the text [done]. *)
Definition run (ty : AgentType) : @Execute Example.runtime :=
  fun _ _ _ (w : @World Example.runtime) =>
    (Ok (Example.result ty COMPLETED [("response", PStr "done")] None), S w).

Definition registry : @AgentRegistry.t Example.runtime :=
  AgentRegistry.initialize_agents run AgentRegistry.new.

Definition chat_request (message : string) : ChatRequest :=
  {| chat_session_id := None; chat_message := message; chat_context := [];
     chat_agent_type := None; chat_stream := false |}.

End Builtin.

(** * Properties *)

(** ** Insertion-ordered dictionaries *)

Section PyDictFacts.
Context {K : Type} `{EqDecision K} {V : Type}.
Implicit Types (d : PyDict.t K V) (k : K) (v : V).

Lemma get_set_eq d k v : PyDict.get k (PyDict.set k v d) = Some v.
Proof.
  induction d as [|[k' v'] d IH]; simpl.
  - by rewrite decide_True.
  - destruct (decide (k = k')) as [->|Hne]; simpl.
    + by rewrite decide_True.
    + by rewrite decide_False.
Qed.

Lemma get_set_ne d k k' v :
  k ≠ k' → PyDict.get k' (PyDict.set k v d) = PyDict.get k' d.
Proof.
  intros Hne. induction d as [|[k0 v0] d IH]; simpl.
  - by rewrite decide_False.
  - destruct (decide (k = k0)) as [->|Hk]; simpl.
    + by rewrite !(decide_False (P := k' = k0)).
    + destruct (decide (k' = k0)); [done | apply IH].
Qed.

Lemma get_None_keys d k : PyDict.get k d = None ↔ k ∉ PyDict.keys d.
Proof.
  unfold PyDict.keys. induction d as [|[k' v'] d IH]; simpl.
  - split; [intros _; apply not_elem_of_nil | done].
  - rewrite not_elem_of_cons. destruct (decide (k = k')) as [->|Hne].
    + split; [done | intros [? _]; done].
    + rewrite IH. tauto.
Qed.

Lemma get_Some_keys d k v : PyDict.get k d = Some v → k ∈ PyDict.keys d.
Proof.
  intros Hg. destruct (decide (k ∈ PyDict.keys d)) as [|Hn]; [done|].
  apply get_None_keys in Hn. congruence.
Qed.

Lemma get_Some_elem d k v : PyDict.get k d = Some v → (k, v) ∈ d.
Proof.
  induction d as [|[k' v'] d IH]; simpl; [done|].
  destruct (decide (k = k')) as [->|Hne].
  - intros [= ->]. left.
  - intros Hg. right. by apply IH.
Qed.

Lemma elem_get_Some d k v :
  NoDup (PyDict.keys d) → (k, v) ∈ d → PyDict.get k d = Some v.
Proof.
  unfold PyDict.keys. induction d as [|[k' v'] d IH]; simpl.
  - intros _ Hin. by apply elem_of_nil in Hin.
  - intros Hnd Hin. apply NoDup_cons in Hnd as [Hk' Hnd].
    apply elem_of_cons in Hin as [[= -> ->]|Hin].
    + by rewrite decide_True.
    + destruct (decide (k = k')) as [->|Hne]; [|by apply IH].
      exfalso. apply Hk'. apply list_elem_of_fmap. by exists (k', v).
Qed.

Lemma keys_set_in d k v :
  k ∈ PyDict.keys d → PyDict.keys (PyDict.set k v d) = PyDict.keys d.
Proof.
  unfold PyDict.keys. induction d as [|[k' v'] d IH]; simpl.
  - intros Hin. by apply elem_of_nil in Hin.
  - intros Hin. destruct (decide (k = k')) as [->|Hne]; simpl; [done|].
    apply elem_of_cons in Hin as [?|Hin]; [done|]. f_equal. by apply IH.
Qed.

Lemma keys_set_notin d k v :
  k ∉ PyDict.keys d → PyDict.keys (PyDict.set k v d) = PyDict.keys d ++ [k].
Proof.
  unfold PyDict.keys. induction d as [|[k' v'] d IH]; simpl; [done|].
  intros Hin. apply not_elem_of_cons in Hin as [Hne Hin].
  rewrite decide_False by done. simpl. f_equal. by apply IH.
Qed.

Lemma set_notin d k v : k ∉ PyDict.keys d → PyDict.set k v d = d ++ [(k, v)].
Proof.
  unfold PyDict.keys. induction d as [|[k' v'] d IH]; simpl; [done|].
  intros Hin. apply not_elem_of_cons in Hin as [Hne Hin].
  rewrite decide_False by done. f_equal. by apply IH.
Qed.
End PyDictFacts.

Lemma set_fmap {K} `{EqDecision K} {V W} (f : V → W) (d : PyDict.t K V) k v :
  prod_map id f <$> PyDict.set k v d = PyDict.set k (f v) (prod_map id f <$> d).
Proof.
  induction d as [|[k' v'] d IH]; simpl; [done|].
  destruct (decide (k = k')); simpl; [done | f_equal; apply IH].
Qed.
(** ** Kahn's algorithm *)

Lemma hits_snoc P c deps :
  hits (P ++ [c]) deps = hits P deps + (if decide (c ∈ deps) then 1 else 0).
Proof.
  unfold hits. rewrite filter_app, length_app. f_equal.
  rewrite filter_cons, filter_nil. by destruct (decide (c ∈ deps)).
Qed.

Lemma hits_le P deps : NoDup P → hits P deps ≤ length deps.
Proof.
  intros HP. unfold hits. apply submseteq_length, NoDup_submseteq.
  - by apply NoDup_filter.
  - intros x Hx. by apply list_elem_of_filter in Hx as [? _].
Qed.

Lemma hits_full P deps d :
  NoDup P → hits P deps = length deps → d ∈ deps → d ∈ P.
Proof.
  intros HP Hlen Hd. unfold hits in Hlen.
  assert (filter (fun c => c ∈ deps) P ⊆+ deps) as Hsub.
  { apply NoDup_submseteq; [by apply NoDup_filter|].
    intros x Hx. by apply list_elem_of_filter in Hx as [? _]. }
  apply submseteq_length_Permutation in Hsub; [|lia].
  rewrite <- Hsub in Hd. by apply list_elem_of_filter in Hd as [_ ?].
Qed.


Section Kahn.
Variable g : PyDict.t string (list string).
Hypothesis g_nodup : NoDup (PyDict.keys g).

Local Abbreviation degrees := (degrees g).
Local Abbreviation gdep := (gdep g).

Lemma graph_key_unique k deps deps' :
  (k, deps) ∈ g → (k, deps') ∈ g → deps = deps'.
Proof.
  intros H1 H2. apply elem_get_Some in H1, H2; try done. congruence.
Qed.

Lemma relax_inv P c items : ∀ pre ind q,
  g = pre ++ items →
  PyDict.keys ind = PyDict.keys g →
  (∀ k deps, (k, deps) ∈ pre → PyDict.get k ind =
     Some (Z.of_nat (length deps) - Z.of_nat (hits (P ++ [c]) deps))%Z) →
  (∀ k deps, (k, deps) ∈ items → PyDict.get k ind =
     Some (Z.of_nat (length deps) - Z.of_nat (hits P deps))%Z) →
  NoDup (P ++ c :: q) →
  (∀ k, k ∈ P ++ c :: q ↔ PyDict.get k ind = Some 0%Z) →
  ∃ ind' q', Topo.relax c items ind q = Ok (ind', q') ∧
    PyDict.keys ind' = PyDict.keys g ∧
    (∀ k deps, (k, deps) ∈ g → PyDict.get k ind' =
       Some (Z.of_nat (length deps) - Z.of_nat (hits (P ++ [c]) deps))%Z) ∧
    NoDup (P ++ c :: q') ∧
    (∀ k, k ∈ P ++ c :: q' ↔ PyDict.get k ind' = Some 0%Z).
Proof.
  induction items as [|[sid deps] rest IH]; intros pre ind q Hg Hkeys Hpre Hitems Hnd Hzero.
  - simpl. exists ind, q. rewrite app_nil_r in Hg. subst pre. done.
  - assert (NoDup (P ++ [c])) as HPc.
    { rewrite (assoc_L _ P [c] q : P ++ c :: q = (P ++ [c]) ++ q) in Hnd.
      by apply NoDup_app in Hnd as [? _]. }
    assert (∀ k deps', (k, deps') ∈ pre ++ rest → k ≠ sid) as Hother.
    { intros k deps' Hin ->. rewrite Hg in g_nodup. unfold PyDict.keys in g_nodup.
      rewrite fmap_app, fmap_cons in g_nodup. simpl in g_nodup.
      apply NoDup_app in g_nodup as (_ & Hdisj & Hr).
      apply NoDup_cons in Hr as [Hr _].
      apply elem_of_app in Hin as [Hin|Hin].
      - apply (Hdisj sid); [|left]. apply list_elem_of_fmap. by exists (sid, deps').
      - apply Hr. apply list_elem_of_fmap. by exists (sid, deps'). }
    pose proof (Hitems sid deps ltac:(left)) as Hsid.
    assert (g = (pre ++ [(sid, deps)]) ++ rest) as Hg' by (rewrite Hg, <- app_assoc; done).
    simpl. destruct (bool_decide (c ∈ deps)) eqn:Hc.
    + apply bool_decide_eq_true in Hc.
      unfold PyDict.getitem at 1. rewrite Hsid. simpl.
      unfold PyDict.getitem at 1. rewrite get_set_eq. simpl.
      pose proof (hits_le _ deps HPc) as Hle.
      rewrite hits_snoc, decide_True in Hle by done.
      assert (sid ∈ PyDict.keys ind) as Hsk by (eapply get_Some_keys; eauto).
      apply (IH (pre ++ [(sid, deps)])); try done.
      * by rewrite keys_set_in.
      * intros k deps' Hin. apply elem_of_app in Hin as [Hin|Hin].
        -- rewrite get_set_ne; [by apply Hpre|].
           intros <-. eapply Hother; [|done]. apply elem_of_app; eauto.
        -- apply list_elem_of_singleton in Hin as [= -> ->].
           rewrite get_set_eq, hits_snoc, decide_True by done. f_equal. lia.
      * intros k deps' Hin. rewrite get_set_ne; [apply Hitems; by right|].
        intros <-. eapply Hother; [|done]. apply elem_of_app; eauto.
      * destruct (decide _) as [Hz|Hz]; [|done].
        assert (sid ∉ P ++ c :: q) as Hnot.
        { rewrite Hzero, Hsid. intros [= ?]. lia. }
        rewrite (assoc_L _ P (c :: q) [sid] : P ++ c :: q ++ [sid] = (P ++ c :: q) ++ [sid]).
        apply NoDup_app. split_and!; [done| |apply NoDup_singleton].
        intros x Hx Hx'. apply list_elem_of_singleton in Hx' as ->. done.
      * intros k. destruct (decide (k = sid)) as [->|Hne].
        -- rewrite get_set_eq. destruct (decide _) as [Hz|Hz].
           ++ rewrite Hz. split; [done|]. intros _.
              rewrite !elem_of_app, !elem_of_cons, elem_of_app, list_elem_of_singleton. tauto.
           ++ rewrite Hzero, Hsid. split; intros [= ?]; lia.
        -- rewrite get_set_ne by done. rewrite <- Hzero.
           destruct (decide _) as [Hz|Hz]; [|done].
           rewrite !elem_of_app, !elem_of_cons, elem_of_app, list_elem_of_singleton. tauto.
    + apply bool_decide_eq_false in Hc. apply (IH (pre ++ [(sid, deps)])); try done.
      * intros k deps' Hin. apply elem_of_app in Hin as [Hin|Hin]; [by apply Hpre|].
        apply list_elem_of_singleton in Hin as [= -> ->].
        rewrite Hsid, hits_snoc, decide_False by done. f_equal. lia.
      * intros k deps' Hin. apply Hitems. by right.
Qed.

Lemma kahn_step ind c q1 P :
  kahn_inv g ind (c :: q1) P →
  ∃ ind' q', Topo.relax c g ind q1 = Ok (ind', q') ∧ kahn_inv g ind' q' (P ++ [c]).
Proof.
  intros [Hk Hd Hnd Hz Ho].
  assert (NoDup (P ++ [c])) as HPc.
  { rewrite (assoc_L _ P [c] q1 : P ++ c :: q1 = (P ++ [c]) ++ q1) in Hnd.
    by apply NoDup_app in Hnd as [? _]. }
  destruct (relax_inv P c g [] ind q1 eq_refl Hk) as (ind' & q' & Hr & Hk' & Hd' & Hnd' & Hz');
    [by intros ?? ?%elem_of_nil | done | done | done |].
  exists ind', q'. split; [done|]. split; try done.
  - by rewrite <- app_assoc.
  - intros k. by rewrite <- app_assoc.
  - intros i k deps d Hi Hin Hdin.
    destruct (decide (i < length P)) as [Hlt|Hge].
    + rewrite lookup_app_l in Hi by done.
      destruct (Ho i k deps d Hi Hin Hdin) as (j & Hj & Hjd).
      exists j. split; [done|]. rewrite lookup_app_l by lia. done.
    + rewrite lookup_app_r in Hi by lia.
      apply list_lookup_singleton_Some in Hi as [Hi <-].
      assert (NoDup P) as HP by (by apply NoDup_app in Hnd as [? _]).
      assert (c ∈ P ++ c :: q1) as Hc by (rewrite elem_of_app, elem_of_cons; tauto).
      apply Hz in Hc. rewrite (Hd _ _ Hin) in Hc. injection Hc as Hc.
      assert (d ∈ P) as HdP by (eapply hits_full; eauto; lia).
      apply list_elem_of_lookup in HdP as [j Hj].
      exists j. pose proof (lookup_lt_Some _ _ _ Hj).
      split; [lia|]. by rewrite lookup_app_l.
Qed.

Lemma kahn_inv_bound ind q P :
  kahn_inv g ind q P → length P + length q ≤ length (PyDict.keys g).
Proof.
  intros [Hk _ Hnd Hz _]. rewrite <- length_app.
  apply submseteq_length, NoDup_submseteq; [done|].
  intros x Hx. apply Hz in Hx. rewrite <- Hk. by eapply get_Some_keys.
Qed.

Lemma drain_inv fuel : ∀ ind q P,
  kahn_inv g ind q P →
  length (PyDict.keys g) ≤ fuel + length P →
  ∃ ind' P', Topo.drain fuel g ind q P = Some (Ok P') ∧ kahn_inv g ind' [] P'.
Proof.
  induction fuel as [|fuel IH]; intros ind q P Hinv Hfuel.
  - destruct q as [|c q1]; simpl; [by eauto|].
    apply kahn_inv_bound in Hinv. simpl in *. lia.
  - destruct q as [|c q1]; simpl; [by eauto|].
    destruct (kahn_step _ _ _ _ Hinv) as (ind' & q' & -> & Hinv').
    apply IH; [done|]. rewrite length_app. simpl. lia.
Qed.

Lemma degrees_keys : PyDict.keys degrees = PyDict.keys g.
Proof.
  unfold degrees, PyDict.keys. rewrite <- list_fmap_compose.
  apply list_fmap_ext. by intros _ [??] _.
Qed.

Lemma kahn_inv_init : kahn_inv g degrees (Topo.initial_queue degrees) [].
Proof.
  assert (NoDup (PyDict.keys degrees)) as Hnd by by rewrite degrees_keys.
  assert (∀ k, k ∈ Topo.initial_queue degrees ↔ PyDict.get k degrees = Some 0%Z) as Hq.
  { intros k. unfold Topo.initial_queue. rewrite list_elem_of_fmap. split.
    - intros ([k' v] & -> & Hin). apply list_elem_of_filter in Hin as [Hv Hin].
      simpl in *. subst v. by apply elem_get_Some.
    - intros Hget. exists (k, 0%Z). split; [done|].
      apply list_elem_of_filter. split; [done|]. by apply get_Some_elem. }
  split; simpl.
  - apply degrees_keys.
  - intros k deps Hin. apply elem_get_Some; [done|].
    unfold degrees. apply list_elem_of_fmap. exists (k, deps). split; [|done].
    unfold hits. simpl. f_equal. lia.
  - unfold Topo.initial_queue. eapply sublist_NoDup; [exact Hnd|].
    apply fmap_sublist, sublist_filter.
  - done.
  - intros i k deps d Hi. by rewrite lookup_nil in Hi.
Qed.

(** The while loop terminates on every graph with the fuel the sort gives it. *)
Lemma drain_total fuel :
  length (PyDict.keys g) ≤ fuel →
  ∃ ind' P', Topo.drain fuel g degrees (Topo.initial_queue degrees) [] = Some (Ok P')
    ∧ kahn_inv g ind' [] P'.
Proof. intros Hf. apply drain_inv; [apply kahn_inv_init | simpl; lia]. Qed.

Lemma ordered_tc P x y j :
  ordered g P → tc gdep x y → P !! j = Some y → ∃ i, i < j ∧ P !! i = Some x.
Proof.
  intros Ho Htc. revert j. induction Htc as [x y [deps [Hin Hd]]|x z y [deps [Hin Hd]] _ IH];
    intros j Hj.
  - eapply Ho; eauto.
  - destruct (IH j Hj) as (i & Hi & Hz).
    destruct (Ho i z deps x Hz Hin Hd) as (i' & Hi' & Hx).
    exists i'. split; [lia | done].
Qed.

Lemma ordered_cycle_absent P x : ordered g P → tc gdep x x → x ∉ P.
Proof.
  intros Ho Htc Hx. apply list_elem_of_lookup in Hx as [j Hj].
  revert Hj. induction (lt_wf j) as [j _ IH]. intros Hj.
  destruct (ordered_tc P x x j Ho Htc Hj) as (i & Hi & Hx). eauto.
Qed.

Lemma tc_gdep_key x y : tc gdep x y → y ∈ PyDict.keys g.
Proof.
  induction 1 as [x y [deps [Hin _]]|]; [|done].
  unfold PyDict.keys. apply list_elem_of_fmap. by exists (y, deps).
Qed.

Lemma kahn_cycle_short ind P x :
  kahn_inv g ind [] P → tc gdep x x → length P < length (PyDict.keys g).
Proof.
  intros Hinv Htc. pose proof (ordered_cycle_absent P x (inv_ordered _ _ _ _ Hinv) Htc) as Hx.
  destruct Hinv as [Hk _ Hnd Hz _]. rewrite app_nil_r in Hnd.
  assert (x :: P ⊆+ PyDict.keys g) as Hsub.
  { apply NoDup_submseteq; [by apply NoDup_cons|].
    intros y [->|Hy]%elem_of_cons; [by eapply tc_gdep_key|].
    rewrite <- Hk. eapply get_Some_keys. apply Hz. by rewrite app_nil_r. }
  apply submseteq_length in Hsub. simpl in Hsub. lia.
Qed.



End Kahn.

(** ** From the step list to the graph *)

Lemma set_keys_NoDup {K} `{EqDecision K} {V} (d : PyDict.t K V) k v :
  NoDup (PyDict.keys d) → NoDup (PyDict.keys (PyDict.set k v d)).
Proof.
  intros Hnd. destruct (decide (k ∈ PyDict.keys d)) as [Hin|Hin].
  - by rewrite keys_set_in.
  - rewrite keys_set_notin by done. apply NoDup_app. split_and!; [done| |apply NoDup_singleton].
    intros x Hx ->%list_elem_of_singleton. done.
Qed.

Lemma set_length_le {K} `{EqDecision K} {V} (d : PyDict.t K V) k v :
  length (PyDict.set k v d) ≤ S (length d).
Proof.
  induction d as [|[k' v'] d IH]; simpl; [lia|].
  destruct (decide (k = k')); simpl; lia.
Qed.

Lemma set_elem {K} `{EqDecision K} {V} (d : PyDict.t K V) k v k' v' :
  (k', v') ∈ PyDict.set k v d → (k', v') ∈ d ∨ (k' = k ∧ v' = v).
Proof.
  induction d as [|[k0 v0] d IH]; simpl.
  - intros [= -> ->]%list_elem_of_singleton. by right.
  - destruct (decide (k = k0)) as [->|Hne].
    + intros [[= -> ->]|Hin]%elem_of_cons; [by right|]. left. by right.
    + intros [[= -> ->]|Hin]%elem_of_cons; [left; left|].
      destruct (IH Hin) as [?|?]; [left; by right | by right].
Qed.

Section GraphOfSteps.
Implicit Types (steps : list WorkflowStep) (acc : PyDict.t string (list string)).

Local Abbreviation graph_step :=
  (fun (g : PyDict.t string (list string)) s => PyDict.set (step_id s) (depends_on s) g).
Local Abbreviation degree_step :=
  (fun (g : PyDict.t string Z) s =>
     PyDict.set (step_id s) (Z.of_nat (length (depends_on s))) g).

Lemma graph_keys_NoDup steps acc :
  NoDup (PyDict.keys acc) → NoDup (PyDict.keys (foldl graph_step acc steps)).
Proof.
  revert acc. induction steps as [|s steps IH]; intros acc Hnd; simpl; [done|].
  apply IH. by apply set_keys_NoDup.
Qed.

Lemma graph_degrees steps acc :
  foldl degree_step (degrees acc) steps = degrees (foldl graph_step acc steps).
Proof.
  revert acc. induction steps as [|s steps IH]; intros acc; simpl; [done|].
  rewrite <- IH. f_equal. unfold degrees. by rewrite set_fmap.
Qed.

Lemma graph_length steps acc :
  length (foldl graph_step acc steps) ≤ length acc + length steps.
Proof.
  revert acc. induction steps as [|s steps IH]; intros acc; simpl; [lia|].
  etrans; [apply IH|]. pose proof (set_length_le acc (step_id s) (depends_on s)). lia.
Qed.

Lemma graph_elem steps acc k deps :
  (k, deps) ∈ foldl graph_step acc steps →
  (k, deps) ∈ acc ∨ ∃ s, s ∈ steps ∧ step_id s = k ∧ depends_on s = deps.
Proof.
  revert acc. induction steps as [|s steps IH]; intros acc; simpl; [by left|].
  intros Hin. destruct (IH _ Hin) as [Hacc|(s' & ? & ? & ?)].
  - apply set_elem in Hacc as [?|[-> ->]]; [by left|].
    right. exists s. split_and!; [left|done..].
  - right. exists s'. split_and!; [by right|done..].
Qed.

Lemma graph_unique_ids steps acc :
  NoDup (PyDict.keys acc ++ (step_id <$> steps)) →
  foldl graph_step acc steps
  = acc ++ ((fun s => (step_id s, depends_on s)) <$> steps).
Proof.
  revert acc. induction steps as [|s steps IH]; intros acc Hnd; simpl.
  - by rewrite app_nil_r.
  - simpl in Hnd. assert (step_id s ∉ PyDict.keys acc) as Hfresh.
    { apply NoDup_app in Hnd as (_ & Hdisj & _). intros Hin.
      apply (Hdisj _ Hin). left. }
    rewrite IH.
    + rewrite set_notin by done. by rewrite <- app_assoc.
    + rewrite keys_set_notin by done. rewrite <- app_assoc. done.
Qed.

Lemma graph_keys_ids steps k :
  k ∈ PyDict.keys (Topo.build_graph steps) → k ∈ step_id <$> steps.
Proof.
  unfold PyDict.keys. intros ([k' deps] & -> & Hin)%list_elem_of_fmap.
  apply graph_elem in Hin as [Hin|(s & Hs & <- & _)]; [by apply elem_of_nil in Hin|].
  apply list_elem_of_fmap. by exists s.
Qed.
End GraphOfSteps.

Lemma build_graph_NoDup steps : NoDup (PyDict.keys (Topo.build_graph steps)).
Proof. apply graph_keys_NoDup. apply NoDup_nil_2. Qed.

Lemma build_in_degree_degrees steps :
  Topo.build_in_degree steps = degrees (Topo.build_graph steps).
Proof. unfold Topo.build_in_degree, Topo.build_graph. by rewrite <- graph_degrees. Qed.

Lemma build_graph_length steps :
  length (PyDict.keys (Topo.build_graph steps)) ≤ length steps.
Proof.
  unfold PyDict.keys. rewrite length_fmap.
  pose proof (graph_length steps []). simpl in *. done.
Qed.

Lemma build_graph_unique steps :
  NoDup (step_id <$> steps) →
  Topo.build_graph steps = (fun s => (step_id s, depends_on s)) <$> steps.
Proof. intros Hnd. unfold Topo.build_graph. by rewrite graph_unique_ids. Qed.

(** When as many keys as steps remain, no id was given twice. *)
Lemma build_graph_full steps :
  length steps ≤ length (PyDict.keys (Topo.build_graph steps)) →
  NoDup (step_id <$> steps).
Proof.
  intros Hlen.
  assert (PyDict.keys (Topo.build_graph steps) ⊆+ step_id <$> steps) as Hsub.
  { apply NoDup_submseteq; [apply build_graph_NoDup|]. apply graph_keys_ids. }
  apply submseteq_length_Permutation in Hsub; [|by rewrite length_fmap].
  rewrite <- Hsub. apply build_graph_NoDup.
Qed.

Lemma gdep_depends steps d s :
  NoDup (step_id <$> steps) → gdep (Topo.build_graph steps) d s ↔ depends steps d s.
Proof.
  intros Hnd. rewrite build_graph_unique by done. unfold gdep, depends. split.
  - intros (deps & Hin & Hd). apply list_elem_of_fmap in Hin as (st & [= -> ->] & Hst).
    by exists st.
  - intros (st & Hst & <- & Hd). exists (depends_on st). split; [|done].
    apply list_elem_of_fmap. by exists st.
Qed.

(** ** [_topological_sort]: termination and the two verdicts *)

Lemma topological_sort_run steps :
  ∃ ind sorted,
    Topo.drain (S (length steps)) (Topo.build_graph steps)
      (Topo.build_in_degree steps)
      (Topo.initial_queue (Topo.build_in_degree steps)) [] = Some (Ok sorted)
    ∧ kahn_inv (Topo.build_graph steps) ind [] sorted.
Proof.
  rewrite build_in_degree_degrees. apply drain_total.
  - apply build_graph_NoDup.
  - pose proof (build_graph_length steps). lia.
Qed.

Lemma topological_sort_verdict steps :
  ∃ ind sorted,
    kahn_inv (Topo.build_graph steps) ind [] sorted ∧
    Topo._topological_sort steps =
      Some (if decide (length sorted ≠ length steps)
            then Raise (ValueError Topo.circular_msg) else Ok sorted).
Proof.
  destruct (topological_sort_run steps) as (ind & sorted & Hrun & Hinv).
  exists ind, sorted. split; [done|].
  unfold Topo._topological_sort. rewrite Hrun. by destruct (decide _).
Qed.

Lemma topological_sort_total steps :
  ∃ r, Topo._topological_sort steps = Some r.
Proof. destruct (topological_sort_verdict steps) as (? & ? & _ & ->). eauto. Qed.

Lemma topological_sort_Ok_NoDup steps order :
  Topo._topological_sort steps = Some (Ok order) →
  NoDup order ∧ ∀ k, k ∈ order → k ∈ step_id <$> steps.
Proof.
  destruct (topological_sort_verdict steps) as (ind & sorted & Hinv & ->).
  destruct (decide _); [done|]. intros [= <-].
  destruct Hinv as [Hk _ Hnd Hz _]. rewrite app_nil_r in *. split; [done|].
  intros k Hin. apply graph_keys_ids. rewrite <- Hk.
  eapply get_Some_keys. by apply Hz.
Qed.

Lemma topological_sort_cyclic steps :
  cyclic steps →
  Topo._topological_sort steps = Some (Raise (ValueError Topo.circular_msg)).
Proof.
  intros [x Hx]. destruct (topological_sort_verdict steps) as (ind & sorted & Hinv & ->).
  rewrite decide_True; [done|]. intros Hlen.
  pose proof (kahn_inv_bound _ _ _ _ Hinv) as Hb. simpl in Hb.
  assert (NoDup (step_id <$> steps)) as Hnd by (apply build_graph_full; lia).
  assert (tc (gdep (Topo.build_graph steps)) x x) as Hx'.
  { eapply tc_congruence with (f := id); [|exact Hx].
    intros ?? ?. by apply gdep_depends. }
  pose proof (kahn_cycle_short _ _ _ _ Hinv Hx').
  pose proof (build_graph_length steps). lia.
Qed.


(** ** Python strings *)

#[local] Arguments String.append !_ _ / : simpl nomatch.

Lemma split_nonempty sep s : PyStr.split sep s ≠ [].
Proof.
  destruct s as [|c r]; simpl; [done|].
  destruct (decide (c = sep)); [done|]. by destruct (PyStr.split sep r).
Qed.

Lemma join_cons_cons sep x y l :
  PyStr.join sep (x :: y :: l) = x +:+ sep +:+ PyStr.join sep (y :: l).
Proof. done. Qed.

(** Joining the parts of a split gives the text back. *)
Lemma join_split sep s :
  PyStr.join (String sep EmptyString) (PyStr.split sep s) = s.
Proof.
  unfold PyStr.join. induction s as [|c r IH]; simpl; [done|].
  pose proof (split_nonempty sep r) as Hne.
  destruct (decide (c = sep)) as [->|Hc];
    destruct (PyStr.split sep r) as [|w ws] eqn:Hs; try done.
  - simpl in *. by rewrite IH.
  - destruct ws; simpl in *; by rewrite IH.
Qed.

Lemma startswith_app p s : PyStr.startswith (p +:+ s) p = true.
Proof.
  unfold PyStr.startswith. induction p as [|c p IH]; simpl.
  - by destruct s.
  - destruct (Ascii.ascii_dec c c); [done | congruence].
Qed.

(** A text whose first two dot-separated parts are [steps] and [sid]. *)
Lemma split_steps_prefix s sid rest :
  PyStr.split "."%char s = "steps" :: sid :: rest →
  ∃ tail, s = "steps." +:+ tail.
Proof.
  intros Hs. pose proof (join_split "."%char s) as Hj. rewrite Hs in Hj.
  rewrite join_cons_cons in Hj. exists (PyStr.join "." (sid :: rest)).
  rewrite <- Hj. done.
Qed.

Lemma split_steps_startswith s sid rest :
  PyStr.split "."%char s = "steps" :: sid :: rest →
  PyStr.startswith s "steps." = true ∧ PyStr.startswith s "input." = false.
Proof.
  intros [tail ->]%split_steps_prefix. split; [by destruct tail | reflexivity].
Qed.

(** ** The template scanner *)

Lemma span_body_app b s :
  char_free "}" b →
  Template.span_body (b +:+ String "}" s) = (b, String "}" s).
Proof.
  unfold char_free. induction b as [|c b IH]; simpl; intros Hfree; [done|].
  apply not_elem_of_cons in Hfree as [Hc Hfree].
  rewrite decide_False by done. by rewrite IH.
Qed.

Lemma match_at_template g s :
  g ≠ EmptyString → char_free "}" g →
  Template.match_at ("{{" +:+ g +:+ "}}" +:+ s) = Some (g, 4 + String.length g).
Proof.
  intros Hne Hfree. simpl. rewrite span_body_app by done. by destruct g.
Qed.

Lemma match_at_head s x :
  Template.match_at s = Some x → ∃ r, s = String "{"%char r.
Proof.
  destruct s as [|c r]; [done|]. intros Hm. exists r. f_equal.
  destruct c as [[] [] [] [] [] [] [] []]; try discriminate Hm. done.
Qed.

Lemma append_assoc (a b c : string) : (a +:+ b) +:+ c = a +:+ b +:+ c.
Proof. induction a; simpl; [done | by f_equal]. Qed.

Lemma length_append (a b : string) :
  String.length (a +:+ b) = String.length a + String.length b.
Proof. induction a; simpl; [done | by f_equal]. Qed.

Section Scanner.
Variable f : string → string → string.

Lemma sub_from_skip u s :
  Template.sub_from f (String.length u) (u +:+ s) = Template.sub_from f 0 s.
Proof. induction u as [|c u IH]; simpl; [done | apply IH]. Qed.

(** Text without an opening brace is copied. *)
Lemma sub_from_plain pre s :
  char_free "{" pre →
  Template.sub_from f 0 (pre +:+ s) = pre +:+ Template.sub_from f 0 s.
Proof.
  unfold char_free. induction pre as [|c pre IH]; intros Hfree; [done|].
  apply not_elem_of_cons in Hfree as [Hc Hfree].
  change (String c pre +:+ s) with (String c (pre +:+ s)).
  cbn [Template.sub_from].
  destruct (Template.match_at (String c (pre +:+ s))) as [[g n]|] eqn:Hm.
  - apply match_at_head in Hm as [r [= -> _]]. done.
  - rewrite IH by done. done.
Qed.

(** One template, whatever follows it. *)
Lemma sub_from_template g s :
  g ≠ EmptyString → char_free "}" g →
  Template.sub_from f 0 ("{{" +:+ g +:+ "}}" +:+ s)
  = f ("{{" +:+ g +:+ "}}") g +:+ Template.sub_from f 0 s.
Proof.
  intros Hne Hfree.
  pose proof (match_at_template g s Hne Hfree) as Hm.
  change ("{{" +:+ g +:+ "}}" +:+ s)
    with (String "{" (String "{" (g +:+ "}}" +:+ s))) in *.
  cbn [Template.sub_from]. rewrite Hm. f_equal.
  change (Nat.pred (4 + String.length g)) with (S (S (S (String.length g)))).
  cbn [Template.sub_from].
  rewrite <- append_assoc.
  replace (S (S (String.length g))) with (String.length (g +:+ "}}")).
  - apply sub_from_skip.
  - rewrite length_append. simpl. lia.
Qed.
End Scanner.

(** ** Reference resolution *)

Section References.
Context `{PyText}.
Variable step_results : PyDict.t string WorkflowStepResult.
Variable workflow_input : list (string * pyval).

Local Abbreviation replacer := (Template.replacer step_results workflow_input).


(** What the [steps.] branch computes for a reference whose dot-separated
    parts are [steps], an id, one more part, and a path. *)
Lemma replacer_steps g0 g1 sid seg path :
  PyStr.split "."%char (PyStr.strip g1) = "steps" :: sid :: seg :: path →
  replacer g0 g1 =
    match PyDict.get sid step_results with
    | Some r =>
        match sr_output r with
        | Some out =>
            if PyVal.truthy (PDict out) then
              let v := Template.navigate (PDict out) path in
              if PyVal.truthy v then PyVal.str v else EmptyString
            else EmptyString
        | None => EmptyString
        end
    | None => EmptyString
    end.
Proof.
  intros Hs. unfold Template.replacer.
  destruct (split_steps_startswith _ _ _ Hs) as [-> ->]. rewrite Hs. done.
Qed.






End References.

(** *** Reference resolution on a concrete result map *)

Lemma char_free_decide c s :
  bool_decide (c ∉ String.list_ascii_of_string s) = true → char_free c s.
Proof. apply bool_decide_eq_true_1. Qed.




(** The values Python takes as false, and some it takes as true. *)
Example falsy_values :
  map PyVal.truthy
    [PNone; PBool false; PInt 0; PFloat (S754_zero false); PStr EmptyString;
     PList []; PDict []; PInt 7; PStr "0"; PList [PNone]; PBool true]
  = [false; false; false; false; false; false; false; true; true; true; true].
Proof. reflexivity. Qed.

(** ** Routing *)

Lemma Qgt_bool_true x y : Qgt_bool x y = true ↔ (y < x)%Q.
Proof.
  unfold Qgt_bool. destruct (Qlt_le_dec y x) as [Hlt|Hle]; [done|].
  split; [done|]. intros Hlt. by apply Qle_not_lt in Hle.
Qed.

Lemma Qgt_bool_false x y : Qgt_bool x y = false ↔ (x <= y)%Q.
Proof.
  unfold Qgt_bool. destruct (Qlt_le_dec y x) as [Hlt|Hle]; [|done].
  split; [done|]. intros Hle. by apply Qle_not_lt in Hle.
Qed.

Section Routing.
Context `{Runtime}.
Variables (request : string) (context : AgentContext) (exclude : list AgentType).

Local Abbreviation candidate := (candidate (H := H)).

Lemma candidate_app_l pre x i a c :
  i < length pre →
  candidate (pre ++ [x]) request context exclude i a c →
  candidate pre request context exclude i a c.
Proof.
  intros Hi (ty & Hl & ? & ?). exists ty. by rewrite lookup_app_l in Hl.
Qed.

Lemma candidate_app_r pre x i a c :
  candidate pre request context exclude i a c →
  candidate (pre ++ [x]) request context exclude i a c.
Proof.
  intros (ty & Hl & ? & ?). exists ty. split_and!; [|done..].
  apply lookup_app_l_Some. done.
Qed.

Lemma candidate_bound agents i a c :
  candidate agents request context exclude i a c → i < length agents.
Proof. intros (ty & Hl & _). by eapply lookup_lt_Some. Qed.

(** A provider that is excluded or declines leaves the verdict as it is. *)
Lemma routed_skip pre ty agent best conf :
  (ty ∈ exclude ∨ (can_handle agent request context).1 = false) →
  routed pre request context exclude best conf →
  routed (pre ++ [(ty, agent)]) request context exclude best conf.
Proof.
  intros Hskip Hr.
  assert (∀ j a c, candidate (pre ++ [(ty, agent)]) request context exclude j a c →
                   candidate pre request context exclude j a c) as Hold.
  { intros j a c Hc. pose proof (candidate_bound _ _ _ _ Hc) as Hj.
    rewrite length_app in Hj. simpl in Hj.
    destruct (decide (j < length pre)) as [|Hge]; [by eapply candidate_app_l|].
    exfalso. destruct Hc as (ty' & Hl & Hex & Hcan).
    rewrite lookup_app_r in Hl by lia.
    replace (j - length pre) with 0 in Hl by lia. injection Hl as <- <-.
    destruct Hskip as [?|Hno]; [done|]. by rewrite Hcan in Hno. }
  destruct best as [b|]; simpl in *.
  - destruct Hr as (i & Hi & Hpos & Hmax). exists i.
    split_and!; [by apply candidate_app_r|done|]. intros j a c Hc. eauto.
  - destruct Hr as [-> Hmax]. split; [done|]. eauto.
Qed.

(** A provider that accepts with a confidence not above the running
    maximum leaves the verdict as it is. *)
Lemma routed_keep pre ty agent c best conf :
  can_handle agent request context = (true, c) → (c <= conf)%Q →
  routed pre request context exclude best conf →
  routed (pre ++ [(ty, agent)]) request context exclude best conf.
Proof.
  intros Hcan Hle Hr.
  assert (∀ j a c', candidate (pre ++ [(ty, agent)]) request context exclude j a c' →
            candidate pre request context exclude j a c' ∨ (j = length pre ∧ c' = c))
    as Hold.
  { intros j a c' Hc. pose proof (candidate_bound _ _ _ _ Hc) as Hj.
    rewrite length_app in Hj. simpl in Hj.
    destruct (decide (j < length pre)) as [|Hge]; [left; by eapply candidate_app_l|].
    right. split; [lia|]. destruct Hc as (ty' & Hl & Hex & Hcan').
    rewrite lookup_app_r in Hl by lia.
    replace (j - length pre) with 0 in Hl by lia. injection Hl as <- <-.
    congruence. }
  destruct best as [b|]; simpl in *.
  - destruct Hr as (i & Hi & Hpos & Hmax). exists i.
    split_and!; [by apply candidate_app_r|done|]. intros j a c' Hc.
    destruct (Hold _ _ _ Hc) as [Hc'|[-> ->]]; [eauto|].
    split; [done|]. intros Hlt. apply candidate_bound in Hi. lia.
  - destruct Hr as [-> Hmax]. split; [done|]. intros j a c' Hc.
    destruct (Hold _ _ _ Hc) as [Hc'|[-> ->]]; eauto.
Qed.

(** A provider that accepts with a confidence above the running maximum
    becomes the verdict. *)
Lemma routed_replace pre ty agent c best conf :
  ty ∉ exclude → can_handle agent request context = (true, c) → (conf < c)%Q →
  routed pre request context exclude best conf →
  routed (pre ++ [(ty, agent)]) request context exclude (Some agent) c.
Proof.
  intros Hex Hcan Hlt Hr. simpl. exists (length pre).
  assert (∀ j a c', candidate pre request context exclude j a c' → (c' < c)%Q)
    as Hsmall.
  { intros j a c' Hc. destruct best as [b|]; simpl in Hr.
    - destruct Hr as (i & _ & _ & Hmax). destruct (Hmax _ _ _ Hc) as [Hle _].
      by eapply Qle_lt_trans.
    - destruct Hr as [-> Hmax]. eapply Qle_lt_trans; [by eapply Hmax | done]. }
  split_and!.
  - exists ty. split_and!; [|done..].
    rewrite lookup_app_r by lia. by rewrite Nat.sub_diag.
  - destruct best as [b|]; simpl in Hr.
    + destruct Hr as (i & _ & Hpos & _). by eapply Qlt_trans.
    + by destruct Hr as [-> _].
  - intros j a c' Hc. pose proof (candidate_bound _ _ _ _ Hc) as Hj.
    rewrite length_app in Hj. simpl in Hj.
    destruct (decide (j < length pre)) as [Hjl|Hge].
    + apply candidate_app_l in Hc; [|done]. apply Hsmall in Hc.
      split; [by apply Qlt_le_weak | done].
    + destruct Hc as (ty' & Hl & _ & Hcan').
      rewrite lookup_app_r in Hl by lia.
      replace (j - length pre) with 0 in Hl by lia. injection Hl as <- <-.
      rewrite Hcan in Hcan'. injection Hcan' as <-.
      split; [apply Qle_refl | lia].
Qed.

Lemma route_loop_routed rest : ∀ pre best conf,
  routed pre request context exclude best conf →
  routed (pre ++ rest) request context exclude
    (Registry.route_loop rest request context exclude best conf).1
    (Registry.route_loop rest request context exclude best conf).2.
Proof.
  induction rest as [|[ty agent] rest IH]; intros pre best conf Hr.
  - by rewrite app_nil_r.
  - rewrite (assoc_L _ pre [(ty, agent)] rest
      : pre ++ (ty, agent) :: rest = (pre ++ [(ty, agent)]) ++ rest).
    simpl. destruct (bool_decide (ty ∈ exclude)) eqn:Hex.
    + apply bool_decide_eq_true in Hex. apply IH, routed_skip; auto.
    + apply bool_decide_eq_false in Hex.
      destruct (can_handle agent request context) as [can c] eqn:Hcan.
      destruct can; simpl.
      * destruct (Qgt_bool c conf) eqn:Hgt.
        -- apply Qgt_bool_true in Hgt. apply IH. by eapply routed_replace.
        -- apply Qgt_bool_false in Hgt. apply IH. by eapply routed_keep.
      * apply IH, routed_skip; [|done]. right. by rewrite Hcan.
Qed.

End Routing.

(** C7: whatever the request, the context, the excluded types and the
    registry, [route_request] returns the first-registered provider among
    those with the greatest confidence: the returned provider is not
    excluded, accepts the request with the returned confidence, which is
    above zero; no candidate has a greater confidence, and every candidate
    registered before it has a strictly smaller one.  When no candidate has
    a confidence above zero, the initial running maximum, the answer is
    (none, 0). *)
Theorem route_request_first_greatest `{Runtime} (agents : Registry.t)
    (request : string) (context : AgentContext)
    (excluded : option (list AgentType)) :
  let '(best, conf) := Registry.route_request agents request context excluded in
  let exclude := default [] excluded in
  match best with
  | None =>
      conf = 0%Q ∧
      ∀ i a c, candidate agents request context exclude i a c → (c <= 0)%Q
  | Some agent =>
      ∃ i, candidate agents request context exclude i agent conf ∧
           (0 < conf)%Q ∧
           ∀ j a c, candidate agents request context exclude j a c →
             (c <= conf)%Q ∧ (j < i → (c < conf)%Q)
  end.
Proof.
  unfold Registry.route_request.
  pose proof (route_loop_routed request context (default [] excluded) agents [] None 0%Q)
    as Hr.
  destruct (Registry.route_loop agents request context (default [] excluded) None 0)
    as [best conf].
  simpl in Hr. apply Hr. split; [done|].
  intros i a c (ty & Hl & _). by rewrite lookup_nil in Hl.
Qed.

(** Two providers with the same confidence: the one registered first wins. *)
Example route_tie_first_registered :
  @Registry.route_request Example.runtime Example.agents "hello" Example.context None
  = (Some Example.flaky, (1 # 2)%Q).
Proof. reflexivity. Qed.

(** ** Conditions and skipped steps *)

Lemma evaluate_condition_steps condition execution input e sid rest :
  cond_type condition ≠ CondAlways →
  cond_expression condition = Some e →
  PyStr.split "."%char e = "steps" :: sid :: rest →
  Orchestrator._evaluate_condition condition execution input =
    match PyDict.get sid (ex_step_results execution) with
    | Some r =>
        if decide (cond_type condition = CondIf)
        then bool_decide (sr_status r = StepCompleted)
        else bool_decide (sr_status r ≠ StepCompleted)
    | None => true
    end.
Proof.
  intros Hty He Hs. unfold Orchestrator._evaluate_condition.
  rewrite decide_False by done. rewrite He.
  destruct (split_steps_startswith _ _ _ Hs) as [Hst _].
  destruct e as [|c e]; [done|]. rewrite Hst, Hs. done.
Qed.

Lemma dependencies_satisfied_loop_true deps results :
  (∀ d, d ∈ deps →
     ∃ r, PyDict.get d results = Some r ∧
          (sr_status r = StepCompleted ∨ sr_status r = StepSkipped)) →
  Orchestrator._dependencies_satisfied_loop deps results = true.
Proof.
  induction deps as [|d deps IH]; intros Hall; simpl; [done|].
  destruct (Hall d ltac:(left)) as (r & -> & Hst).
  rewrite bool_decide_eq_true_2.
  2:{ rewrite !elem_of_cons. tauto. }
  apply IH. intros d' Hd'. apply Hall. by right.
Qed.

(** C8 (amended): for a condition of type [if] or [unless] whose expression
    has [steps] and an id as its first two dot-separated parts, when the
    step of that id has a recorded result the step proceeds exactly when
    the recorded status is completed ([if]) or is not completed
    ([unless]); when that step has no recorded result the step proceeds,
    for [if] as for [unless].  A condition of type [always], or without an
    expression, or whose expression does not start with [steps.], proceeds.
    A step whose dependencies are satisfied and whose condition evaluates
    to false is recorded as skipped, without any provider call, and the
    loop goes on with the next step; a skipped dependency counts as
    satisfied. *)
Theorem condition_check `{PyText} `{Runtime} :
  (∀ condition execution input e sid rest r,
     cond_expression condition = Some e →
     PyStr.split "."%char e = "steps" :: sid :: rest →
     PyDict.get sid (ex_step_results execution) = Some r →
     (cond_type condition = CondIf →
        Orchestrator._evaluate_condition condition execution input = true
        ↔ sr_status r = StepCompleted) ∧
     (cond_type condition = CondUnless →
        Orchestrator._evaluate_condition condition execution input = true
        ↔ sr_status r ≠ StepCompleted)) ∧
  (∀ condition execution input e sid rest,
     cond_expression condition = Some e →
     PyStr.split "."%char e = "steps" :: sid :: rest →
     PyDict.get sid (ex_step_results execution) = None →
     Orchestrator._evaluate_condition condition execution input = true) ∧
  (∀ condition execution input,
     cond_type condition = CondAlways ∨ cond_expression condition = None ∨
     (∃ e, cond_expression condition = Some e ∧
           PyStr.startswith e "steps." = false) →
     Orchestrator._evaluate_condition condition execution input = true) ∧
  (∀ agents request context sid later step condition execution st,
     List.find (fun s => bool_decide (step_id s = sid))
       (wf_steps (or_workflow request)) = Some step →
     Orchestrator._dependencies_satisfied step
       (Orchestrator.set_current_step sid execution) = true →
     step_condition step = Some condition →
     Orchestrator._evaluate_condition condition
       (Orchestrator.set_current_step sid execution) (or_input request) = false →
     let skipped :=
       Orchestrator.record_result sid (Orchestrator.skipped_result step)
         (Orchestrator.set_current_step sid execution) in
     sr_status (Orchestrator.skipped_result step) = StepSkipped ∧
     Orchestrator.run_steps agents request context (sid :: later) execution st
     = Orchestrator.run_steps agents request context later skipped
         (Orchestrator.publish skipped st)) ∧
  (∀ step execution,
     (∀ d, d ∈ depends_on step →
        ∃ r, PyDict.get d (ex_step_results execution) = Some r ∧
             (sr_status r = StepCompleted ∨ sr_status r = StepSkipped)) →
     Orchestrator._dependencies_satisfied step execution = true).
Proof.
  split_and!.
  - intros condition execution input e sid rest r He Hs Hr. split; intros Hty.
    + rewrite (evaluate_condition_steps _ _ _ _ _ _ ltac:(by rewrite Hty) He Hs).
      rewrite Hr, decide_True by done. apply bool_decide_eq_true.
    + rewrite (evaluate_condition_steps _ _ _ _ _ _ ltac:(by rewrite Hty) He Hs).
      rewrite Hr, decide_False by (by rewrite Hty). apply bool_decide_eq_true.
  - intros condition execution input e sid rest He Hs Hr.
    destruct (decide (cond_type condition = CondAlways)) as [Hty|Hty].
    + unfold Orchestrator._evaluate_condition. by rewrite decide_True.
    + by rewrite (evaluate_condition_steps _ _ _ _ _ _ Hty He Hs), Hr.
  - intros condition execution input Hform.
    unfold Orchestrator._evaluate_condition.
    destruct (decide _); [done|].
    destruct Hform as [?|[->|(e & -> & Hst)]]; [done..|].
    destruct e; [done|]. by rewrite Hst.
  - intros agents request context sid later step condition execution st
      Hfind Hdeps Hcond Heval skipped. split; [done|].
    cbn [Orchestrator.run_steps]. unfold Orchestrator.run_step.
    rewrite Hfind, Hdeps. simpl.
    unfold Orchestrator.condition_fails. rewrite Hcond, Heval. done.
  - intros step execution Hall. by apply dependencies_satisfied_loop_true.
Qed.

(** C8, as stated, fails for [if]: the step proceeds although the step the
    expression names has no recorded result at all, hence none whose status
    is completed. *)
Lemma if_condition_on_unrecorded_step :
  let condition :=
    {| cond_type := CondIf; cond_expression := Some "steps.ghost";
       cond_value := None |} in
  Orchestrator._evaluate_condition condition Example.execution0 [] = true
  ∧ ¬ ∃ r, PyDict.get "ghost" (ex_step_results Example.execution0) = Some r
           ∧ sr_status r = StepCompleted.
Proof. split; [reflexivity|]. by intros (r & ? & ?). Qed.

(** ** The retry loop of a step *)

Section Attempts.
Context `{PyText} `{Runtime}.
Variables (agent : BaseAgent) (prompt : string) (context : AgentContext)
  (bound : Z).

Local Abbreviation attempts fuel retries last st :=
  (Orchestrator.attempts fuel agent prompt context bound retries last st).
Local Abbreviation executions n w :=
  (executions agent prompt context (Some bound) n w).
Local Abbreviation after st w n := (after_calls st w n agent prompt).

Lemma after_calls_zero st : after st (Orchestrator.world st) 0 = st.
Proof. destruct st. unfold after_calls. simpl. by rewrite app_nil_r. Qed.

Lemma after_calls_succ st w1 w n :
  after (after st w1 1) w n = after st w (S n).
Proof. unfold after_calls. simpl. by rewrite <- app_assoc. Qed.

Lemma call_execute_after st :
  Orchestrator.call_execute agent prompt context (Some bound) st
  = ((execute agent prompt context (Some bound) (Orchestrator.world st)).1,
     after st (execute agent prompt context (Some bound) (Orchestrator.world st)).2 1).
Proof.
  unfold Orchestrator.call_execute.
  by destruct (execute agent prompt context (Some bound) (Orchestrator.world st)).
Qed.

Lemma str_or_attempt_error result :
  res_status result ≠ COMPLETED →
  attempt_error (Ok result)
  = Some (Orchestrator.str_or (res_error result) "Agent execution failed").
Proof.
  intros Hst. unfold attempt_error. rewrite decide_False by done.
  by destruct (res_error result) as [[|??]|].
Qed.

(** The loop ends, and it makes at most as many calls as attempts remain. *)
Lemma attempts_bound n : ∀ fuel last st,
  n ≤ fuel →
  ∃ exit w m,
    attempts fuel (Z.of_nat n - 1)%Z last st = Some (exit, after st w m) ∧ m ≤ n.
Proof.
  induction n as [|n IH]; intros fuel last st Hfuel.
  - exists (Orchestrator.AttemptsExhausted last), (Orchestrator.world st), 0.
    split; [|done]. rewrite after_calls_zero.
    by destruct fuel.
  - destruct fuel as [|fuel]; [lia|]. cbn [Orchestrator.attempts].
    rewrite decide_True by lia. rewrite call_execute_after.
    replace (Z.of_nat (S n) - 1 - 1)%Z with (Z.of_nat n - 1)%Z by lia.
    destruct (execute agent prompt context (Some bound) (Orchestrator.world st))
      as [r w1]. simpl.
    destruct r as [result|e].
    + destruct (decide (res_status result = COMPLETED)).
      * exists (Orchestrator.AttemptCompleted result), w1, 1. split; [done|lia].
      * destruct (IH fuel (Some (Orchestrator.str_or (res_error result)
                                   "Agent execution failed"))
                    (after st w1 1) ltac:(lia)) as (exit & w & m & -> & Hm).
        exists exit, w, (S m). rewrite after_calls_succ. split; [done|lia].
    + destruct e;
        try (eexists _, w1, 1; split; [reflexivity|lia]).
      destruct (IH fuel (Some "Step timed out") (after st w1 1) ltac:(lia))
        as (exit & w & m & -> & Hm).
      exists exit, w, (S m). rewrite after_calls_succ. split; [done|lia].
Qed.

(** The first completed attempt ends the loop. *)
Lemma attempts_completed k : ∀ n fuel last st rs wk result w',
  k < n → n ≤ fuel →
  executions k (Orchestrator.world st) = (rs, wk) →
  all_retried rs →
  execute agent prompt context (Some bound) wk = (Ok result, w') →
  res_status result = COMPLETED →
  attempts fuel (Z.of_nat n - 1)%Z last st
  = Some (Orchestrator.AttemptCompleted result, after st w' (S k)).
Proof.
  induction k as [|k IH]; intros n fuel last st rs wk result w' Hk Hfuel Hex Hall Hrun Hst.
  - simpl in Hex. injection Hex as <- <-.
    destruct fuel as [|fuel]; [lia|]. cbn [Orchestrator.attempts].
    rewrite decide_True by lia. rewrite call_execute_after, Hrun. simpl.
    by rewrite decide_True.
  - destruct n as [|n]; [lia|]. destruct fuel as [|fuel]; [lia|].
    cbn [Orchestrator.attempts]. rewrite decide_True by lia.
    rewrite call_execute_after.
    replace (Z.of_nat (S n) - 1 - 1)%Z with (Z.of_nat n - 1)%Z by lia.
    simpl in Hex.
    destruct (execute agent prompt context (Some bound) (Orchestrator.world st))
      as [r w1].
    destruct (executions k w1) as [rs' w2] eqn:Hrest.
    injection Hex as <- <-.
    apply Forall_cons in Hall as [[err Herr] Hall]. simpl.
    destruct r as [r|e].
    + unfold attempt_error in Herr. destruct (decide (res_status r = COMPLETED)); [done|].
      erewrite IH; eauto; [|lia..]. by rewrite after_calls_succ.
    + destruct e; try done.
      erewrite IH; eauto; [|lia..]. by rewrite after_calls_succ.
Qed.

(** When every attempt is retried, the loop ends with the error of the
    last one. *)
Lemma attempts_exhausted n : ∀ fuel prior st rs w',
  n ≤ fuel →
  executions n (Orchestrator.world st) = (rs, w') →
  all_retried rs →
  attempts fuel (Z.of_nat n - 1)%Z prior st
  = Some (Orchestrator.AttemptsExhausted
            (match last rs with
             | Some r => attempt_error r
             | None => prior
             end),
          after st w' n).
Proof.
  induction n as [|n IH]; intros fuel prior st rs w' Hfuel Hex Hall.
  - simpl in Hex. injection Hex as <- <-. rewrite after_calls_zero. by destruct fuel.
  - destruct fuel as [|fuel]; [lia|]. cbn [Orchestrator.attempts].
    rewrite decide_True by lia. rewrite call_execute_after.
    replace (Z.of_nat (S n) - 1 - 1)%Z with (Z.of_nat n - 1)%Z by lia.
    simpl in Hex.
    destruct (execute agent prompt context (Some bound) (Orchestrator.world st))
      as [r w1].
    destruct (executions n w1) as [rs' w2] eqn:Hrest.
    injection Hex as <- <-.
    apply Forall_cons in Hall as [[err Herr] Hall]. simpl.
    assert (match last (r :: rs') with
            | Some r0 => attempt_error r0
            | None => prior
            end
            = match last rs' with
              | Some r0 => attempt_error r0
              | None => Some err
              end) as Hlast.
    { destruct rs' as [|r' rs']; [exact Herr|]. rewrite last_cons_cons.
      destruct (last (r' :: rs')) eqn:Hl; [done|]. by apply last_None in Hl. }
    rewrite Hlast.
    destruct r as [r|e].
    + pose proof Herr as Herr'. unfold attempt_error in Herr'.
      destruct (decide (res_status r = COMPLETED)); [done|].
      rewrite str_or_attempt_error in Herr by done. injection Herr as <-.
      erewrite IH; eauto; [|lia]. by rewrite after_calls_succ.
    + destruct e; try done. injection Herr as <-.
      erewrite IH; eauto; [|lia]. by rewrite after_calls_succ.
Qed.

(** Whatever the retry count, the loop ends. *)
Lemma attempts_total retries last st :
  ∃ exit w m,
    attempts (Z.to_nat (retries + 1)) retries last st = Some (exit, after st w m)
    ∧ (0 ≤ retries → Z.of_nat m ≤ retries + 1)%Z.
Proof.
  destruct (decide (0 ≤ retries)%Z) as [Hr|Hr].
  - destruct (attempts_bound (Z.to_nat (retries + 1)) (Z.to_nat (retries + 1))
                last st ltac:(done)) as (exit & w & m & Hrun & Hm).
    replace (Z.of_nat (Z.to_nat (retries + 1)) - 1)%Z with retries in Hrun by lia.
    exists exit, w, m. split; [done|]. lia.
  - exists (Orchestrator.AttemptsExhausted last), (Orchestrator.world st), 0.
    rewrite after_calls_zero. split; [|done].
    destruct (Z.to_nat (retries + 1)); simpl; by rewrite decide_False.
Qed.
End Attempts.

(** ** [_execute_workflow_step] *)

Section StepExecution.
Context `{PyText} `{Runtime}.
Variables (agents : Registry.t) (execution : WorkflowExecution)
  (context : AgentContext) (workflow_input : list (string * pyval)).

Local Abbreviation run step st :=
  (Orchestrator._execute_workflow_step agents step execution context
     workflow_input st).
Local Abbreviation prompt_of step :=
  (Orchestrator.step_prompt step
     (Template._resolve_references (ex_step_results execution) workflow_input
        (step_input step))).
Local Abbreviation bound_of step :=
  (Orchestrator.timeout_or_default (step_timeout step)).

(** A step always ends: with a result that is completed or failed, that has
    an output only when completed, and after provider calls that leave the
    map of active workflows alone. *)
Lemma execute_workflow_step_total step st :
  ∃ res st',
    run step st = Some (res, st') ∧
    Orchestrator.active_workflows st' = Orchestrator.active_workflows st ∧
    (sr_status res = StepCompleted ∨ sr_status res = StepFailed) ∧
    (sr_status res ≠ StepCompleted → sr_output res = None).
Proof.
  unfold Orchestrator._execute_workflow_step.
  destruct (Registry.get (step_agent step) agents) as [agent|].
  - destruct (attempts_total agent (prompt_of step) context (bound_of step)
                (step_retries step) None st) as (exit & w & m & -> & _).
    eexists _, _. split; [reflexivity|].
    split; [done|]. destruct exit; simpl; split; auto; done.
  - eexists _, _. split; [reflexivity|]. simpl. split; [done|]. split; auto.
Qed.

(** C2: a step of retry count [r] (a count, so not negative) makes at most
    [r + 1] provider calls.  For a registered provider: when the attempts
    before attempt [k + 1] (with [k] at most [r]) all timed out or returned
    a result that is not completed and attempt [k + 1] returns a completed
    result, the loop stops there: [k + 1] calls are made and the step result
    is completed with the output of that attempt.  When all of the [r + 1]
    attempts timed out or returned a result that is not completed, the step
    result is failed, has no output, and carries the error of the last
    attempt. *)
Theorem step_retry step st :
  (0 ≤ step_retries step)%Z →
  (∃ res st' new,
     run step st = Some (res, st') ∧
     Orchestrator.calls st' = Orchestrator.calls st ++ new ∧
     (Z.of_nat (length new) ≤ step_retries step + 1)%Z) ∧
  ∀ agent,
    Registry.get (step_agent step) agents = Some agent →
    let prompt := prompt_of step in
    let bound := Some (bound_of step) in
    let allowed := Z.to_nat (step_retries step + 1) in
    (∀ k rs wk result w',
       k < allowed →
       executions agent prompt context bound k (Orchestrator.world st) = (rs, wk) →
       all_retried rs →
       execute agent prompt context bound wk = (Ok result, w') →
       res_status result = COMPLETED →
       ∃ res,
         run step st = Some (res, after_calls st w' (S k) agent prompt) ∧
         sr_status res = StepCompleted ∧
         sr_output res = Some (res_output result)) ∧
    (∀ rs w',
       executions agent prompt context bound allowed (Orchestrator.world st)
       = (rs, w') →
       all_retried rs →
       ∃ res e,
         run step st = Some (res, after_calls st w' allowed agent prompt) ∧
         sr_status res = StepFailed ∧ sr_output res = None ∧
         last rs ≫= attempt_error = Some e ∧ sr_error res = Some e).
Proof.
  intros Hr. split.
  { unfold Orchestrator._execute_workflow_step.
    destruct (Registry.get (step_agent step) agents) as [agent|].
    - destruct (attempts_total agent (prompt_of step) context (bound_of step)
                  (step_retries step) None st) as (exit & w & m & -> & Hm).
      eexists _, _, _. split; [reflexivity|]. split; [reflexivity|].
      rewrite length_replicate. auto.
    - eexists _, _, []. split; [reflexivity|]. rewrite app_nil_r.
      split; [done | simpl; lia]. }
  intros agent Hagent prompt bound allowed. subst prompt bound.
  assert (step_retries step = Z.of_nat allowed - 1)%Z as Hretries
    by (subst allowed; lia).
  split.
  - intros k rs wk result w' Hk Hex Hall Hrun Hst.
    unfold Orchestrator._execute_workflow_step. rewrite Hagent.
    fold allowed. rewrite Hretries.
    erewrite attempts_completed; eauto.
  - intros rs w' Hex Hall.
    unfold Orchestrator._execute_workflow_step. rewrite Hagent.
    fold allowed. rewrite Hretries.
    erewrite attempts_exhausted; eauto.
    assert (∃ r, last rs = Some r) as [r Hlast].
    { apply last_is_Some. intros ->.
      assert (allowed ≠ 0) as Hne by (subst allowed; lia).
      destruct allowed as [|n]; [done|]. simpl in Hex.
      destruct (execute agent (prompt_of step) context (Some (bound_of step))
                  (Orchestrator.world st)) as [r0 w0].
      by destruct (executions agent (prompt_of step) context
                     (Some (bound_of step)) n w0). }
    rewrite Hlast. simpl.
    assert (is_Some (attempt_error r)) as [e He].
    { unfold all_retried in Hall. rewrite Forall_forall in Hall.
      apply Hall. by apply last_Some_elem_of. }
    rewrite He. eexists _, e. split; [reflexivity|]. done.
Qed.
End StepExecution.

(** The example of the specification: two retries, a provider that fails
    the first two attempts and completes the third. *)
Lemma step_retry_witness :
  ∃ res,
    @Orchestrator._execute_workflow_step Example.text Example.runtime
Example.agents (Example.step "s" TASK [] 2 OnFail None None)
Example.execution0 Example.context [] Example.state0
= Some (res,
      @after_calls Example.runtime Example.state0 3%nat 3 Example.flaky
        "Execute action 'run' with parameters: {'q': ''}")
∧ sr_status res = StepCompleted
∧ sr_output res = Some [("x", PStr "42")].
Proof.
  refine (proj1 (proj2 (@step_retry Example.text Example.runtime Example.agents
Example.execution0 Example.context []
(Example.step "s" TASK [] 2 OnFail None None) Example.state0 _)
Example.flaky _) 2
[Ok (Example.result TASK FAILED [] (Some "not yet"));
 Ok (Example.result TASK FAILED [] (Some "not yet"))]
2%nat (Example.result TASK COMPLETED [("x", PStr "42")] None) 3%nat
_ _ _ _ _).
- simpl. lia.
- reflexivity.
- simpl. lia.
- reflexivity.
- repeat constructor; by eexists.
- reflexivity.
- reflexivity.
Defined.

(** ** The step loop of [orchestrate] *)

Section StepLoop.
Context `{PyText} `{Runtime}.
Variables (agents : Registry.t) (request : OrchestrateRequest)
  (context : AgentContext).

Local Abbreviation run_step := (Orchestrator.run_step agents request context).
Local Abbreviation run_steps := (Orchestrator.run_steps agents request context).

Lemma results_shape_set results sid r :
  results_shape results →
  (sr_status r ≠ StepCompleted → sr_output r = None) →
  results_shape (PyDict.set sid r results).
Proof.
  intros Hshape Hr k r' Hget. destruct (decide (sid = k)) as [->|Hne].
  - rewrite get_set_eq in Hget. by injection Hget as <-.
  - rewrite get_set_ne in Hget by done. by eapply Hshape.
Qed.

(** One turn of the loop ends; it keeps the id of the execution and the
    map of active workflows, writes no entry but the one of its own step,
    and records outputs for completed results only. *)
Lemma run_step_total sid execution st :
  ∃ raised execution' st',
    run_step sid execution st = Some (raised, execution', st') ∧
    ex_id execution' = ex_id execution ∧
    Orchestrator.active_workflows st' = Orchestrator.active_workflows st ∧
    (∀ k, k ≠ sid →
       PyDict.get k (ex_step_results execution')
       = PyDict.get k (ex_step_results execution)) ∧
    (results_shape (ex_step_results execution) →
     results_shape (ex_step_results execution')).
Proof.
  unfold Orchestrator.run_step.
  destruct (List.find _ _) as [step|]; [|by eexists _, _, _].
  destruct (negb _).
  { destruct (decide _); by eexists _, _, _. }
  destruct (Orchestrator.condition_fails _ _ _).
  { eexists _, _, _. split; [reflexivity|]. simpl. split_and!; [done..| |].
    - intros k Hk. by rewrite get_set_ne.
    - intros Hs. by apply results_shape_set. }
  destruct (execute_workflow_step_total agents
              (Orchestrator.set_current_step sid execution) context
              (or_input request) step st)
    as (res & st1 & -> & Hact & _ & Hres).
  assert (∀ k, k ≠ sid →
            PyDict.get k (PyDict.set sid res (ex_step_results execution))
            = PyDict.get k (ex_step_results execution)) as Hone
    by (intros k Hk; by rewrite get_set_ne).
  destruct (decide (sr_status res = StepFailed)).
  2:{ eexists _, _, _. split; [reflexivity|]. simpl. split_and!; [done..|].
      intros Hs. by apply results_shape_set. }
  destruct (on_error step), (fallback_agent step) as [fb|];
    try (eexists _, _, _; split; [reflexivity|]; simpl; split_and!; [done..|];
         intros Hs; by apply results_shape_set).
  destruct (execute_workflow_step_total agents
              (Orchestrator.record_result sid res
                 (Orchestrator.set_current_step sid execution))
              context (or_input request)
              (Orchestrator.fallback_step step fb) st1)
    as (res2 & st2 & -> & Hact2 & _ & Hres2).
  eexists _, _, _. split; [reflexivity|]. simpl. split_and!; [done|congruence| |].
  - intros k Hk. by rewrite !get_set_ne.
  - intros Hs. apply results_shape_set; [|done]. by apply results_shape_set.
Qed.

Lemma run_steps_total order : ∀ execution st,
  ∃ raised execution' st',
    run_steps order execution st = Some (raised, execution', st') ∧
    ex_id execution' = ex_id execution ∧
    (∀ k, k ≠ ex_id execution →
       Orchestrator.active_workflows st' !! k
       = Orchestrator.active_workflows st !! k) ∧
    (∀ k, k ∉ order →
       PyDict.get k (ex_step_results execution')
       = PyDict.get k (ex_step_results execution)) ∧
    (results_shape (ex_step_results execution) →
     results_shape (ex_step_results execution')).
Proof.
  induction order as [|sid order IH]; intros execution st; simpl.
  - by eexists _, _, _.
  - destruct (run_step_total sid execution st)
      as (raised & e1 & st1 & -> & Hid & Hact & Hone & Hshape).
    assert (∀ k, k ≠ ex_id execution →
              Orchestrator.active_workflows (Orchestrator.publish e1 st1) !! k
              = Orchestrator.active_workflows st !! k) as Hpub.
    { intros k Hk. simpl. rewrite lookup_insert_ne by congruence. by rewrite Hact. }
    destruct raised as [e|].
    + eexists _, _, _. split; [reflexivity|]. split_and!; [done..| |done].
      intros k Hk. apply Hone. intros ->. apply Hk. left.
    + destruct (IH e1 (Orchestrator.publish e1 st1))
        as (raised & e2 & st2 & -> & Hid2 & Hact2 & Hkeep & Hshape2).
      eexists _, _, _. split; [reflexivity|]. split_and!.
      * congruence.
      * intros k Hk. rewrite Hact2 by congruence. by apply Hpub.
      * intros k Hk. apply not_elem_of_cons in Hk as [Hne Hk].
        rewrite Hkeep by done. by apply Hone.
      * auto.
Qed.

Lemma run_steps_app pre : ∀ rest execution st,
  run_steps (pre ++ rest) execution st =
    match run_steps pre execution st with
    | Some (None, execution1, st1) => run_steps rest execution1 st1
    | other => other
    end.
Proof.
  induction pre as [|sid pre IH]; intros rest execution st; simpl; [done|].
  destruct (run_step sid execution st) as [[[[e|] e1] st1]|]; [done| |done].
  apply IH.
Qed.
End StepLoop.

(** ** [orchestrate] *)

Section Orchestrate.
Context `{PyText} `{Runtime}.
Variables (agents : Registry.t) (context : AgentContext).

Lemma run_workflow_total request execution st :
  ∃ raised execution' st',
    Orchestrator.run_workflow agents request context execution st
    = Some (raised, execution', st') ∧
    ex_id execution' = ex_id execution ∧
    (∀ k, k ≠ ex_id execution →
       Orchestrator.active_workflows st' !! k
       = Orchestrator.active_workflows st !! k) ∧
    (results_shape (ex_step_results execution) →
     results_shape (ex_step_results execution')).
Proof.
  unfold Orchestrator.run_workflow.
  destruct (topological_sort_total (wf_steps (or_workflow request))) as [r ->].
  destruct r as [order|e]; [|by eexists _, _, _].
  destruct (run_steps_total agents request context order execution st)
    as (raised & e' & st' & -> & ? & ? & _ & ?).
  by eexists _, _, _.
Qed.

(** C5: every call of [orchestrate] returns, with status completed or
    failed.  The record it creates is in the map of active workflows, with
    status running, when the run starts; whether the run ends normally or
    by an exception, the record is no longer in the map when [orchestrate]
    returns, so [get_workflow_status] on the id of the execution is absent.
    The entries of other executions are left as they were. *)
Theorem orchestrate_cleanup request st :
  let execution_id := (uuid4 (Orchestrator.world st)).1 in
  ∃ initial st1 raised final st2 resp st',
    Orchestrator.get_workflow_status st1 execution_id = Some initial ∧
    ex_status initial = RunRunning ∧
    Orchestrator.run_workflow agents request context initial st1
    = Some (raised, final, st2) ∧
    Orchestrator.orchestrate agents request context st = Some (resp, st') ∧
    resp_execution_id resp = execution_id ∧
    resp_status resp = (if raised is Some _ then RunFailed else RunCompleted) ∧
    resp_error resp = exn_str <$> raised ∧
    Orchestrator.get_workflow_status st' execution_id = None ∧
    ∀ k, k ≠ execution_id →
      Orchestrator.get_workflow_status st' k
      = Orchestrator.get_workflow_status st k.
Proof.
  intros execution_id. subst execution_id.
  unfold Orchestrator.orchestrate, Orchestrator.fresh_uuid.
  destruct (uuid4 (Orchestrator.world st)) as [execution_id w0]. simpl.
  set (initial := Orchestrator.new_execution execution_id _ _ _).
  set (st1 := Orchestrator.publish initial _).
  destruct (run_workflow_total request initial st1)
    as (raised & final & st2 & Hrun & Hid & Hact & _).
  exists initial, st1, raised, final, st2. rewrite Hrun.
  eexists _, _. split_and!; try reflexivity.
  - unfold Orchestrator.get_workflow_status. simpl. apply lookup_insert_eq.
  - unfold Orchestrator.get_workflow_status. simpl. apply lookup_delete_eq.
  - intros k Hk. unfold Orchestrator.get_workflow_status. simpl.
    rewrite lookup_delete_ne by done.
    rewrite lookup_insert_ne by (simpl; rewrite Hid; simpl; congruence).
    rewrite Hact by done. subst st1. simpl. by rewrite lookup_insert_ne.
Qed.

(** The results [orchestrate] returns have outputs for completed steps
    only. *)
Lemma orchestrate_results_shape request st resp st' :
  Orchestrator.orchestrate agents request context st = Some (resp, st') →
  results_shape (resp_results resp).
Proof.
  unfold Orchestrator.orchestrate, Orchestrator.fresh_uuid.
  destruct (uuid4 (Orchestrator.world st)) as [execution_id w0]. simpl.
  set (initial := Orchestrator.new_execution execution_id _ _ _).
  set (st1 := Orchestrator.publish initial _).
  destruct (run_workflow_total request initial st1)
    as (raised & final & st2 & -> & _ & _ & Hshape).
  intros [= <- _]. simpl. apply Hshape. by intros k r.
Qed.

End Orchestrate.


(** ** The fallback policy *)

Section Fallback.
Context `{PyText} `{Runtime}.
Variables (agents : Registry.t) (request : OrchestrateRequest)
  (context : AgentContext).

(** The fallback step has no retry of its own: a registered fallback
    provider is called exactly once. *)
Lemma fallback_step_one_call step fb agent execution st :
  Registry.get fb agents = Some agent →
  ∃ res w,
    Orchestrator._execute_workflow_step agents
      (Orchestrator.fallback_step step fb) execution context
      (or_input request) st
    = Some (res,
            after_calls st w 1 agent
              (Orchestrator.step_prompt (Orchestrator.fallback_step step fb)
                 (Template._resolve_references (ex_step_results execution)
                    (or_input request) (step_input step)))).
Proof.
  intros Hagent. unfold Orchestrator._execute_workflow_step.
  cbn [step_agent Orchestrator.fallback_step step_retries step_input step_timeout].
  rewrite Hagent.
  change (Z.to_nat (0 + 1)) with 1. cbn [Orchestrator.attempts].
  rewrite decide_True by done. rewrite call_execute_after.
  destruct (execute _ _ _ _ _) as [[result|e] w]; simpl.
  - destruct (decide _); by eexists _, _.
  - destruct e; by eexists _, _.
Qed.

(** C4: when a step with [on_error = fallback] and a fallback provider
    reaches execution and its own execution records a failed result, the
    synthesized fallback step is executed once, on the state the failed
    execution left: it makes at most one provider call, exactly one to the
    fallback provider when that provider is registered.  Its result,
    completed or failed, replaces the entry of the original step id, and no
    later turn of the loop changes that entry: when the step is reached in
    a run of [orchestrate], the response holds the result of the fallback
    under the original step id. *)
Theorem fallback_overwrites sid later step fb execution st primary st1 :
  List.find (fun s => bool_decide (step_id s = sid))
    (wf_steps (or_workflow request)) = Some step →
  let started := Orchestrator.set_current_step sid execution in
  Orchestrator._dependencies_satisfied step started = true →
  Orchestrator.condition_fails step started (or_input request) = false →
  Orchestrator._execute_workflow_step agents step started context
    (or_input request) st = Some (primary, st1) →
  sr_status primary = StepFailed →
  on_error step = OnFallback →
  fallback_agent step = Some fb →
  let recorded := Orchestrator.record_result sid primary started in
  ∃ fallback_result st2,
    Orchestrator._execute_workflow_step agents
      (Orchestrator.fallback_step step fb) recorded context
      (or_input request) st1 = Some (fallback_result, st2) ∧
    step_agent (Orchestrator.fallback_step step fb) = fb ∧
    (sr_status fallback_result = StepCompleted
     ∨ sr_status fallback_result = StepFailed) ∧
    (∃ new, Orchestrator.calls st2 = Orchestrator.calls st1 ++ new ∧
            length new ≤ 1 ∧
            ∀ agent, Registry.get fb agents = Some agent →
              ∃ prompt, new = [(agent_type agent, prompt)]) ∧
    Orchestrator.run_step agents request context sid execution st
    = Some (None, Orchestrator.record_result sid fallback_result recorded, st2) ∧
    PyDict.get sid
      (ex_step_results (Orchestrator.record_result sid fallback_result recorded))
    = Some fallback_result ∧
    (sid ∉ later →
     ∃ raised final st3,
       Orchestrator.run_steps agents request context (sid :: later) execution st
       = Some (raised, final, st3) ∧
       PyDict.get sid (ex_step_results final) = Some fallback_result) ∧
    (∀ start earlier,
       let '(execution_id, st0) := Orchestrator.fresh_uuid start in
       let initial :=
         Orchestrator.new_execution execution_id (or_workflow request) context
           (utcnow (Orchestrator.world st0)) in
       Topo._topological_sort (wf_steps (or_workflow request))
       = Some (Ok (earlier ++ sid :: later)) →
       Orchestrator.run_steps agents request context earlier initial
         (Orchestrator.publish initial st0) = Some (None, execution, st) →
       ∃ resp st',
         Orchestrator.orchestrate agents request context start
         = Some (resp, st') ∧
         PyDict.get sid (resp_results resp) = Some fallback_result).
Proof.
  intros Hfind started Hdeps Hcond Hprimary Hfailed Hpolicy Hfb recorded.
  destruct (execute_workflow_step_total agents recorded context
              (or_input request) (Orchestrator.fallback_step step fb) st1)
    as (res2 & st2 & Hrun2 & _ & Hstatus & _).
  assert (Orchestrator.run_step agents request context sid execution st
          = Some (None, Orchestrator.record_result sid res2 recorded, st2))
    as Hstep.
  { unfold Orchestrator.run_step. rewrite Hfind. fold started.
    rewrite Hdeps, Hcond. simpl. rewrite Hprimary.
    rewrite decide_True by done. rewrite Hpolicy, Hfb. fold recorded.
    by rewrite Hrun2. }
  assert (sid ∉ later →
          ∃ raised final st3,
            Orchestrator.run_steps agents request context (sid :: later)
              execution st = Some (raised, final, st3) ∧
            PyDict.get sid (ex_step_results final) = Some res2) as Hloop.
  { intros Hlater. cbn [Orchestrator.run_steps]. rewrite Hstep.
    destruct (run_steps_total agents request context later
                (Orchestrator.record_result sid res2 recorded)
                (Orchestrator.publish
                   (Orchestrator.record_result sid res2 recorded) st2))
      as (raised & final & st3 & -> & _ & _ & Hkeep & _).
    exists raised, final, st3. split; [done|].
    rewrite Hkeep by done. simpl. apply get_set_eq. }
  exists res2, st2. split_and!; try done.
  - destruct (Registry.get fb agents) as [agent|] eqn:Hagent.
    + destruct (fallback_step_one_call step fb agent recorded st1 Hagent)
        as (res & w & Hone).
      rewrite Hone in Hrun2. injection Hrun2 as _ <-.
      eexists. split; [reflexivity|]. split; [simpl; lia|].
      intros ? [= <-]. by eexists.
    + unfold Orchestrator._execute_workflow_step in Hrun2.
      cbn [step_agent Orchestrator.fallback_step] in Hrun2.
      rewrite Hagent in Hrun2. injection Hrun2 as _ <-.
      exists []. rewrite app_nil_r. split_and!; [done | simpl; lia | done].
  - simpl. apply get_set_eq.
  - intros start earlier.
    destruct (Orchestrator.fresh_uuid start) as [execution_id st0] eqn:Hid.
    intros initial Hsort Hearlier.
    assert (sid ∉ later) as Hlater.
    { apply topological_sort_Ok_NoDup in Hsort as [Hnd _].
      apply NoDup_app in Hnd as (_ & _ & Hnd). by apply NoDup_cons in Hnd as [? _]. }
    destruct (Hloop Hlater) as (raised & final & st3 & Hrest & Hget).
    subst initial. unfold Orchestrator.orchestrate. rewrite Hid. cbv zeta.
    unfold Orchestrator.run_workflow. rewrite Hsort.
    rewrite run_steps_app, Hearlier, Hrest. by eexists _, _.
Qed.
End Fallback.

(** A step bound to a provider that always times out, with the always
    completing provider as fallback. *)
Lemma fallback_overwrites_witness :
  let step := Example.step "s" RESEARCH [] 0 OnFallback (Some PLANNER) None in
  ∃ resp st' r,
    @Orchestrator.orchestrate Example.text Example.runtime Example.agents
      (Example.request [step]) Example.context Example.state0
    = Some (resp, st') ∧
    PyDict.get "s" (resp_results resp) = Some r ∧
    sr_status r = StepCompleted ∧ sr_agent_type r = PLANNER.
Proof.
  intros step.
  pose (initial :=
    Orchestrator.new_execution "id-0" (or_workflow (Example.request [step]))
Example.context 1).
pose (st0 := @Orchestrator.with_world Example.runtime 1%nat Example.state0).
destruct (@fallback_overwrites Example.text Example.runtime Example.agents
        (Example.request [step]) Example.context "s" [] step PLANNER
        initial (@Orchestrator.publish Example.runtime initial st0)
        {| sr_step_id := "s"; sr_status := StepFailed; sr_output := None;
           sr_error := Some "Step timed out"; sr_execution_time_ms := 1;
           sr_agent_type := RESEARCH |}
        (@after_calls Example.runtime
           (@Orchestrator.publish Example.runtime initial st0) 2%nat 1
Example.slow "Execute action 'run' with parameters: {'q': ''}")
eq_refl eq_refl eq_refl eq_refl eq_refl eq_refl eq_refl)
as (r & st2 & Hrun & _ & _ & _ & _ & _ & _ & Hend).
destruct (Hend Example.state0 [] eq_refl eq_refl) as (resp & st' & Horch & Hget).
exists resp, st', r. split_and!; [exact Horch | exact Hget | |].
- vm_compute in Hrun. by injection Hrun as <- _.
- vm_compute in Hrun. by injection Hrun as <- _.
Defined.

(** ** [chat] and [execute_task] *)

Section Chat.
Context `{PyText} `{Runtime}.
Variables (agents : Registry.t) (context : AgentContext).

Lemma select_agent_resolves request chosen :
  resolves agents request context chosen ↔
  Orchestrator.select_agent agents request context = Ok chosen.
Proof.
  unfold resolves, Orchestrator.select_agent.
  destruct (chat_agent_type request) as [ty|].
  - destruct (Registry.get ty agents); split; congruence.
  - destruct (Registry.route_request _ _ _ _) as [[a|] c]; simpl.
    + split; congruence.
    + destruct (Registry.get PLANNER agents); split; congruence.
Qed.

Lemma apply_handoff_after request chosen :
  Orchestrator.apply_handoff agents chosen request context
  = after_handoff agents request context chosen.
Proof.
  unfold Orchestrator.apply_handoff, after_handoff.
  destruct (should_handoff _ _ _) as [h|]; [|done].
  by destruct (Registry.get (to_agent h) agents).
Qed.

(** C6 (amended): [chat] raises to its caller when no provider can be
    settled on: [ValueError] when the requested provider type is not
    registered, [RuntimeError] when routing finds no provider and no
    planner is registered; nothing is executed then.  Once a provider is
    settled on, [chat] never raises: it returns a response that carries the
    type of the provider that executed (the handoff target when the handoff
    is taken), and an exception raised by the execution, or by building the
    response from a result whose [response] is not a string, becomes the
    content of that response behind a fixed preamble. *)
Theorem chat_error_conversion request st :
  (∀ ty, chat_agent_type request = Some ty → Registry.get ty agents = None →
     Orchestrator.chat agents request context st
     = (Raise (ValueError ("Unknown agent type: " +:+ format_agent_type ty)), st)) ∧
  (chat_agent_type request = None →
   (Registry.route_request agents (chat_message request) context None).1 = None →
   Registry.get PLANNER agents = None →
   Orchestrator.chat agents request context st
   = (Raise (RuntimeError "No agents available to handle request"), st)) ∧
  (∀ chosen,
     resolves agents request context chosen →
     let agent := after_handoff agents request context chosen in
     ∃ resp st',
       Orchestrator.chat agents request context st = (Ok resp, st') ∧
       cr_agent_type resp = agent_type agent ∧
       cr_session_id resp = session_id context ∧
       Orchestrator.calls st'
       = Orchestrator.calls st ++ [(agent_type agent, chat_message request)] ∧
       (∀ e w,
          execute agent (chat_message request) context None (Orchestrator.world st)
          = (Raise e, w) →
          cr_content resp
          = "I encountered an error processing your request: " +:+ exn_str e) ∧
       (∀ result w e,
          execute agent (chat_message request) context None (Orchestrator.world st)
          = (Ok result, w) →
          Orchestrator.build_response context agent result = Raise e →
          cr_content resp
          = "I encountered an error processing your request: " +:+ exn_str e)).
Proof.
  split_and!.
  - intros ty Hty Hget. unfold Orchestrator.chat, Orchestrator.select_agent.
    by rewrite Hty, Hget.
  - intros Hty Hroute Hplanner. unfold Orchestrator.chat, Orchestrator.select_agent.
    rewrite Hty. destruct (Registry.route_request _ _ _ _) as [best c].
    simpl in Hroute. by rewrite Hroute, Hplanner.
  - intros chosen Hres agent. apply select_agent_resolves in Hres.
    unfold Orchestrator.chat. rewrite Hres, apply_handoff_after. fold agent.
    unfold Orchestrator.call_execute.
    destruct (execute agent (chat_message request) context None
                (Orchestrator.world st)) as [[result|e] w]; simpl.
    + destruct (Orchestrator.build_response context agent result) as [resp|e] eqn:Hb.
      * assert (cr_agent_type resp = agent_type agent
                ∧ cr_session_id resp = session_id context) as [Hty Hsid].
        { unfold Orchestrator.build_response in Hb.
          destruct (default _ _); try done. by injection Hb as <-. }
        exists resp. eexists. split_and!; try done.
        intros result' w' e [= <- <-]. by rewrite Hb.
      * unfold Orchestrator.fresh_uuid. simpl.
        destruct (uuid4 w) as [message_id w']. eexists _, _.
        split_and!; try done.
        intros result' w0 e' [= <- <-] Hb'. rewrite Hb in Hb'. by injection Hb' as <-.
    + unfold Orchestrator.fresh_uuid. simpl.
      destruct (uuid4 w) as [message_id w']. eexists _, _.
      split_and!; try done. by intros ?? [= <- <-].
Qed.

(** C9: when the requested provider type is not registered,
    [execute_task] returns, without raising and without any provider call,
    a response with status failed, no result, an error text that names the
    type, and a newly generated id. *)
Theorem execute_task_unknown_agent (request : ExecuteTaskRequest) st :
  Registry.get (et_agent_type request) agents = None →
  Orchestrator.execute_task agents request context st
  = (Ok {| etr_task_id := (uuid4 (Orchestrator.world st)).1;
           etr_status := RunFailed;
           etr_result := None;
           etr_error :=
             Some ("Unknown agent type: "
                   +:+ format_agent_type (et_agent_type request)) |},
     Orchestrator.with_world (uuid4 (Orchestrator.world st)).2 st).
Proof.
  intros Hget. unfold Orchestrator.execute_task, Orchestrator.fresh_uuid.
  rewrite Hget. by destruct (uuid4 (Orchestrator.world st)).
Qed.
End Chat.

(** C6, as stated, fails: a request for the provider type [orchestrator],
    which no provider has, makes [chat] raise to its caller. *)
Lemma chat_unknown_agent_raises :
  @Orchestrator.chat Example.text Example.runtime Example.agents
    {| chat_session_id := None; chat_message := "hello"; chat_context := [];
       chat_agent_type := Some ORCHESTRATOR; chat_stream := false |}
Example.context Example.state0
= (Raise (ValueError "Unknown agent type: orchestrator"), Example.state0).
Proof. reflexivity. Qed.

Lemma chat_error_conversion_witness :
  ∃ resp st',
    @Orchestrator.chat Example.text Example.runtime Example.agents
      {| chat_session_id := None; chat_message := "hello"; chat_context := [];
         chat_agent_type := Some GRANT; chat_stream := false |}
Example.context Example.state0 = (Ok resp, st') ∧
cr_agent_type resp = GRANT ∧
cr_content resp
= "I encountered an error processing your request: backend down".
Proof.
  destruct (proj2 (proj2 (@chat_error_conversion Example.text Example.runtime
Example.agents Example.context
{| chat_session_id := None; chat_message := "hello"; chat_context := [];
   chat_agent_type := Some GRANT; chat_stream := false |}
Example.state0)) Example.broken eq_refl)
as (resp & st' & Hchat & Hty & _ & _ & Herr & _).
exists resp, st'. split_and!; [exact Hchat | exact Hty |].
exact (Herr (OtherError "backend down") 1%nat eq_refl).
Defined.

Lemma execute_task_unknown_agent_witness :
  @Orchestrator.execute_task Example.text Example.runtime Example.agents
    {| et_agent_type := ORCHESTRATOR; et_task_type := "plan"; et_input := [];
       et_async_execution := false |}
Example.context Example.state0
= (Ok {| etr_task_id := "id-0"; etr_status := RunFailed; etr_result := None;
       etr_error := Some "Unknown agent type: orchestrator" |},
 @Orchestrator.with_world Example.runtime 1%nat Example.state0).
Proof.
  exact (@execute_task_unknown_agent Example.text Example.runtime Example.agents
Example.context
{| et_agent_type := ORCHESTRATOR; et_task_type := "plan";
   et_input := []; et_async_execution := false |}
Example.state0 eq_refl).
Defined.

(** ** The statements on the concrete system *)



Lemma condition_check_witness :
  let if_a :=
    {| cond_type := CondIf; cond_expression := Some "steps.a.status";
       cond_value := None |} in
  let b := Example.step "b" TASK [] 0 OnFail None (Some if_a) in
  let failed_a :=
    Orchestrator.record_result "a" (Example.step_result "a" StepFailed None)
Example.execution0 in
let skipped_a :=
Orchestrator.record_result "a" (Example.step_result "a" StepSkipped None)
Example.execution0 in
(Orchestrator._evaluate_condition if_a failed_a [] = true
↔ StepFailed = StepCompleted) ∧
Orchestrator._evaluate_condition if_a Example.execution0 [] = true ∧
Orchestrator._evaluate_condition
{| cond_type := CondAlways; cond_expression := None; cond_value := None |}
failed_a [] = true ∧
@Orchestrator.run_steps Example.text Example.runtime Example.agents
(Example.request [b]) Example.context ["b"] failed_a Example.state0
= Some (None,
    Orchestrator.record_result "b" (Orchestrator.skipped_result b)
      (Orchestrator.set_current_step "b" failed_a),
    @Orchestrator.publish Example.runtime
      (Orchestrator.record_result "b" (Orchestrator.skipped_result b)
         (Orchestrator.set_current_step "b" failed_a))
Example.state0) ∧
Orchestrator._dependencies_satisfied
(Example.step "c" TASK ["a"] 0 OnFail None None) skipped_a = true.
Proof.
  intros if_a b failed_a skipped_a.
  destruct (@condition_check Example.text Example.runtime)
    as (Hrec & Hunrec & Hother & Hskip & Hdeps).
  split_and!.
  - exact (proj1 (Hrec if_a failed_a [] "steps.a.status" "a" ["status"]
                    (Example.step_result "a" StepFailed None)
                    eq_refl eq_refl eq_refl) eq_refl).
  - exact (Hunrec if_a Example.execution0 [] "steps.a.status" "a" ["status"]
             eq_refl eq_refl eq_refl).
  - apply Hother. by left.
  - exact (proj2 (Hskip Example.agents (Example.request [b]) Example.context
                    "b" [] b if_a failed_a Example.state0
                    eq_refl eq_refl eq_refl eq_refl)).
  - apply Hdeps. intros d Hd. apply list_elem_of_singleton in Hd as ->.
    exists (Example.step_result "a" StepSkipped None). split; [reflexivity|].
    by right.
Defined.

(** The order of the example of the specification is exactly [a, b, c]. *)
Example topological_sort_abc :
  Topo._topological_sort
    [Example.step "a" TASK [] 0 OnFail None None;
Example.step "b" TASK ["a"] 0 OnFail None None;
Example.step "c" TASK ["a"; "b"] 0 OnFail None None]
= Some (Ok ["a"; "b"; "c"]).
Proof. reflexivity. Qed.

(** Outside the data model: a [depends_on] list that names an id twice
    counts it twice in the in-degree and once when the id is sorted, so the
    step is never released and the sort reports a cycle. *)
Example topological_sort_repeated_dependency :
  Topo._topological_sort
    [Example.step "a" TASK [] 0 OnFail None None;
Example.step "b" TASK ["a"; "a"] 0 OnFail None None]
= Some (Raise (ValueError Topo.circular_msg)).
Proof. reflexivity. Qed.

(** A workflow of one step that completes: the response is completed and
    the execution is gone from the map. *)
Example orchestrate_single_step :
  ∃ resp st',
    @Orchestrator.orchestrate Example.text Example.runtime Example.agents
      (Example.request [Example.step "a" PLANNER [] 0 OnFail None None])
Example.context Example.state0 = Some (resp, st') ∧
resp_status resp = RunCompleted ∧
resp_execution_id resp = "id-0" ∧
@Orchestrator.get_workflow_status Example.runtime st' "id-0" = None.
Proof. eexists _, _. split_and!; reflexivity. Qed.

(** ** The registry object *)

Section RegistryObject.
Context `{Runtime}.

Lemma filter_ne_notin {A} `{EqDecision A} (x : A) (l : list A) :
  x ∉ l → filter (λ k, k ≠ x) l = l.
Proof.
  induction l as [|y l IH]; [done|].
  intros [Hne Hl]%not_elem_of_cons.
  rewrite filter_cons_True by done. by rewrite IH.
Qed.

Lemma get_delitem_ne ty ty' (agents : list (AgentType * BaseAgent)) :
  ty' ≠ ty →
  PyDict.get ty' (AgentRegistry.delitem ty agents) = PyDict.get ty' agents.
Proof.
  intros Hne. induction agents as [|[k a] rest IH]; simpl; [done|].
  destruct (decide (ty = k)) as [->|Hk]; simpl.
  - by rewrite decide_False.
  - destruct (decide (ty' = k)); [done | apply IH].
Qed.

Lemma keys_delitem ty (agents : list (AgentType * BaseAgent)) :
  NoDup agents.*1 →
  (AgentRegistry.delitem ty agents).*1 = filter (λ k, k ≠ ty) agents.*1.
Proof.
  induction agents as [|[k a] rest IH]; simpl; [done|].
  intros [Hk Hnd]%NoDup_cons. destruct (decide (ty = k)) as [->|Hne].
  - rewrite filter_cons_False by (intros ?; done).
    by rewrite filter_ne_notin.
  - rewrite filter_cons_True by done. simpl. f_equal. by apply IH.
Qed.

Lemma delitem_notin ty (agents : list (AgentType * BaseAgent)) :
  ty ∉ agents.*1 → AgentRegistry.delitem ty agents = agents.
Proof.
  induction agents as [|[k a] rest IH]; simpl; [done|].
  intros [Hne Hl]%not_elem_of_cons. rewrite decide_False by done.
  f_equal. by apply IH.
Qed.

Lemma register_get (agent : BaseAgent) (self : AgentRegistry.t) ty :
  AgentRegistry.get ty (AgentRegistry.register agent self)
  = (if decide (ty = agent_type agent) then Some agent
     else AgentRegistry.get ty self).
Proof.
  unfold AgentRegistry.get, AgentRegistry.register, Registry.get,
    Registry.register. simpl.
  destruct (decide (ty = agent_type agent)) as [->|Hne].
  - apply get_set_eq.
  - by apply get_set_ne.
Qed.

Lemma unregister_list_types (self : AgentRegistry.t) ty :
  NoDup (AgentRegistry.list_types self) →
  AgentRegistry.list_types (AgentRegistry.unregister ty self)
  = filter (λ k, k ≠ ty) (AgentRegistry.list_types self).
Proof.
  intros Hnd. unfold AgentRegistry.list_types, AgentRegistry.unregister, PyDict.keys in *.
  case_bool_decide as Hin; simpl.
  - by apply keys_delitem.
  - by rewrite filter_ne_notin.
Qed.

Lemma unregister_get_eq (self : AgentRegistry.t) ty :
  NoDup (AgentRegistry.list_types self) →
  AgentRegistry.get ty (AgentRegistry.unregister ty self) = None.
Proof.
  intros Hnd. apply get_None_keys.
  change (ty ∉ AgentRegistry.list_types (AgentRegistry.unregister ty self)).
  rewrite unregister_list_types by done.
  rewrite list_elem_of_filter. by intros [? _].
Qed.

Lemma unregister_get_ne (self : AgentRegistry.t) ty ty' :
  ty' ≠ ty →
  AgentRegistry.get ty' (AgentRegistry.unregister ty self)
  = AgentRegistry.get ty' self.
Proof.
  intros Hne. unfold AgentRegistry.get, AgentRegistry.unregister, Registry.get.
  case_bool_decide; simpl; [|done]. by apply get_delitem_ne.
Qed.

(** X1: looking a type up after [register] gives the provider just
    registered under its own type and leaves every other type as it was.
    In the listing of types a replaced provider keeps the position of the
    one it replaces, and a provider of a new type goes last. *)
Theorem registry_register_lookup (agent : BaseAgent) (self : AgentRegistry.t)
    (ty : AgentType) :
  AgentRegistry.get ty (AgentRegistry.register agent self)
  = (if decide (ty = agent_type agent) then Some agent
     else AgentRegistry.get ty self)
  ∧ AgentRegistry.list_types (AgentRegistry.register agent self)
    = (if decide (agent_type agent ∈ AgentRegistry.list_types self)
       then AgentRegistry.list_types self
       else AgentRegistry.list_types self ++ [agent_type agent]).
Proof.
  split; [apply register_get|].
  unfold AgentRegistry.list_types, AgentRegistry.register, Registry.register.
  simpl. destruct (decide _) as [Hin|Hout].
  - by apply keys_set_in.
  - by apply keys_set_notin.
Qed.

(** X2: after [unregister] the type is no longer found, the other types
    are found as before and keep their order, and unregistering a type that
    is not registered changes nothing. *)
Theorem registry_unregister (self : AgentRegistry.t) (ty : AgentType) :
  NoDup (AgentRegistry.list_types self) →
  AgentRegistry.get ty (AgentRegistry.unregister ty self) = None
  ∧ (∀ ty', ty' ≠ ty →
       AgentRegistry.get ty' (AgentRegistry.unregister ty self)
       = AgentRegistry.get ty' self)
  ∧ AgentRegistry.list_types (AgentRegistry.unregister ty self)
    = filter (λ k, k ≠ ty) (AgentRegistry.list_types self)
  ∧ (AgentRegistry.get ty self = None →
     AgentRegistry.unregister ty self = self).
Proof.
  intros Hnd. split_and!.
  - by apply unregister_get_eq.
  - intros ty' Hne. by apply unregister_get_ne.
  - by apply unregister_list_types.
  - intros Hnone%get_None_keys. unfold AgentRegistry.unregister.
    by rewrite bool_decide_false.
Qed.

(** X3: in a registry built by registering and unregistering, no type is
    listed twice, every provider is stored under its own type, and there
    are as many providers as types. *)
Theorem registry_built_invariant (self : AgentRegistry.t) :
  built self →
  NoDup (AgentRegistry.list_types self)
  ∧ (∀ ty agent, AgentRegistry.get ty self = Some agent → agent_type agent = ty)
  ∧ length (AgentRegistry.get_all self) = length (AgentRegistry.list_types self).
Proof.
  induction 1 as [|agent self Hb (IHnd & IHty & _)|ty self Hb (IHnd & IHty & _)].
  - split_and!; [apply NoDup_nil_2 | done | done].
  - split_and!.
    + by apply set_keys_NoDup.
    + intros ty a. rewrite register_get.
      destruct (decide _) as [->|_]; [by intros [= <-] | apply IHty].
    + unfold AgentRegistry.get_all, AgentRegistry.list_types, PyDict.keys.
      by rewrite !length_fmap.
  - split_and!.
    + rewrite unregister_list_types by done. by apply NoDup_filter.
    + intros ty' a Hget. destruct (decide (ty' = ty)) as [->|Hne].
      * rewrite unregister_get_eq in Hget by done. done.
      * rewrite unregister_get_ne in Hget by done. by apply IHty.
    + unfold AgentRegistry.get_all, AgentRegistry.list_types, PyDict.keys.
      by rewrite !length_fmap.
Qed.

(** X4: the first [initialize_agents] on a registry registers the eight
    provider classes under their own types, each with the keyword routing
    of its class, replacing what was registered under these types and
    leaving any other type alone; on an empty registry the types are listed
    in the order task, project, grant, research, calendar, writing,
    personnel, planner.  A further call changes nothing. *)
Theorem initialize_agents_registers (run run' : AgentType → Execute)
    (self : AgentRegistry.t) :
  AgentRegistry._initialized self = false →
  let self' := AgentRegistry.initialize_agents run self in
  AgentRegistry._initialized self' = true
  ∧ (∀ ty, ty ∈ builtin_types →
       ∃ agent,
         AgentRegistry.get ty self' = Some agent ∧
         agent_type agent = ty ∧
         execute agent = run ty ∧
         ∀ request context,
           can_handle agent request context
           = Base.can_handle (routing_keywords ty) request)
  ∧ (∀ ty, ty ∉ builtin_types →
       AgentRegistry.get ty self' = AgentRegistry.get ty self)
  ∧ (AgentRegistry.list_types self = [] →
     AgentRegistry.list_types self' = builtin_types)
  ∧ AgentRegistry.initialize_agents run' self' = self'.
Proof.
  intros Hinit self'. subst self'. unfold AgentRegistry.initialize_agents.
  rewrite Hinit. simpl. split_and!; [done| | | |done].
  - intros ty Hty. unfold builtin_types in Hty.
    unfold AgentRegistry.get, Registry.get, Registry.register. simpl.
    repeat (apply elem_of_cons in Hty as [->|Hty]);
      [..|by apply elem_of_nil in Hty];
      (eexists; split;
       [repeat (rewrite get_set_ne by done); apply get_set_eq | done]).
  - intros ty Hty. unfold builtin_types in Hty.
    unfold AgentRegistry.get, Registry.get, Registry.register. simpl.
    repeat (apply not_elem_of_cons in Hty as [? Hty]).
    by repeat (rewrite get_set_ne by done).
  - unfold AgentRegistry.list_types, PyDict.keys, Registry.register. simpl.
    destruct (AgentRegistry._agents self) as [|]; [done | by intros ?].
Qed.
End RegistryObject.

Lemma registry_unregister_witness :
  let self :=
    {| AgentRegistry._agents := Example.agents;
       AgentRegistry._initialized := false |} in
  AgentRegistry.get GRANT (AgentRegistry.unregister GRANT self) = None
  ∧ AgentRegistry.list_types (AgentRegistry.unregister GRANT self)
    = [TASK; RESEARCH; PLANNER].
Proof.
  intros self.
  destruct (@registry_unregister Example.runtime self GRANT)
    as (Hnone & _ & Htypes & _).
  - vm_compute. apply (bool_decide_unpack (NoDup [TASK; GRANT; RESEARCH; PLANNER])). exact I.
  - split; [exact Hnone | exact Htypes].
Defined.

Lemma registry_built_invariant_witness :
  let self :=
    AgentRegistry.unregister RESEARCH
      (AgentRegistry.register Example.steady
         (AgentRegistry.register Example.slow
            (AgentRegistry.register Example.flaky AgentRegistry.new))) in
  NoDup (AgentRegistry.list_types self)
  ∧ (∀ ty agent, AgentRegistry.get ty self = Some agent → agent_type agent = ty)
  ∧ length (AgentRegistry.get_all self) = length (AgentRegistry.list_types self).
Proof.
  intros self. apply (@registry_built_invariant Example.runtime self).
  repeat constructor.
Defined.

Lemma initialize_agents_registers_witness :
  AgentRegistry.list_types Builtin.registry = builtin_types
  ∧ AgentRegistry.initialize_agents Builtin.run Builtin.registry
    = Builtin.registry.
Proof.
  destruct (@initialize_agents_registers Example.runtime Builtin.run
              Builtin.run AgentRegistry.new eq_refl)
    as (_ & _ & _ & Htypes & Hagain).
  split; [exact (Htypes eq_refl) | exact Hagain].
Defined.

(** ** Keyword routing of [BaseAgent.can_handle] *)

Lemma matches_le keywords request_lower :
  Base.matches keywords request_lower ≤ length keywords.
Proof.
  unfold Base.matches. induction keywords as [|kw keywords IH]; csimpl; [done|].
  destruct (Base.contains kw request_lower); lia.
Qed.

Lemma Zpos_of_nat n : 0 < n → Z.pos (Pos.of_nat n) = Z.of_nat n.
Proof.
  intros Hn. rewrite <- positive_nat_Z. rewrite Nat2Pos.id by lia. done.
Qed.

Lemma can_handle_ratio keywords request :
  let m := Base.matches keywords (Base.lower request) in
  Base.can_handle keywords request
  = (bool_decide (length keywords < 5 * m),
     (Z.of_nat m # Pos.of_nat (Nat.max (length keywords) 1))%Q).
Proof.
  intros m. unfold Base.can_handle. fold m.
  pose proof (matches_le keywords (Base.lower request)) as Hle. fold m in Hle.
  set (ratio := (Z.of_nat m # Pos.of_nat (Nat.max (length keywords) 1))%Q).
  assert (Z.pos (Pos.of_nat (Nat.max (length keywords) 1))
          = Z.of_nat (Nat.max (length keywords) 1)) as Hden
    by (apply Zpos_of_nat; lia).
  assert (Qgt_bool ratio 1 = false) as ->.
  { apply Qgt_bool_false. unfold Qle, ratio. simpl. rewrite Hden. lia. }
  f_equal. case_bool_decide as Hm.
  - apply Qgt_bool_true. unfold Qlt, ratio. simpl. rewrite Hden. lia.
  - apply Qgt_bool_false. unfold Qle, ratio. simpl. rewrite Hden. lia.
Qed.

(** X5: the default [can_handle] reports as confidence the share of the
    routing keywords that occur in the lower-cased request, a number
    between 0 and 1, and accepts exactly when more than a fifth of the
    keywords occur; a provider without routing keywords accepts nothing. *)
Theorem can_handle_threshold (keywords : list string) (request : string) :
  let m := Base.matches keywords (Base.lower request) in
  let '(accepted, confidence) := Base.can_handle keywords request in
  confidence = (Z.of_nat m # Pos.of_nat (Nat.max (length keywords) 1))%Q
  ∧ (0 <= confidence)%Q ∧ (confidence <= 1)%Q
  ∧ (accepted = true ↔ length keywords < 5 * m)
  ∧ (keywords = [] → accepted = false ∧ confidence = 0%Q).
Proof.
  intros m. rewrite can_handle_ratio. fold m.
  pose proof (matches_le keywords (Base.lower request)) as Hle. fold m in Hle.
  assert (Z.pos (Pos.of_nat (Nat.max (length keywords) 1))
          = Z.of_nat (Nat.max (length keywords) 1)) as Hden
    by (apply Zpos_of_nat; lia).
  split_and!.
  - done.
  - unfold Qle. simpl. lia.
  - unfold Qle. simpl. rewrite Hden. lia.
  - by rewrite bool_decide_eq_true.
  - intros ->. subst m. by vm_compute.
Qed.

Section BuiltinProviders.
Context `{Runtime}.
Variable run : AgentType → Execute.

Lemma builtin_agents :
  AgentRegistry._agents (AgentRegistry.initialize_agents run AgentRegistry.new)
  = [(TASK, TaskAgent.new (run TASK));
     (PROJECT, ProjectAgent.new (run PROJECT));
     (GRANT, GrantAgent.new (run GRANT));
     (RESEARCH, ResearchAgent.new (run RESEARCH));
     (CALENDAR, CalendarAgent.new (run CALENDAR));
     (WRITING, WritingAgent.new (run WRITING));
     (PERSONNEL, PersonnelAgent.new (run PERSONNEL));
     (PLANNER, PlannerAgent.new (run PLANNER))].
Proof. reflexivity. Qed.

Lemma builtin_get ty agent :
  AgentRegistry.get ty (AgentRegistry.initialize_agents run AgentRegistry.new)
  = Some agent →
  agent_type agent = ty ∧
  ∀ request context,
    can_handle agent request context
    = Base.can_handle (routing_keywords ty) request.
Proof.
  unfold AgentRegistry.get. rewrite builtin_agents.
  destruct ty; simpl; intros [= <-]; done.
Qed.

Lemma builtin_accepts ty request :
  (Base.can_handle (routing_keywords ty) request).1 = true
  ↔ threshold ty ≤ Base.matches (routing_keywords ty) (Base.lower request).
Proof.
  rewrite can_handle_ratio. simpl. rewrite bool_decide_eq_true.
  pose proof (matches_le (routing_keywords ty) (Base.lower request)) as Hle.
  destruct ty; simpl in *; lia.
Qed.

(** X6: a provider that [initialize_agents] registers accepts a request
    exactly when enough of its routing keywords occur in it: five for the
    task provider, four for the project, grant and writing providers, three
    for the research, calendar, personnel and planner providers. *)
Theorem builtin_acceptance (ty : AgentType) (agent : BaseAgent)
    (request : string) (context : AgentContext) :
  AgentRegistry.get ty (AgentRegistry.initialize_agents run AgentRegistry.new)
  = Some agent →
  (can_handle agent request context).1 = true
  ↔ threshold ty ≤ Base.matches (routing_keywords ty) (Base.lower request).
Proof.
  intros [_ Hcan]%builtin_get. rewrite Hcan. apply builtin_accepts.
Qed.
End BuiltinProviders.

Lemma builtin_acceptance_witness :
  (can_handle (CalendarAgent.new (Builtin.run CALENDAR))
     "Schedule a MEETING" Example.context).1 = true
  ↔ 3 ≤ 2.
Proof.
  exact (@builtin_acceptance Example.runtime Builtin.run CALENDAR
           (CalendarAgent.new (Builtin.run CALENDAR)) "Schedule a MEETING"
Example.context eq_refl).
Defined.

(** ** [chat] over the built-in providers *)

Section ChatRuns.
Context `{PyText} `{Runtime}.
Variables (agents : Registry.t) (context : AgentContext).

Lemma route_loop_declined items request exclude best conf :
  (∀ ty agent, (ty, agent) ∈ items →
     (can_handle agent request context).1 = false) →
  Registry.route_loop items request context exclude best conf = (best, conf).
Proof.
  induction items as [|[ty agent] items IH]; simpl; [done|].
  intros Hall. assert ((can_handle agent request context).1 = false) as Hno
    by (apply (Hall ty); left).
  rewrite IH by (intros ty' a' ?; apply (Hall ty'); by right).
  destruct (can_handle agent request context) as [can c]. simpl in Hno.
  subst can. simpl. by destruct (bool_decide _).
Qed.

Lemma build_response_fields agent result resp :
  Orchestrator.build_response context agent result = Ok resp →
  cr_agent_type resp = agent_type agent.
Proof.
  unfold Orchestrator.build_response. destruct (default _ _); try done.
  by intros [= <-].
Qed.

(** Once a provider is settled on, [chat] answers with the type of the
    provider that executes, after one execution. *)
Lemma chat_runs request chosen st :
  Orchestrator.select_agent agents request context = Ok chosen →
  let agent := Orchestrator.apply_handoff agents chosen request context in
  ∃ resp st',
    Orchestrator.chat agents request context st = (Ok resp, st') ∧
    cr_agent_type resp = agent_type agent ∧
    Orchestrator.calls st'
    = Orchestrator.calls st ++ [(agent_type agent, chat_message request)].
Proof.
  intros Hsel agent. unfold Orchestrator.chat. rewrite Hsel. fold agent.
  unfold Orchestrator.call_execute.
  destruct (execute agent (chat_message request) context None
              (Orchestrator.world st)) as [[result|e] w]; simpl.
  - destruct (Orchestrator.build_response context agent result)
      as [resp|e] eqn:Hb.
    + apply build_response_fields in Hb. by eexists _, _.
    + unfold Orchestrator.fresh_uuid. simpl.
      destruct (uuid4 w) as [message_id w']. by eexists _, _.
  - unfold Orchestrator.fresh_uuid. simpl.
    destruct (uuid4 w) as [message_id w']. by eexists _, _.
Qed.

(** X7: when the provider that executes returns a result whose [response]
    is a text, or that has no [response] and is then rendered whole, [chat]
    answers with that text under the id of the result, without generating
    an id of its own.  The status of the result is in the metadata; a
    handoff the result asks for is reported there and not followed, the
    execution being the only one. *)
Theorem chat_success request st chosen result w text :
  resolves agents request context chosen →
  let agent := after_handoff agents request context chosen in
  execute agent (chat_message request) context None (Orchestrator.world st)
  = (Ok result, w) →
  default (PStr (PyVal.str (PDict (res_output result))))
          (PyDict.get "response" (res_output result)) = PStr text →
  ∃ resp,
    Orchestrator.chat agents request context st
    = (Ok resp,
       {| Orchestrator.world := w;
          Orchestrator.active_workflows := Orchestrator.active_workflows st;
          Orchestrator.calls :=
            Orchestrator.calls st ++ [(agent_type agent, chat_message request)] |})
    ∧ cr_content resp = text
    ∧ cr_message_id resp = result_id result
    ∧ cr_agent_type resp = agent_type agent
    ∧ cr_tool_calls resp = res_tool_calls result
    ∧ cr_suggested_actions resp = res_suggested_actions result
    ∧ PyDict.get "status" (cr_metadata resp)
      = Some (PStr (AgentStatus_value (res_status result)))
    ∧ PyDict.get "handoff" (cr_metadata resp)
      = (λ h, PDict [("to_agent", PStr (AgentType_value (to_agent h)));
                     ("reason", PStr (handoff_reason h))])
        <$> res_handoff result.
Proof.
  intros Hres agent Hexec Hcontent. apply select_agent_resolves in Hres.
  unfold Orchestrator.chat. rewrite Hres, apply_handoff_after. fold agent.
  unfold Orchestrator.call_execute. rewrite Hexec. simpl.
  unfold Orchestrator.build_response. rewrite Hcontent.
  eexists. split; [reflexivity|]. simpl.
  split_and!; try done; by destruct (res_handoff result).
Qed.
End ChatRuns.

Lemma chat_success_witness :
  ∃ resp st',
    @Orchestrator.chat Example.text Example.runtime Example.agents
      {| chat_session_id := None; chat_message := "hello"; chat_context := [];
         chat_agent_type := Some PLANNER; chat_stream := false |}
Example.context Example.state0 = (Ok resp, st')
∧ cr_content resp = "ok" ∧ cr_message_id resp = "r".
Proof.
  destruct (@chat_success Example.text Example.runtime Example.agents
Example.context
{| chat_session_id := None; chat_message := "hello";
   chat_context := []; chat_agent_type := Some PLANNER;
   chat_stream := false |}
Example.state0 Example.steady
(Example.result PLANNER COMPLETED [("response", PStr "ok")] None)
1%nat "ok" eq_refl eq_refl eq_refl)
as (resp & Hchat & Hcontent & Hid & _).
exists resp. eexists. split_and!; [exact Hchat | exact Hcontent | exact Hid].
Defined.

Section ChatBuiltin.
Context `{PyText} `{Runtime}.
Variable run : AgentType → Execute.

Local Abbreviation agents :=
  (AgentRegistry._agents (AgentRegistry.initialize_agents run AgentRegistry.new)).

Lemma planner_handoff_target request context h :
  PlannerAgent.should_handoff request context = Some h →
  ∃ agent, Registry.get (to_agent h) agents = Some agent
           ∧ agent_type agent = to_agent h.
Proof.
  unfold PlannerAgent.should_handoff, PlannerAgent.handoff_map,
    PlannerAgent.handoff_loop.
  repeat (destruct (Base.any_in _ _);
          [intros [= <-]; simpl; by eexists|]).
  done.
Qed.

Lemma builtin_route_none request context :
  (∀ ty, ty ∈ builtin_types →
     Base.matches (routing_keywords ty) (Base.lower request) < threshold ty) →
  Registry.route_request agents request context None = (None, 0%Q).
Proof.
  intros Hsparse. unfold Registry.route_request.
  apply route_loop_declined. intros ty agent Hin.
  assert (ty ∈ builtin_types ∧
          ∀ request context,
            can_handle agent request context
            = Base.can_handle (routing_keywords ty) request) as [Hty Hcan].
  { rewrite builtin_agents in Hin. unfold builtin_types.
    repeat (apply elem_of_cons in Hin as [[= -> ->]|Hin]; [split; [set_solver|done]|]).
    by apply elem_of_nil in Hin. }
  rewrite Hcan. apply not_true_is_false. rewrite builtin_accepts.
  specialize (Hsparse ty Hty). lia.
Qed.

(** X8: over the providers that [initialize_agents] registers, a request
    that names no provider type and holds too few routing keywords of every
    provider is routed to nobody, and [chat] turns to the planner: the
    request is executed, once, by the provider the planner hands off to,
    or by the planner itself when its handoff rule names none. *)
Theorem chat_sparse_request (request : ChatRequest) (context : AgentContext)
    (st : Orchestrator.State) :
  chat_agent_type request = None →
  (∀ ty, ty ∈ builtin_types →
     Base.matches (routing_keywords ty) (Base.lower (chat_message request))
     < threshold ty) →
  let target :=
    match PlannerAgent.should_handoff (chat_message request) context with
    | Some handoff => to_agent handoff
    | None => PLANNER
    end in
  ∃ resp st',
    Orchestrator.chat agents request context st = (Ok resp, st') ∧
    cr_agent_type resp = target ∧
    Orchestrator.calls st'
    = Orchestrator.calls st ++ [(target, chat_message request)].
Proof.
  intros Hty Hsparse target.
  assert (Orchestrator.select_agent agents request context
          = Ok (PlannerAgent.new (run PLANNER))) as Hsel.
  { unfold Orchestrator.select_agent. rewrite Hty.
    by rewrite builtin_route_none. }
  destruct (chat_runs agents context request _ st Hsel)
    as (resp & st' & Hchat & Hagent & Hcalls).
  assert (agent_type
            (Orchestrator.apply_handoff agents (PlannerAgent.new (run PLANNER))
               request context) = target) as Htarget.
  { unfold Orchestrator.apply_handoff. subst target.
    change (should_handoff (PlannerAgent.new (run PLANNER))
              (chat_message request) context)
      with (PlannerAgent.should_handoff (chat_message request) context).
    destruct (PlannerAgent.should_handoff (chat_message request) context)
      as [h|] eqn:Hh; [|done].
    destruct (planner_handoff_target _ _ _ Hh) as (agent & -> & Hagent').
    done. }
  exists resp, st'. rewrite <- Htarget. by split_and!.
Qed.
End ChatBuiltin.

Lemma chat_sparse_request_witness :
  ∃ resp st',
    @Orchestrator.chat Example.text Example.runtime
      (AgentRegistry._agents Builtin.registry)
      (Builtin.chat_request "Schedule a meeting") Example.context Example.state0
    = (Ok resp, st')
    ∧ cr_agent_type resp = CALENDAR
    ∧ Orchestrator.calls st' = [(CALENDAR, "Schedule a meeting")].
Proof.
  refine (@chat_sparse_request Example.text Example.runtime Builtin.run
            (Builtin.chat_request "Schedule a meeting") Example.context
Example.state0 eq_refl _).
intros ty Hty. unfold builtin_types in Hty.
repeat (apply elem_of_cons in Hty as [->|Hty]; [vm_compute; lia|]).
by apply elem_of_nil in Hty.
Defined.

(** ** What a successful sort certifies *)

Lemma length_remove_dups_le {A} `{EqDecision A} (l : list A) :
  length (remove_dups l) ≤ length l.
Proof.
  induction l as [|x l IH]; simpl; [done|].
  destruct (decide_rel _ _ _); simpl; lia.
Qed.

Lemma length_remove_dups_NoDup {A} `{EqDecision A} (l : list A) :
  length (remove_dups l) = length l → NoDup l.
Proof.
  induction l as [|x l IH]; simpl; [intros _; apply NoDup_nil_2|].
  pose proof (length_remove_dups_le l).
  destruct (decide_rel _ _ _); simpl; [lia|].
  intros Hlen. apply NoDup_cons. split; [done|]. apply IH. lia.
Qed.

Lemma hits_eq_NoDup P deps :
  NoDup P → hits P deps = length deps → NoDup deps.
Proof.
  intros HP Hhits. apply length_remove_dups_NoDup.
  pose proof (length_remove_dups_le deps) as Hle.
  assert (hits P deps ≤ length (remove_dups deps)); [|lia].
  unfold hits. apply submseteq_length, NoDup_submseteq.
  - by apply NoDup_filter.
  - intros x Hx. apply list_elem_of_filter in Hx as [? _].
    by apply elem_of_remove_dups.
Qed.

Lemma topological_sort_Ok_inv steps order :
  Topo._topological_sort steps = Some (Ok order) →
  length order = length steps ∧
  ∃ ind, kahn_inv (Topo.build_graph steps) ind [] order.
Proof.
  destruct (topological_sort_verdict steps) as (ind & sorted & Hinv & ->).
  destruct (decide _) as [|Hlen]; [done|]. intros [= <-].
  split; [|by exists ind].
  destruct (decide (length sorted = length steps)); [done | by destruct Hlen].
Qed.

Lemma topological_sort_Ok_ids steps order :
  Topo._topological_sort steps = Some (Ok order) →
  NoDup (step_id <$> steps) ∧ order ≡ₚ step_id <$> steps.
Proof.
  intros Hsort.
  destruct (topological_sort_Ok_inv _ _ Hsort) as (Hlen & ind & Hinv).
  destruct (topological_sort_Ok_NoDup _ _ Hsort) as [Hnd Hsub].
  pose proof (kahn_inv_bound _ _ _ _ Hinv) as Hb. simpl in Hb.
  assert (NoDup (step_id <$> steps)) as Hids.
  { apply build_graph_full. lia. }
  split; [done|].
  apply submseteq_length_Permutation.
  - by apply NoDup_submseteq.
  - rewrite length_fmap. lia.
Qed.

Lemma topological_sort_Ok_well_formed steps order :
  Topo._topological_sort steps = Some (Ok order) →
  well_formed steps ∧ ¬ cyclic steps.
Proof.
  intros Hsort.
  destruct (topological_sort_Ok_inv _ _ Hsort) as (Hlen & ind & Hinv).
  destruct (topological_sort_Ok_ids _ _ Hsort) as [Hids Hperm].
  destruct Hinv as [Hk Hdeg Hnd Hz Hord]. rewrite app_nil_r in *.
  split; [split; [done|] |].
  - intros st Hst.
    assert ((step_id st, depends_on st) ∈ Topo.build_graph steps) as Hg.
    { rewrite build_graph_unique by done.
      apply list_elem_of_fmap. by exists st. }
    assert (step_id st ∈ order) as Hin.
    { rewrite Hperm. apply list_elem_of_fmap. by exists st. }
    apply Hz in Hin. rewrite (Hdeg _ _ Hg) in Hin.
    pose proof (hits_le order (depends_on st) Hnd) as Hle.
    assert (hits order (depends_on st) = length (depends_on st)) as Hfull
      by (injection Hin; lia).
    split.
    + by apply (hits_eq_NoDup order).
    + intros d Hd. rewrite <- Hperm. by apply (hits_full order (depends_on st)).
  - intros Hcyc. by rewrite (topological_sort_cyclic _ Hcyc) in Hsort.
Qed.

(** X9: when [_topological_sort] returns an order, the step ids are
    unique, every [depends_on] is free of repetitions and names steps of
    the workflow only, the dependencies have no cycle, and the order lists
    every step id once.  So a repeated id, a dependency on an id that no
    step has and a dependency listed twice all end in the
    circular-dependency error. *)
Theorem topological_sort_certifies (steps : list WorkflowStep)
    (order : list string) :
  Topo._topological_sort steps = Some (Ok order) →
  well_formed steps ∧ ¬ cyclic steps ∧ order ≡ₚ step_id <$> steps.
Proof.
  intros Hsort.
  destruct (topological_sort_Ok_well_formed _ _ Hsort) as [Hwf Hacyc].
  destruct (topological_sort_Ok_ids _ _ Hsort) as [_ Hperm].
  done.
Qed.

Lemma topological_sort_certifies_witness :
  let a := Example.step "a" TASK [] 0 OnFail None None in
  let b := Example.step "b" TASK ["a"] 0 OnFail None None in
  let c := Example.step "c" TASK ["a"; "b"] 0 OnFail None None in
  well_formed [a; b; c] ∧ ¬ cyclic [a; b; c]
  ∧ ["a"; "b"; "c"] ≡ₚ step_id <$> [a; b; c].
Proof.
  intros a b c.
  exact (topological_sort_certifies [a; b; c] ["a"; "b"; "c"] eq_refl).
Defined.

Lemma topological_sort_malformed steps :
  ¬ (well_formed steps ∧ ¬ cyclic steps) →
  Topo._topological_sort steps = Some (Raise (ValueError Topo.circular_msg)).
Proof.
  intros Hbad.
  destruct (topological_sort_verdict steps) as (ind & sorted & Hinv & Hsort).
  destruct (decide _); [done|].
  destruct Hbad. by eapply topological_sort_Ok_well_formed.
Qed.

Section OrchestrateRejects.
Context `{PyText} `{Runtime}.
Variables (agents : Registry.t) (context : AgentContext).

(** X10: [orchestrate] on a workflow that is not a well-formed acyclic one
    (a repeated step id, a dependency that is no step of the workflow or is
    listed twice, or a cycle) returns a failed response with the
    circular-dependency error and no step result, and calls no provider. *)
Theorem orchestrate_rejects_malformed (request : OrchestrateRequest)
    (st : Orchestrator.State) :
  ¬ (well_formed (wf_steps (or_workflow request))
     ∧ ¬ cyclic (wf_steps (or_workflow request))) →
  ∃ resp st',
    Orchestrator.orchestrate agents request context st = Some (resp, st') ∧
    resp_status resp = RunFailed ∧
    resp_error resp = Some Topo.circular_msg ∧
    resp_results resp = [] ∧
    Orchestrator.calls st' = Orchestrator.calls st.
Proof.
  intros Hbad. unfold Orchestrator.orchestrate, Orchestrator.fresh_uuid.
  destruct (uuid4 (Orchestrator.world st)) as [execution_id w0]. simpl.
  unfold Orchestrator.run_workflow. rewrite (topological_sort_malformed _ Hbad).
  by eexists _, _.
Qed.
End OrchestrateRejects.

Lemma orchestrate_rejects_malformed_witness :
  ∃ resp st',
    @Orchestrator.orchestrate Example.text Example.runtime Example.agents
      (Example.request
         [Example.step "a" PLANNER [] 0 OnFail None None;
Example.step "b" PLANNER ["ghost"] 0 OnFail None None])
Example.context Example.state0 = Some (resp, st') ∧
resp_status resp = RunFailed ∧
resp_error resp = Some Topo.circular_msg ∧
resp_results resp = [] ∧
Orchestrator.calls st' = [].
Proof.
  apply (@orchestrate_rejects_malformed Example.text Example.runtime
Example.agents Example.context
(Example.request
   [Example.step "a" PLANNER [] 0 OnFail None None;
Example.step "b" PLANNER ["ghost"] 0 OnFail None None])
Example.state0).
intros [[_ Hdeps] _].
destruct (Hdeps (Example.step "b" PLANNER ["ghost"] 0 OnFail None None))
as [_ Hghost]; [right; left|].
specialize (Hghost "ghost" ltac:(left)). simpl in Hghost.
repeat (apply elem_of_cons in Hghost as [[=]|Hghost]).
by apply elem_of_nil in Hghost.
Defined.

(** ** The place of the independent steps *)

Lemma relax_extends current items : ∀ in_degree queue in_degree' queue',
  Topo.relax current items in_degree queue = Ok (in_degree', queue') →
  ∃ new, queue' = queue ++ new.
Proof.
  induction items as [|[sid deps] items IH]; intros ind q ind' q'; simpl.
  - intros [= _ <-]. exists []. by rewrite app_nil_r.
  - case_bool_decide; [|apply IH].
    destruct (PyDict.getitem sid ind) as [d|]; simpl; [|done].
    destruct (PyDict.getitem sid (PyDict.set sid (d - 1)%Z ind)) as [d'|];
      simpl; [|done].
    destruct (decide (d' = 0%Z)); [|apply IH].
    intros [new ->]%IH. exists (sid :: new). by rewrite <- app_assoc.
Qed.

Lemma drain_prefix fuel graph : ∀ in_degree queue result out,
  Topo.drain fuel graph in_degree queue result = Some (Ok out) →
  ∃ tail, out = result ++ queue ++ tail.
Proof.
  induction fuel as [|fuel IH]; intros ind q res out; destruct q as [|c q];
    simpl; try done.
  - intros [= <-]. exists []. by rewrite app_nil_r.
  - intros [= <-]. exists []. by rewrite app_nil_r.
  - destruct (Topo.relax c graph ind q) as [[ind' q']|] eqn:Hrelax; [|done].
    apply relax_extends in Hrelax as [new ->].
    intros [tail ->]%IH. exists (new ++ tail).
    by rewrite <- !app_assoc.
Qed.

Lemma initial_queue_cons k d (rest : list (string * Z)) :
  Topo.initial_queue ((k, d) :: rest)
  = if decide (d = 0%Z) then k :: Topo.initial_queue rest
    else Topo.initial_queue rest.
Proof.
  unfold Topo.initial_queue.
  change (filter (λ kv : string * Z, kv.2 = 0%Z) ((k, d) :: rest))
    with (if decide (d = 0%Z)
          then (k, d) :: filter (λ kv : string * Z, kv.2 = 0%Z) rest
          else filter (λ kv : string * Z, kv.2 = 0%Z) rest).
  by destruct (decide (d = 0%Z)).
Qed.

Lemma initial_queue_steps steps :
  Topo.initial_queue
    (degrees ((fun s => (step_id s, depends_on s)) <$> steps))
  = step_id <$> filter (λ s, depends_on s = []) steps.
Proof.
  unfold degrees.
  induction steps as [|s steps IH]; [done|]. rewrite !fmap_cons.
  unfold prod_map at 1. simpl. rewrite initial_queue_cons, IH.
  destruct (decide (depends_on s = [])) as [Hdeps|Hdeps].
  - rewrite (filter_cons_True _ s) by done. by rewrite Hdeps.
  - rewrite (filter_cons_False _ s) by done.
    rewrite decide_False; [done|].
    destruct (depends_on s); [done | simpl; lia].
Qed.

(** X11: the order [_topological_sort] returns starts with the steps that
    depend on nothing, in the order the workflow lists them; every step
    with a dependency comes after all of them. *)
Theorem topological_sort_independent_first (steps : list WorkflowStep)
    (order : list string) :
  Topo._topological_sort steps = Some (Ok order) →
  ∃ tail,
    order = (step_id <$> filter (λ s, depends_on s = []) steps) ++ tail.
Proof.
  intros Hsort.
  destruct (topological_sort_Ok_ids _ _ Hsort) as [Hids _].
  destruct (topological_sort_run steps) as (ind & sorted & Hdrain & _).
  unfold Topo._topological_sort in Hsort. rewrite Hdrain in Hsort.
  destruct (decide _); [done|]. injection Hsort as <-.
  apply drain_prefix in Hdrain as [tail ->]. exists tail. simpl.
  rewrite build_in_degree_degrees, build_graph_unique by done.
  by rewrite initial_queue_steps.
Qed.

Lemma topological_sort_independent_first_witness :
  let a := Example.step "a" TASK ["c"] 0 OnFail None None in
  let b := Example.step "b" TASK [] 0 OnFail None None in
  let c := Example.step "c" TASK [] 0 OnFail None None in
  ∃ tail, ["b"; "c"; "a"] = (step_id <$> [b; c]) ++ tail.
Proof.
  intros a b c.
  exact (topological_sort_independent_first [a; b; c] ["b"; "c"; "a"] eq_refl).
Defined.

(** ** Further properties of a workflow step *)

Section MoreAttempts.
Context `{PyText} `{Runtime}.
Variables (agent : BaseAgent) (prompt : string) (context : AgentContext)
  (bound : Z).

Local Abbreviation attempts fuel retries last st :=
  (Orchestrator.attempts fuel agent prompt context bound retries last st).
Local Abbreviation executions n w :=
  (executions agent prompt context (Some bound) n w).
Local Abbreviation after st w n := (after_calls st w n agent prompt).

Lemma attempts_budget retries last st :
  ∃ exit w m,
    attempts (Z.to_nat (retries + 1)) retries last st = Some (exit, after st w m)
    ∧ m ≤ Z.to_nat (retries + 1).
Proof.
  destruct (decide (0 ≤ retries)%Z) as [Hr|Hr].
  - destruct (attempts_bound agent prompt context bound
                (Z.to_nat (retries + 1)) (Z.to_nat (retries + 1))
                last st ltac:(done)) as (exit & w & m & Hrun & Hm).
    replace (Z.of_nat (Z.to_nat (retries + 1)) - 1)%Z with retries in Hrun by lia.
    by exists exit, w, m.
  - exists (Orchestrator.AttemptsExhausted last), (Orchestrator.world st), 0.
    rewrite after_calls_zero. split; [|lia].
    destruct (Z.to_nat (retries + 1)); simpl; by rewrite decide_False.
Qed.

Lemma attempts_negative fuel retries last st :
  (retries < 0)%Z →
  attempts fuel retries last st = Some (Orchestrator.AttemptsExhausted last, st).
Proof. intros Hr. destruct fuel; simpl; by rewrite decide_False by lia. Qed.

Lemma attempts_raised k : ∀ n fuel last st rs wk e w',
  k < n → n ≤ fuel →
  executions k (Orchestrator.world st) = (rs, wk) →
  all_retried rs →
  execute agent prompt context (Some bound) wk = (Raise e, w') →
  e ≠ TimeoutError →
  attempts fuel (Z.of_nat n - 1)%Z last st
  = Some (Orchestrator.AttemptRaised e, after st w' (S k)).
Proof.
  induction k as [|k IH]; intros n fuel last st rs wk e w' Hk Hfuel Hex Hall Hrun He.
  - simpl in Hex. injection Hex as <- <-.
    destruct fuel as [|fuel]; [lia|]. cbn [Orchestrator.attempts].
    rewrite decide_True by lia. rewrite call_execute_after, Hrun. simpl.
    by destruct e.
  - destruct n as [|n]; [lia|]. destruct fuel as [|fuel]; [lia|].
    cbn [Orchestrator.attempts]. rewrite decide_True by lia.
    rewrite call_execute_after.
    replace (Z.of_nat (S n) - 1 - 1)%Z with (Z.of_nat n - 1)%Z by lia.
    simpl in Hex.
    destruct (execute agent prompt context (Some bound) (Orchestrator.world st))
      as [r w1].
    destruct (executions k w1) as [rs' w2] eqn:Hrest.
    injection Hex as <- <-.
    apply Forall_cons in Hall as [[err Herr] Hall]. simpl.
    destruct r as [r|e0].
    + unfold attempt_error in Herr. destruct (decide (res_status r = COMPLETED)); [done|].
      erewrite IH; eauto; [|lia..]. by rewrite after_calls_succ.
    + destruct e0; try done.
      erewrite IH; eauto; [|lia..]. by rewrite after_calls_succ.
Qed.
End MoreAttempts.

Section MoreSteps.
Context `{PyText} `{Runtime}.
Variables (agents : Registry.t) (execution : WorkflowExecution)
  (context : AgentContext) (workflow_input : list (string * pyval)).

Local Abbreviation run step st :=
  (Orchestrator._execute_workflow_step agents step execution context
     workflow_input st).
Local Abbreviation prompt_of step :=
  (Orchestrator.step_prompt step
     (Template._resolve_references (ex_step_results execution) workflow_input
        (step_input step))).
Local Abbreviation bound_of step :=
  (Orchestrator.timeout_or_default (step_timeout step)).

(** What every execution of a step gives: the result carries the id and
    the provider type of the step, it is completed or failed, and the
    provider calls made are no more than the attempts allowed. *)
Lemma execute_workflow_step_facts step st :
  ∃ res st' new,
    run step st = Some (res, st') ∧
    Orchestrator.calls st' = Orchestrator.calls st ++ new ∧
    length new ≤ Z.to_nat (step_retries step + 1) ∧
    Orchestrator.active_workflows st' = Orchestrator.active_workflows st ∧
    sr_step_id res = step_id step ∧
    sr_agent_type res = step_agent step ∧
    (sr_status res = StepCompleted ∨ sr_status res = StepFailed).
Proof.
  unfold Orchestrator._execute_workflow_step.
  destruct (Registry.get (step_agent step) agents) as [agent|].
  - destruct (attempts_budget agent (prompt_of step) context (bound_of step)
                (step_retries step) None st) as (exit & w & m & -> & Hm).
    eexists _, _, _. split; [reflexivity|]. split; [reflexivity|].
    rewrite length_replicate. split; [done|].
    split; [done|]. destruct exit; simpl; auto.
  - eexists _, _, []. split; [reflexivity|]. rewrite app_nil_r. simpl.
    split_and!; auto. lia.
Qed.

(** X12: an exception of a provider execution other than a timeout ends the
    attempts of a step at once, whatever retries remain: the step fails with
    the text of the exception as its error, after the attempts that timed
    out or returned without completing and the one that raised. *)
Theorem step_exception_not_retried step st agent k rs wk e w' :
  Registry.get (step_agent step) agents = Some agent →
  (Z.of_nat k ≤ step_retries step)%Z →
  executions agent (prompt_of step) context (Some (bound_of step)) k
    (Orchestrator.world st) = (rs, wk) →
  all_retried rs →
  execute agent (prompt_of step) context (Some (bound_of step)) wk
  = (Raise e, w') →
  e ≠ TimeoutError →
  ∃ res,
    run step st
    = Some (res, after_calls st w' (S k) agent (prompt_of step)) ∧
    sr_status res = StepFailed ∧
    sr_output res = None ∧
    sr_error res = Some (exn_str e).
Proof.
  intros Hagent Hk Hex Hall Hrun He.
  unfold Orchestrator._execute_workflow_step. rewrite Hagent.
  set (allowed := Z.to_nat (step_retries step + 1)).
  assert (step_retries step = Z.of_nat allowed - 1)%Z as Hretries
    by (subst allowed; lia).
  rewrite Hretries.
  erewrite attempts_raised; eauto; try (subst allowed; lia).
Qed.

(** X13: a step whose retry count is negative makes no attempt at all: its
    provider is not called and the step fails with no error text. *)
Theorem step_negative_retries step st agent :
  Registry.get (step_agent step) agents = Some agent →
  (step_retries step < 0)%Z →
  ∃ res,
    run step st = Some (res, st) ∧
    sr_status res = StepFailed ∧
    sr_error res = None ∧
    sr_output res = None.
Proof.
  intros Hagent Hr. unfold Orchestrator._execute_workflow_step.
  rewrite Hagent, attempts_negative by done. by eexists.
Qed.
End MoreSteps.

Lemma step_exception_not_retried_witness :
  ∃ res,
    @Orchestrator._execute_workflow_step Example.text Example.runtime
Example.agents (Example.step "s" GRANT [] 3 OnFail None None)
Example.execution0 Example.context [] Example.state0
= Some (res,
      @after_calls Example.runtime Example.state0 1%nat 1 Example.broken
        "Execute action 'run' with parameters: {'q': ''}")
∧ sr_status res = StepFailed
∧ sr_output res = None
∧ sr_error res = Some "backend down".
Proof.
  refine (@step_exception_not_retried Example.text Example.runtime
Example.agents Example.execution0 Example.context []
(Example.step "s" GRANT [] 3 OnFail None None) Example.state0
Example.broken 0 [] 0%nat (OtherError "backend down") 1%nat
eq_refl _ eq_refl _ eq_refl _).
- simpl. lia.
- constructor.
- discriminate.
Defined.

Lemma step_negative_retries_witness :
  ∃ res,
    @Orchestrator._execute_workflow_step Example.text Example.runtime
Example.agents (Example.step "s" PLANNER [] (-1) OnFail None None)
Example.execution0 Example.context [] Example.state0
= Some (res, Example.state0)
∧ sr_status res = StepFailed
∧ sr_error res = None
∧ sr_output res = None.
Proof.
  refine (@step_negative_retries Example.text Example.runtime
Example.agents Example.execution0 Example.context []
(Example.step "s" PLANNER [] (-1) OnFail None None) Example.state0
Example.steady eq_refl _).
simpl. lia.
Defined.

(** ** Dependencies *)

Lemma dependencies_satisfied_loop_inv deps results :
  Orchestrator._dependencies_satisfied_loop deps results = true →
  ∀ d, d ∈ deps →
    ∃ r, PyDict.get d results = Some r ∧
         (sr_status r = StepCompleted ∨ sr_status r = StepSkipped).
Proof.
  induction deps as [|d deps IH]; simpl; intros Hloop d' Hd'.
  - by apply elem_of_nil in Hd'.
  - destruct (PyDict.get d results) as [r|] eqn:Hget; [|done].
    case_bool_decide as Hst; [|done].
    apply elem_of_cons in Hd' as [->|Hd']; [|by apply IH].
    exists r. split; [done|].
    rewrite !elem_of_cons in Hst. destruct Hst as [?|[?|Hnil]]; auto.
    by apply elem_of_nil in Hnil.
Qed.

(** X14: [_dependencies_satisfied] holds of a step exactly when every id
    in its [depends_on] has a recorded result that is completed or
    skipped; a dependency with no result, or with a failed one, makes it
    false. *)
Theorem dependencies_satisfied_iff (step : WorkflowStep)
    (execution : WorkflowExecution) :
  Orchestrator._dependencies_satisfied step execution = true
  ↔ ∀ d, d ∈ depends_on step →
      ∃ r, PyDict.get d (ex_step_results execution) = Some r ∧
           (sr_status r = StepCompleted ∨ sr_status r = StepSkipped).
Proof.
  unfold Orchestrator._dependencies_satisfied. split.
  - apply dependencies_satisfied_loop_inv.
  - apply dependencies_satisfied_loop_true.
Qed.

(** ** The whole run of a workflow *)

Section WorkflowRun.
Context `{PyText} `{Runtime}.
Variables (agents : Registry.t) (request : OrchestrateRequest)
  (context : AgentContext).

Local Abbreviation steps := (wf_steps (or_workflow request)).
Local Abbreviation find_step sid :=
  (List.find (fun s => bool_decide (step_id s = sid)) steps).
Local Abbreviation run_step := (Orchestrator.run_step agents request context).
Local Abbreviation run_steps := (Orchestrator.run_steps agents request context).

Lemma find_step_Some sid step :
  find_step sid = Some step → step ∈ steps ∧ step_id step = sid.
Proof.
  intros [Hin Hid]%List.find_some. split.
  - by apply list_elem_of_In.
  - by apply bool_decide_eq_true_1 in Hid.
Qed.

Lemma find_step_ids sid :
  sid ∈ step_id <$> steps → ∃ step, find_step sid = Some step.
Proof.
  intros (s & -> & Hs)%list_elem_of_fmap.
  destruct (find_step (step_id s)) as [step|] eqn:Hfind; [by eexists|].
  apply list_elem_of_In in Hs.
  pose proof (List.find_none _ _ Hfind s Hs) as Hno. simpl in Hno.
  by rewrite bool_decide_eq_true_2 in Hno.
Qed.

Lemma find_step_unique step :
  NoDup (step_id <$> steps) → step ∈ steps →
  find_step (step_id step) = Some step.
Proof.
  generalize steps. intros l. induction l as [|s l IH]; intros Hnd Hin.
  - by apply elem_of_nil in Hin.
  - rewrite fmap_cons in Hnd. apply NoDup_cons in Hnd as [Hs Hnd]. simpl.
    case_bool_decide as Heq.
    + apply elem_of_cons in Hin as [->|Hin]; [done|].
      destruct Hs. rewrite Heq. apply list_elem_of_fmap. by exists step.
    + apply elem_of_cons in Hin as [->|Hin]; [done|]. by apply IH.
Qed.

(** [orchestrate] in terms of the loop over the sorted ids. *)
Lemma orchestrate_run st order raised final st2 :
  Topo._topological_sort steps = Some (Ok order) →
  let execution_id := (uuid4 (Orchestrator.world st)).1 in
  let st0 := Orchestrator.with_world (uuid4 (Orchestrator.world st)).2 st in
  let initial :=
    Orchestrator.new_execution execution_id (or_workflow request) context
      (utcnow (Orchestrator.world st0)) in
  run_steps order initial (Orchestrator.publish initial st0)
  = Some (raised, final, st2) →
  ∃ st',
    Orchestrator.orchestrate agents request context st
    = Some ({| resp_execution_id := execution_id;
               resp_status := if raised is Some _ then RunFailed else RunCompleted;
               resp_results := ex_step_results final;
               resp_error := exn_str <$> raised |}, st')
    ∧ Orchestrator.calls st' = Orchestrator.calls st2.
Proof.
  intros Hsort execution_id st0 initial Hrun.
  unfold Orchestrator.orchestrate, Orchestrator.fresh_uuid.
  subst execution_id st0 initial.
  destruct (uuid4 (Orchestrator.world st)) as [execution_id w0]. simpl in *.
  unfold Orchestrator.run_workflow. rewrite Hsort, Hrun. by eexists.
Qed.

(** *** The provider calls of a run *)

Local Abbreviation budget_of sid :=
  (match find_step sid with Some s => call_budget s | None => 0 end).

Lemma fallback_step_budget step fb :
  Z.to_nat (step_retries (Orchestrator.fallback_step step fb) + 1) = 1.
Proof. done. Qed.

Lemma run_step_calls sid execution st :
  ∃ raised execution' st' new,
    run_step sid execution st = Some (raised, execution', st') ∧
    Orchestrator.calls st' = Orchestrator.calls st ++ new ∧
    length new ≤ budget_of sid.
Proof.
  unfold Orchestrator.run_step.
  destruct (find_step sid) as [step|];
    [|eexists _, _, _, []; by rewrite app_nil_r].
  destruct (negb _).
  { destruct (decide _); eexists _, _, _, []; rewrite app_nil_r;
      (split_and!; [done | done | simpl; lia]). }
  destruct (Orchestrator.condition_fails _ _ _).
  { eexists _, _, _, []; rewrite app_nil_r. split_and!; [done | done | simpl; lia]. }
  destruct (execute_workflow_step_facts agents
              (Orchestrator.set_current_step sid execution) context
              (or_input request) step st)
    as (res & st1 & new & -> & Hcalls & Hlen & _).
  unfold call_budget.
  destruct (decide (sr_status res = StepFailed)).
  2:{ eexists _, _, _, new. split_and!; [done | done | lia]. }
  destruct (on_error step), (fallback_agent step) as [fb|];
    try (eexists _, _, _, new; split_and!; [done | done | lia]).
  destruct (execute_workflow_step_facts agents
              (Orchestrator.record_result sid res
                 (Orchestrator.set_current_step sid execution))
              context (or_input request)
              (Orchestrator.fallback_step step fb) st1)
    as (res2 & st2 & new2 & -> & Hcalls2 & Hlen2 & _).
  rewrite fallback_step_budget in Hlen2.
  eexists _, _, _, (new ++ new2). split_and!; [done | |].
  - by rewrite Hcalls2, Hcalls, <- app_assoc.
  - rewrite length_app. lia.
Qed.

Lemma run_steps_calls order : ∀ execution st,
  ∃ raised execution' st' new,
    run_steps order execution st = Some (raised, execution', st') ∧
    Orchestrator.calls st' = Orchestrator.calls st ++ new ∧
    length new ≤ sum_list_with (λ sid, budget_of sid) order.
Proof.
  induction order as [|sid order IH]; intros execution st; simpl.
  - eexists _, _, _, []. by rewrite app_nil_r.
  - destruct (run_step_calls sid execution st)
      as (raised & e1 & st1 & new & -> & Hcalls & Hlen).
    destruct raised as [e|].
    + eexists _, _, _, new. split_and!; [done | done | lia].
    + destruct (IH e1 (Orchestrator.publish e1 st1))
        as (raised & e2 & st2 & new2 & -> & Hcalls2 & Hlen2).
      eexists _, _, _, (new ++ new2). split_and!; [done | |].
      * simpl in Hcalls2. by rewrite Hcalls2, Hcalls, <- app_assoc.
      * rewrite length_app. lia.
Qed.

Lemma budget_of_steps :
  NoDup (step_id <$> steps) →
  sum_list_with (λ sid, budget_of sid) (step_id <$> steps)
  = sum_list_with call_budget steps.
Proof.
  intros Hnd.
  assert (∀ l, l ⊆ steps →
            sum_list_with (λ sid, budget_of sid) (step_id <$> l)
            = sum_list_with call_budget l) as Hsub.
  { induction l as [|s l IH]; intros Hl; [done|]. csimpl.
    rewrite find_step_unique by (done || apply Hl; left).
    rewrite IH; [done|]. intros x Hx. apply Hl. by right. }
  by apply Hsub.
Qed.

(** X15: every call of [orchestrate] returns, and the provider calls it
    makes are no more than the workflow allows: for each step one call per
    attempt (the retries and one) and one more when the step has the
    fallback policy and a fallback provider. *)
Theorem orchestrate_call_budget (st : Orchestrator.State) :
  ∃ resp st' new,
    Orchestrator.orchestrate agents request context st = Some (resp, st') ∧
    Orchestrator.calls st' = Orchestrator.calls st ++ new ∧
    length new ≤ sum_list_with call_budget steps.
Proof.
  destruct (topological_sort_total steps) as [[order|e] Hsort].
  - destruct (topological_sort_Ok_ids _ _ Hsort) as [Hids Hperm].
    set (execution_id := (uuid4 (Orchestrator.world st)).1).
    set (st0 := Orchestrator.with_world (uuid4 (Orchestrator.world st)).2 st).
    set (initial :=
           Orchestrator.new_execution execution_id (or_workflow request) context
             (utcnow (Orchestrator.world st0))).
    destruct (run_steps_calls order initial (Orchestrator.publish initial st0))
      as (raised & final & st2 & new & Hrun & Hcalls & Hlen).
    destruct (orchestrate_run st order raised final st2 Hsort Hrun)
      as (st' & Horch & Hsame).
    eexists _, st', new. split; [exact Horch|]. split.
    + by rewrite Hsame, Hcalls.
    + rewrite <- budget_of_steps by done. by rewrite <- Hperm.
  - unfold Orchestrator.orchestrate, Orchestrator.fresh_uuid.
    destruct (uuid4 (Orchestrator.world st)) as [execution_id w0]. simpl.
    unfold Orchestrator.run_workflow. rewrite Hsort.
    eexists _, _, []. split; [reflexivity|]. simpl.
    rewrite app_nil_r. split; [done|lia].
Qed.
End WorkflowRun.

(** ** What a run records *)

Lemma set_set {K} `{EqDecision K} {V} (d : PyDict.t K V) k v v' :
  PyDict.set k v' (PyDict.set k v d) = PyDict.set k v' d.
Proof.
  induction d as [|[k0 v0] d IH]; simpl.
  - by rewrite decide_True.
  - destruct (decide (k = k0)) as [->|Hne]; simpl.
    + by rewrite decide_True.
    + rewrite decide_False by done. f_equal. apply IH.
Qed.

Section RunRecords.
Context `{PyText} `{Runtime}.
Variables (agents : Registry.t) (request : OrchestrateRequest)
  (context : AgentContext).

Local Abbreviation steps := (wf_steps (or_workflow request)).
Local Abbreviation find_step sid :=
  (List.find (fun s => bool_decide (step_id s = sid)) steps).
Local Abbreviation run_step := (Orchestrator.run_step agents request context).
Local Abbreviation run_steps := (Orchestrator.run_steps agents request context).
Local Abbreviation good r :=
  (sr_status r = StepCompleted ∨ sr_status r = StepSkipped).

Local Abbreviation raised_by := (raised_by request).

Lemma results_sound_set results sid step r :
  results_sound request results →
  PyDict.get sid results = None →
  find_step sid = Some step →
  recorded_for step r →
  (∀ d, d ∈ depends_on step → ∃ rd, PyDict.get d results = Some rd ∧ good rd) →
  results_sound request (PyDict.set sid r results).
Proof.
  intros Hinv Hnone Hfind Hrec Hdeps k r0 Hget.
  assert (∀ d rd, PyDict.get d results = Some rd →
            PyDict.get d (PyDict.set sid r results) = Some rd) as Hkeep.
  { intros d rd Hd. rewrite get_set_ne; [done|]. intros <-. congruence. }
  destruct (decide (sid = k)) as [<-|Hne].
  - rewrite get_set_eq in Hget. injection Hget as <-.
    exists step. split_and!; [done..|].
    intros d Hd. destruct (Hdeps d Hd) as (rd & Hrd & Hgood). eauto.
  - rewrite get_set_ne in Hget by done.
    destruct (Hinv k r0 Hget) as (step0 & Hfind0 & Hrec0 & Hdeps0).
    exists step0. split_and!; [done..|].
    intros d Hd. destruct (Hdeps0 d Hd) as (rd & Hrd & Hgood). eauto.
Qed.

Lemma run_step_sound sid execution st raised execution' st' :
  PyDict.get sid (ex_step_results execution) = None →
  results_sound request (ex_step_results execution) →
  run_step sid execution st = Some (raised, execution', st') →
  results_sound request (ex_step_results execution')
  ∧ (∀ k, k ≠ sid →
       PyDict.get k (ex_step_results execution')
       = PyDict.get k (ex_step_results execution))
  ∧ match raised with
    | None => True
    | Some exn =>
        find_step sid = None
        ∨ ∃ step, find_step sid = Some step ∧
                  raised_by sid step (ex_step_results execution') exn
    end.
Proof.
  intros Hnone Hinv. unfold Orchestrator.run_step.
  destruct (find_step sid) as [step|] eqn:Hfind;
    [|intros [= <- <- <-]; split_and!; auto].
  pose proof (find_step_Some request sid step Hfind) as [Hin Hid].
  destruct (Orchestrator._dependencies_satisfied step
              (Orchestrator.set_current_step sid execution)) eqn:Hsat; simpl.
  2:{ destruct (decide _) as [Hmode|Hmode]; intros [= <- <- <-]; simpl;
        (split_and!; [done | done |]); [|done].
      right. exists step. split; [done|]. left. by split_and!. }
  pose proof (dependencies_satisfied_loop_inv _ _ Hsat) as Hdeps.
  simpl in Hdeps. clear Hsat.
  assert (∀ r, recorded_for step r →
            results_sound request (PyDict.set sid r (ex_step_results execution)))
    as Hrecord.
  { intros r Hr. by apply (results_sound_set _ sid step). }
  assert (∀ r k, k ≠ sid →
            PyDict.get k (PyDict.set sid r (ex_step_results execution))
            = PyDict.get k (ex_step_results execution)) as Hone
    by (intros r k Hk; by rewrite get_set_ne).
  destruct (Orchestrator.condition_fails _ _ _).
  { intros [= <- <- <-]. simpl. split_and!; [|by apply Hone|done].
    apply Hrecord. left. simpl. split_and!; [done | done |].
    rewrite !elem_of_cons. auto. }
  destruct (execute_workflow_step_facts agents
              (Orchestrator.set_current_step sid execution) context
              (or_input request) step st)
    as (res & st1 & new & -> & _ & _ & _ & Hrid & Hrty & Hrst).
  assert (recorded_for step res) as Hres.
  { left. split_and!; [done | done |]. rewrite !elem_of_cons. tauto. }
  destruct (decide (sr_status res = StepFailed)) as [Hfailed|].
  2:{ intros [= <- <- <-]. simpl. split_and!; [by apply Hrecord|by apply Hone|done]. }
  destruct (on_error step) eqn:Hpolicy.
  - intros [= <- <- <-]. simpl.
    split_and!; [by apply Hrecord | by apply Hone |].
    right. exists step. split; [done|]. right. split; [done|].
    exists res. by rewrite get_set_eq.
  - destruct (fallback_agent step);
      intros [= <- <- <-]; simpl;
      (split_and!; [by apply Hrecord | by apply Hone | done]).
  - destruct (fallback_agent step) as [fb|] eqn:Hfb.
    2:{ intros [= <- <- <-]. simpl.
        split_and!; [by apply Hrecord | by apply Hone | done]. }
    destruct (execute_workflow_step_facts agents
                (Orchestrator.record_result sid res
                   (Orchestrator.set_current_step sid execution))
                context (or_input request)
                (Orchestrator.fallback_step step fb) st1)
      as (res2 & st2 & new2 & -> & _ & _ & _ & Hrid2 & Hrty2 & Hrst2).
    intros [= <- <- <-]. simpl. rewrite set_set.
    split_and!; [|by apply Hone|done].
    apply Hrecord. right. simpl in Hrid2, Hrty2.
    split_and!; [done | by rewrite Hrty2 | by rewrite Hrid2, Hid |].
    rewrite !elem_of_cons. tauto.
Qed.

Lemma run_steps_sound order : ∀ execution st raised execution' st',
  NoDup order →
  (∀ sid, sid ∈ order → is_Some (find_step sid)) →
  (∀ sid, sid ∈ order → PyDict.get sid (ex_step_results execution) = None) →
  results_sound request (ex_step_results execution) →
  run_steps order execution st = Some (raised, execution', st') →
  results_sound request (ex_step_results execution')
  ∧ match raised with
    | None => True
    | Some exn =>
        ∃ sid step, sid ∈ order ∧ find_step sid = Some step ∧
                    raised_by sid step (ex_step_results execution') exn
    end.
Proof.
  induction order as [|sid order IH];
    intros execution st raised execution' st' Hnd Hfind Hnone Hinv; simpl.
  - by intros [= <- <- <-].
  - apply NoDup_cons in Hnd as [Hsid Hnd].
    destruct (run_step sid execution st) as [[[raised1 e1] st1]|] eqn:Hstep;
      [|done].
    destruct (run_step_sound sid execution st raised1 e1 st1
                (Hnone sid ltac:(left)) Hinv Hstep) as (Hinv1 & Hone & Hraised).
    destruct raised1 as [exn|].
    + intros [= <- <- <-]. split; [done|].
      destruct Hraised as [Hno|(step & Hstepfind & Hby)].
      * destruct (Hfind sid ltac:(left)) as [? ?]. congruence.
      * exists sid, step. split_and!; [left | done | done].
    + intros Hrest.
      destruct (IH e1 (Orchestrator.publish e1 st1) raised execution' st' Hnd)
        as (Hinv' & Hraised'); try done.
      * intros sid' Hin. apply Hfind. by right.
      * intros sid' Hin. rewrite Hone by (intros ->; done).
        apply Hnone. by right.
      * split; [done|]. destruct raised as [exn|]; [|done].
        destruct Hraised' as (sid' & step & Hin & Hstepfind & Hby).
        exists sid', step. split_and!; [by right | done | done].
Qed.

(** The run of [orchestrate] on a workflow that sorts. *)
Lemma orchestrate_sound st order :
  Topo._topological_sort steps = Some (Ok order) →
  ∃ resp st' raised,
    Orchestrator.orchestrate agents request context st = Some (resp, st') ∧
    resp_status resp = (if raised is Some _ then RunFailed else RunCompleted) ∧
    resp_error resp = exn_str <$> raised ∧
    results_sound request (resp_results resp) ∧
    match raised with
    | None => True
    | Some exn =>
        ∃ sid step, sid ∈ order ∧ find_step sid = Some step ∧
                    raised_by sid step (resp_results resp) exn
    end.
Proof.
  intros Hsort.
  destruct (topological_sort_Ok_NoDup _ _ Hsort) as [Hnd Hsub].
  set (execution_id := (uuid4 (Orchestrator.world st)).1).
  set (st0 := Orchestrator.with_world (uuid4 (Orchestrator.world st)).2 st).
  set (initial :=
         Orchestrator.new_execution execution_id (or_workflow request) context
           (utcnow (Orchestrator.world st0))).
  destruct (run_steps_total agents request context order initial
              (Orchestrator.publish initial st0))
    as (raised & final & st2 & Hrun & _).
  assert (∀ sid, sid ∈ order → is_Some (find_step sid)) as Hfind.
  { intros sid Hin. destruct (find_step_ids request sid (Hsub sid Hin)) as [s Hs].
    by exists s. }
  assert (results_sound request (ex_step_results initial)) as Hinit
    by (by intros k r).
  destruct (run_steps_sound order initial (Orchestrator.publish initial st0)
              raised final st2 Hnd Hfind ltac:(done) Hinit Hrun)
    as (Hinv & Hraised).
  destruct (orchestrate_run agents request context st order raised final st2
              Hsort Hrun) as (st' & Horch & _).
  eexists _, st', raised. split; [exact Horch|]. by split_and!.
Qed.

(** X16: the results [orchestrate] returns are keyed by ids of steps of
    the workflow, and an entry is either the result of the step itself
    (completed, failed or skipped, with the id and the provider type of the
    step) or, for a step with the fallback policy, the result of its
    fallback, which carries the id of the step followed by [_fallback] and
    the type of the fallback provider. *)
Theorem orchestrate_results_recorded (st : Orchestrator.State) :
  ∃ resp st',
    Orchestrator.orchestrate agents request context st = Some (resp, st') ∧
    ∀ k r, PyDict.get k (resp_results resp) = Some r →
      ∃ step, step ∈ steps ∧ step_id step = k ∧ recorded_for step r.
Proof.
  destruct (topological_sort_total steps) as [[order|e] Hsort].
  - destruct (orchestrate_sound st order Hsort)
      as (resp & st' & raised & Horch & _ & _ & Hinv & _).
    exists resp, st'. split; [done|]. intros k r Hget.
    destruct (Hinv k r Hget) as (step & Hfind & Hrec & _).
    apply find_step_Some in Hfind as [Hin Hid]. by exists step.
  - unfold Orchestrator.orchestrate, Orchestrator.fresh_uuid.
    destruct (uuid4 (Orchestrator.world st)) as [execution_id w0]. simpl.
    unfold Orchestrator.run_workflow. rewrite Hsort.
    eexists _, _. split; [reflexivity|]. by intros k r.
Qed.

(** X17: in the results [orchestrate] returns, every dependency of a step
    that has a result has itself a result that is completed or skipped: a
    step is never run or skipped by its condition while one of its
    dependencies failed or has no result. *)
Theorem orchestrate_results_dependency_closed (st : Orchestrator.State) :
  ∃ resp st',
    Orchestrator.orchestrate agents request context st = Some (resp, st') ∧
    ∀ step r d,
      step ∈ steps →
      PyDict.get (step_id step) (resp_results resp) = Some r →
      d ∈ depends_on step →
      ∃ rd, PyDict.get d (resp_results resp) = Some rd ∧
            (sr_status rd = StepCompleted ∨ sr_status rd = StepSkipped).
Proof.
  destruct (topological_sort_total steps) as [[order|e] Hsort].
  - destruct (orchestrate_sound st order Hsort)
      as (resp & st' & raised & Horch & _ & _ & Hinv & _).
    destruct (topological_sort_Ok_ids _ _ Hsort) as [Hids _].
    exists resp, st'. split; [done|]. intros step r d Hin Hget Hd.
    destruct (Hinv _ r Hget) as (step' & Hfind & _ & Hdeps).
    rewrite (find_step_unique request step Hids Hin) in Hfind.
    injection Hfind as <-. by apply Hdeps.
  - unfold Orchestrator.orchestrate, Orchestrator.fresh_uuid.
    destruct (uuid4 (Orchestrator.world st)) as [execution_id w0]. simpl.
    unfold Orchestrator.run_workflow. rewrite Hsort.
    eexists _, _. split; [reflexivity|]. by intros step r d.
Qed.

(** X18: [orchestrate] ends completed, with no error, or failed, with one
    of three messages: the circular-dependency error when the sort refuses
    the steps, nothing being recorded; in a fail-fast workflow, that the
    dependencies of a step are not satisfied, the step having no result;
    or that a step whose error policy is [fail] has failed, with the error
    of its recorded result. *)
Theorem orchestrate_failure_messages (st : Orchestrator.State) :
  ∃ resp st',
    Orchestrator.orchestrate agents request context st = Some (resp, st') ∧
    ((resp_status resp = RunCompleted ∧ resp_error resp = None)
     ∨ (resp_status resp = RunFailed ∧
        ∃ message,
          resp_error resp = Some message ∧
          failure_message request (resp_results resp) message)).
Proof.
  destruct (topological_sort_verdict steps) as (ind & sorted & _ & Hsort).
  destruct (decide (length sorted ≠ length steps)).
  - unfold Orchestrator.orchestrate, Orchestrator.fresh_uuid.
    destruct (uuid4 (Orchestrator.world st)) as [execution_id w0]. simpl.
    unfold Orchestrator.run_workflow. rewrite Hsort.
    eexists _, _. split; [reflexivity|]. right. simpl. split; [done|].
    eexists. split; [done|]. by left.
  - destruct (orchestrate_sound st sorted Hsort)
      as (resp & st' & raised & Horch & Hstatus & Herror & _ & Hraised).
    exists resp, st'. split; [done|]. destruct raised as [exn|]; [|by left].
    right. split; [done|].
    destruct Hraised as (sid & step & _ & Hfind & Hby).
    apply find_step_Some in Hfind as [Hin <-].
    exists (exn_str exn). split; [done|].
    destruct Hby as [(Hmode & Hnone & ->)|(Hpolicy & r & Hget & Hfailed & ->)].
    + right. left. split; [done|]. by exists step.
    + right. right. by exists step, r.
Qed.

(** X19: a workflow that sorts, is not fail-fast and has no step whose
    error policy is [fail] always ends completed, whatever its providers
    do. *)
Theorem orchestrate_never_fails (st : Orchestrator.State) (order : list string) :
  Topo._topological_sort steps = Some (Ok order) →
  wf_error_handling (or_workflow request) ≠ FailFast →
  (∀ step, step ∈ steps → on_error step ≠ OnFail) →
  ∃ resp st',
    Orchestrator.orchestrate agents request context st = Some (resp, st') ∧
    resp_status resp = RunCompleted ∧
    resp_error resp = None.
Proof.
  intros Hsort Hmode Hpolicy.
  destruct (orchestrate_sound st order Hsort)
    as (resp & st' & raised & Horch & Hstatus & Herror & _ & Hraised).
  exists resp, st'. split; [done|]. destruct raised as [exn|]; [|done].
  destruct Hraised as (sid & step & _ & Hfind & Hby).
  apply find_step_Some in Hfind as [Hin _].
  destruct Hby as [(? & _)|(? & _)]; [done | by destruct (Hpolicy step Hin)].
Qed.
End RunRecords.

Lemma orchestrate_never_fails_witness :
  ∃ resp st',
    @Orchestrator.orchestrate Example.text Example.runtime Example.agents
      (Example.request
         [Example.step "a" GRANT [] 0 OnSkip None None;
Example.step "b" RESEARCH ["a"] 1 OnFallback (Some GRANT) None])
Example.context Example.state0 = Some (resp, st') ∧
resp_status resp = RunCompleted ∧
resp_error resp = None.
Proof.
  refine (@orchestrate_never_fails Example.text Example.runtime Example.agents
            (Example.request
               [Example.step "a" GRANT [] 0 OnSkip None None;
Example.step "b" RESEARCH ["a"] 1 OnFallback (Some GRANT) None])
Example.context Example.state0 ["a"; "b"] eq_refl _ _).
- discriminate.
- intros step Hin.
repeat (apply elem_of_cons in Hin as [->|Hin]; [discriminate|]).
by apply elem_of_nil in Hin.
Defined.

(** ** Error policies of a step *)

Section Policies.
Context `{PyText} `{Runtime}.
Variables (agents : Registry.t) (request : OrchestrateRequest)
  (context : AgentContext).

Local Abbreviation steps := (wf_steps (or_workflow request)).
Local Abbreviation find_step sid :=
  (List.find (fun s => bool_decide (step_id s = sid)) steps).
Local Abbreviation run_steps := (Orchestrator.run_steps agents request context).

(** X20: when a step whose error policy is [fail] fails, the run stops
    there: [orchestrate] returns a failed response whose error names the
    step and carries the error of its result, the results are those
    recorded so far together with the failed one, and no provider is
    called after the attempts of that step, so the steps later in the
    order are neither run nor recorded. *)
Theorem fail_policy_aborts sid later step execution st primary st1 :
  find_step sid = Some step →
  let started := Orchestrator.set_current_step sid execution in
  Orchestrator._dependencies_satisfied step started = true →
  Orchestrator.condition_fails step started (or_input request) = false →
  Orchestrator._execute_workflow_step agents step started context
    (or_input request) st = Some (primary, st1) →
  sr_status primary = StepFailed →
  on_error step = OnFail →
  let recorded := Orchestrator.record_result sid primary started in
  let message :=
    "Step failed: " +:+ sid +:+ " - " +:+ PyVal.str_opt (sr_error primary) in
  run_steps (sid :: later) execution st
  = Some (Some (RuntimeError message), recorded,
          Orchestrator.publish recorded st1)
  ∧ ∀ start earlier,
      let '(execution_id, st0) := Orchestrator.fresh_uuid start in
      let initial :=
        Orchestrator.new_execution execution_id (or_workflow request) context
          (utcnow (Orchestrator.world st0)) in
      Topo._topological_sort steps = Some (Ok (earlier ++ sid :: later)) →
      run_steps earlier initial (Orchestrator.publish initial st0)
      = Some (None, execution, st) →
      ∃ resp st',
        Orchestrator.orchestrate agents request context start
        = Some (resp, st') ∧
        resp_status resp = RunFailed ∧
        resp_error resp = Some message ∧
        resp_results resp
        = PyDict.set sid primary (ex_step_results execution) ∧
        Orchestrator.calls st' = Orchestrator.calls st1.
Proof.
  intros Hfind started Hdeps Hcond Hprimary Hfailed Hpolicy recorded message.
  assert (run_steps (sid :: later) execution st
          = Some (Some (RuntimeError message), recorded,
                  Orchestrator.publish recorded st1)) as Hstop.
  { cbn [Orchestrator.run_steps]. unfold Orchestrator.run_step.
    rewrite Hfind. fold started. rewrite Hdeps, Hcond. simpl.
    rewrite Hprimary. rewrite decide_True by done. by rewrite Hpolicy. }
  split; [done|]. intros start earlier.
  destruct (Orchestrator.fresh_uuid start) as [execution_id st0] eqn:Hid.
  intros initial Hsort Hearlier.
  subst initial. unfold Orchestrator.orchestrate. rewrite Hid. cbv zeta.
  unfold Orchestrator.run_workflow. rewrite Hsort.
  rewrite run_steps_app, Hearlier, Hstop. by eexists _, _.
Qed.

(** X21: when a failed step has the policy [skip], or the policy
    [fallback] without a fallback provider, its failed result is recorded
    and the run goes on with the next step; the failed result is still the
    entry of that step when the run ends. *)
Theorem skip_policy_continues sid later step execution st primary st1 :
  find_step sid = Some step →
  let started := Orchestrator.set_current_step sid execution in
  Orchestrator._dependencies_satisfied step started = true →
  Orchestrator.condition_fails step started (or_input request) = false →
  Orchestrator._execute_workflow_step agents step started context
    (or_input request) st = Some (primary, st1) →
  sr_status primary = StepFailed →
  on_error step = OnSkip
  ∨ (on_error step = OnFallback ∧ fallback_agent step = None) →
  sid ∉ later →
  let recorded := Orchestrator.record_result sid primary started in
  run_steps (sid :: later) execution st
  = run_steps later recorded (Orchestrator.publish recorded st1)
  ∧ ∃ raised final st2,
      run_steps (sid :: later) execution st = Some (raised, final, st2) ∧
      PyDict.get sid (ex_step_results final) = Some primary.
Proof.
  intros Hfind started Hdeps Hcond Hprimary Hfailed Hpolicy Hlater recorded.
  assert (run_steps (sid :: later) execution st
          = run_steps later recorded (Orchestrator.publish recorded st1))
    as Hnext.
  { cbn [Orchestrator.run_steps]. unfold Orchestrator.run_step.
    rewrite Hfind. fold started. rewrite Hdeps, Hcond. simpl.
    rewrite Hprimary. rewrite decide_True by done.
    by destruct Hpolicy as [->|[-> ->]]; [destruct (fallback_agent step)|]. }
  split; [done|]. rewrite Hnext.
  destruct (run_steps_total agents request context later recorded
              (Orchestrator.publish recorded st1))
    as (raised & final & st2 & -> & _ & _ & Hkeep & _).
  exists raised, final, st2. split; [done|].
  rewrite Hkeep by done. simpl. apply get_set_eq.
Qed.
End Policies.

Lemma fail_policy_aborts_witness :
  let a := Example.step "a" GRANT [] 0 OnFail None None in
  let b := Example.step "b" PLANNER [] 0 OnFail None None in
  ∃ resp st',
    @Orchestrator.orchestrate Example.text Example.runtime Example.agents
      (Example.request [a; b]) Example.context Example.state0
    = Some (resp, st') ∧
    resp_status resp = RunFailed ∧
    resp_error resp = Some "Step failed: a - backend down" ∧
    PyDict.keys (resp_results resp) = ["a"] ∧
    Orchestrator.calls st'
    = [(GRANT, "Execute action 'run' with parameters: {'q': ''}")].
Proof.
  intros a b.
  pose (initial := Orchestrator.new_execution "id-0"
                     (or_workflow (Example.request [a; b])) Example.context 1).
  pose (st0 := @Orchestrator.publish Example.runtime initial
                 (@Orchestrator.with_world Example.runtime 1%nat Example.state0)).
  destruct (@fail_policy_aborts Example.text Example.runtime Example.agents
              (Example.request [a; b]) Example.context "a" ["b"] a initial st0
              {| sr_step_id := "a"; sr_status := StepFailed; sr_output := None;
                 sr_error := Some "backend down"; sr_execution_time_ms := 1;
                 sr_agent_type := GRANT |}
              (@after_calls Example.runtime st0 2%nat 1 Example.broken
                 "Execute action 'run' with parameters: {'q': ''}")
              eq_refl eq_refl eq_refl eq_refl eq_refl eq_refl)
    as [_ Hend].
  destruct (Hend Example.state0 [] eq_refl eq_refl)
    as (resp & st' & Horch & Hstatus & Herror & Hresults & Hcalls).
  exists resp, st'. split_and!; [exact Horch | exact Hstatus | exact Herror | |].
  - by rewrite Hresults.
  - exact Hcalls.
Defined.

Lemma skip_policy_continues_witness :
  let a := Example.step "a" GRANT [] 0 OnFallback None None in
  let b := Example.step "b" PLANNER [] 0 OnFail None None in
  ∃ raised final st2,
    @Orchestrator.run_steps Example.text Example.runtime Example.agents
      (Example.request [a; b]) Example.context ["a"; "b"] Example.execution0
Example.state0 = Some (raised, final, st2) ∧
(sr_status <$> PyDict.get "a" (ex_step_results final)) = Some StepFailed.
Proof.
  intros a b.
  destruct (@skip_policy_continues Example.text Example.runtime Example.agents
              (Example.request [a; b]) Example.context "a" ["b"] a
Example.execution0 Example.state0
{| sr_step_id := "a"; sr_status := StepFailed; sr_output := None;
   sr_error := Some "backend down"; sr_execution_time_ms := 1;
   sr_agent_type := GRANT |}
(@after_calls Example.runtime Example.state0 1%nat 1 Example.broken
   "Execute action 'run' with parameters: {'q': ''}")
eq_refl eq_refl eq_refl eq_refl eq_refl)
as [_ (raised & final & st2 & Hrun & Hget)].
- right. by split.
- intros Hin. apply elem_of_cons in Hin as [[=]|Hin].
by apply elem_of_nil in Hin.
- exists raised, final, st2. split; [exact Hrun|]. by rewrite Hget.
Defined.

(** ** The error handling of the workflow *)

Section Modes.
Context `{PyText} `{Runtime}.
Variables (agents : Registry.t) (context : AgentContext).
Variables (request request' : OrchestrateRequest).
Hypothesis same_id : wf_id (or_workflow request) = wf_id (or_workflow request').
Hypothesis same_steps :
  wf_steps (or_workflow request) = wf_steps (or_workflow request').
Hypothesis same_input : or_input request = or_input request'.
Hypothesis same_mode :
  wf_error_handling (or_workflow request) = FailFast
  ↔ wf_error_handling (or_workflow request') = FailFast.

Lemma run_step_modes sid execution st :
  Orchestrator.run_step agents request context sid execution st
  = Orchestrator.run_step agents request' context sid execution st.
Proof using same_steps same_input same_mode.
  unfold Orchestrator.run_step. rewrite <- same_steps, <- same_input.
  destruct (List.find _ _) as [step|]; [|done].
  destruct (negb _); [|done].
  destruct (decide (wf_error_handling (or_workflow request) = FailFast)),
    (decide (wf_error_handling (or_workflow request') = FailFast));
    try done; tauto.
Qed.

Lemma run_steps_modes order : ∀ execution st,
  Orchestrator.run_steps agents request context order execution st
  = Orchestrator.run_steps agents request' context order execution st.
Proof using same_steps same_input same_mode.
  induction order as [|sid order IH]; intros execution st; simpl; [done|].
  rewrite run_step_modes.
  destruct (Orchestrator.run_step agents request' context sid execution st)
    as [[[[e|] e1] st1]|]; try done; apply IH.
Qed.

Lemma orchestrate_modes st :
  Orchestrator.orchestrate agents request context st
  = Orchestrator.orchestrate agents request' context st.
Proof using same_id same_steps same_input same_mode.
  unfold Orchestrator.orchestrate, Orchestrator.run_workflow,
    Orchestrator.new_execution.
  destruct (Orchestrator.fresh_uuid st) as [execution_id st0].
  rewrite <- same_steps, <- same_id.
  destruct (Topo._topological_sort _) as [[order|e]|]; try done.
  by rewrite run_steps_modes.
Qed.
End Modes.

(** X22: of the error handling of a workflow [orchestrate] reads only
    whether it is [fail_fast]: two requests with the same workflow id,
    steps and input whose workflows are both fail-fast or both not are
    treated alike, whatever their [continue], [retry] or [fallback]
    setting, their workflow timeout, name, description and version. *)
Theorem error_handling_only_fail_fast `{PyText} `{Runtime}
    (agents : Registry.t) (context : AgentContext)
    (request request' : OrchestrateRequest) (st : Orchestrator.State) :
  wf_id (or_workflow request) = wf_id (or_workflow request') →
  wf_steps (or_workflow request) = wf_steps (or_workflow request') →
  or_input request = or_input request' →
  (wf_error_handling (or_workflow request) = FailFast
   ↔ wf_error_handling (or_workflow request') = FailFast) →
  Orchestrator.orchestrate agents request context st
  = Orchestrator.orchestrate agents request' context st.
Proof. intros. by apply orchestrate_modes. Qed.

Lemma error_handling_only_fail_fast_witness :
  let steps := [Example.step "a" GRANT [] 1 OnSkip None None] in
  @Orchestrator.orchestrate Example.text Example.runtime Example.agents
    {| or_workflow := Example.workflow steps RetryOnError; or_input := [] |}
Example.context Example.state0
= @Orchestrator.orchestrate Example.text Example.runtime Example.agents
  {| or_workflow :=
       {| wf_id := "wf"; wf_name := "other"; wf_description := "d";
          wf_version := "2.0"; wf_steps := steps;
          wf_error_handling := FallbackOnError; wf_timeout := Some 1%Z |};
     or_input := [] |}
Example.context Example.state0.
Proof.
  intros steps.
  apply (@error_handling_only_fail_fast Example.text Example.runtime);
    [reflexivity | reflexivity | reflexivity |].
  split; discriminate.
Defined.

(** ** The other branches of reference resolution *)

#[local] Arguments String.append !_ _ / : simpl nomatch.

Lemma append_nil (s : string) : s +:+ "" = s.
Proof. induction s; simpl; [done | by f_equal]. Qed.

Lemma strip_nonempty g1 s c :
  PyStr.strip g1 = String c s → g1 ≠ EmptyString.
Proof. by intros Hs ->. Qed.

Section MoreReferences.
Context `{PyText}.
Variable step_results : PyDict.t string WorkflowStepResult.
Variable workflow_input : list (string * pyval).

Local Abbreviation replacer := (Template.replacer step_results workflow_input).
Local Abbreviation resolve_value :=
  (Template.resolve_value step_results workflow_input).

(** A template that stands after text without an opening brace is
    replaced by what [replacer] returns for it. *)
Lemma resolve_template pre g1 post :
  char_free "{" pre → g1 ≠ EmptyString → char_free "}" g1 →
  resolve_value (PStr (pre +:+ "{{" +:+ g1 +:+ "}}" +:+ post))
  = PStr (pre +:+ replacer ("{{" +:+ g1 +:+ "}}") g1
              +:+ Template.re_sub replacer post).
Proof.
  intros Hpre Hne Hfree. cbn [Template.resolve_value]. f_equal.
  unfold Template.re_sub. rewrite sub_from_plain by done.
  by rewrite sub_from_template.
Qed.

Lemma resolve_template_head g1 post :
  g1 ≠ EmptyString → char_free "}" g1 →
  resolve_value (PStr ("{{" +:+ g1 +:+ "}}" +:+ post))
  = PStr (replacer ("{{" +:+ g1 +:+ "}}") g1 +:+ Template.re_sub replacer post).
Proof.
  intros Hne Hfree. apply (resolve_template "" g1 post); [|done|done].
  by intros ?%elem_of_nil.
Qed.

Lemma replacer_input g0 g1 key :
  PyStr.strip g1 = "input." +:+ key →
  replacer g0 g1
  = PyVal.str (default (PStr EmptyString) (PyDict.get key workflow_input)).
Proof.
  intros Hs. unfold Template.replacer. rewrite Hs. simpl.
  unfold PyStr.startswith. by destruct key.
Qed.

(** X23: a reference [{{input.KEY}}] is replaced by the text of the value
    the workflow input has under the key, whatever the value: zero, false,
    [None] and empty collections are rendered like any other value.  A key
    that the input lacks gives the empty text. *)
Theorem input_reference_resolution pre g1 key post :
  char_free "{" pre →
  char_free "}" g1 →
  PyStr.strip g1 = "input." +:+ key →
  resolve_value (PStr (pre +:+ "{{" +:+ g1 +:+ "}}" +:+ post))
  = PStr (pre
          +:+ match PyDict.get key workflow_input with
              | Some v => PyVal.str v
              | None => EmptyString
              end
          +:+ Template.re_sub replacer post).
Proof.
  intros Hpre Hfree Hs.
  rewrite resolve_template; [|done|by eapply strip_nonempty|done].
  rewrite (replacer_input _ _ key) by done.
  by destruct (PyDict.get key workflow_input).
Qed.

Lemma prev_lookup_skip items rest key :
  (∀ kv, kv ∈ items → usable kv.2 = false) →
  Template.prev_lookup (items ++ rest) key = Template.prev_lookup rest key.
Proof.
  induction items as [|[k r] items IH]; intros Hall; [done|]. simpl.
  pose proof (Hall (k, r) ltac:(left)) as Hr. unfold usable in Hr. simpl in Hr.
  rewrite IH by (intros kv ?; apply Hall; by right).
  destruct (sr_output r); [|done]. by rewrite Hr.
Qed.

Lemma replacer_prev g0 g1 key :
  PyStr.strip g1 = "prev." +:+ key →
  replacer g0 g1 = Template.prev_lookup (reverse step_results) key.
Proof.
  intros Hs. unfold Template.replacer. rewrite Hs. simpl.
  unfold PyStr.startswith. by destruct key.
Qed.

(** X24: a reference [{{prev.KEY}}] looks at one step only: the last
    entry of the result map that is completed and has a non-empty output.
    It is replaced by the text of what that output has under the key, and
    by the empty text when that output lacks the key, whatever the entries
    before it hold; with no such entry it is replaced by the empty text. *)
Theorem prev_reference_resolution pre g1 key post :
  char_free "{" pre →
  char_free "}" g1 →
  PyStr.strip g1 = "prev." +:+ key →
  let resolved :=
    resolve_value (PStr (pre +:+ "{{" +:+ g1 +:+ "}}" +:+ post)) in
  let rest := Template.re_sub replacer post in
  (∀ earlier sid r out later,
     step_results = earlier ++ (sid, r) :: later →
     usable r = true → sr_output r = Some out →
     (∀ kv, kv ∈ later → usable kv.2 = false) →
     resolved
     = PStr (pre
             +:+ match PyDict.get key out with
                 | Some v => PyVal.str v
                 | None => EmptyString
                 end
             +:+ rest))
  ∧ ((∀ kv, kv ∈ step_results → usable kv.2 = false) →
     resolved = PStr (pre +:+ rest)).
Proof.
  intros Hpre Hfree Hs resolved rest. subst resolved rest.
  rewrite resolve_template; [|done|by eapply strip_nonempty|done].
  rewrite (replacer_prev _ _ key) by done. split.
  - intros earlier sid r out later -> Hr Hout Hlater.
    rewrite reverse_app, reverse_cons, <- app_assoc.
    rewrite prev_lookup_skip
      by (intros kv Hkv; apply Hlater; by apply elem_of_reverse).
    cbn [Template.prev_lookup app]. unfold usable in Hr.
    rewrite Hout in *. rewrite Hr.
    by destruct (PyDict.get key out).
  - intros Hnone.
    rewrite <- (app_nil_r (reverse step_results)).
    rewrite prev_lookup_skip
      by (intros kv Hkv; apply Hnone; by apply elem_of_reverse).
    done.
Qed.

(** X25: a template whose reference starts with none of [input.],
    [steps.] and [prev.] is left in the text as it stands. *)
Theorem unknown_reference_kept pre g1 post :
  char_free "{" pre →
  g1 ≠ EmptyString →
  char_free "}" g1 →
  PyStr.startswith (PyStr.strip g1) "input." = false →
  PyStr.startswith (PyStr.strip g1) "steps." = false →
  PyStr.startswith (PyStr.strip g1) "prev." = false →
  resolve_value (PStr (pre +:+ "{{" +:+ g1 +:+ "}}" +:+ post))
  = PStr (pre +:+ ("{{" +:+ g1 +:+ "}}") +:+ Template.re_sub replacer post).
Proof.
  intros Hpre Hne Hfree Hin Hst Hpr. rewrite resolve_template by done.
  unfold Template.replacer. by rewrite Hin, Hst, Hpr.
Qed.

Lemma navigate_scalar v path :
  (∀ d, v ≠ PDict d) → Template.navigate v path = v.
Proof. intros Hv. destruct path; [done|]. destruct v; try done. by destruct (Hv d). Qed.

Lemma navigate_stops v0 p1 p2 v :
  path_value v0 p1 = Some v → (∀ d, v ≠ PDict d) →
  Template.navigate v0 (p1 ++ p2) = v.
Proof.
  revert v0. induction p1 as [|key p1 IH]; intros v0; simpl.
  - intros [= ->] Hv. by apply navigate_scalar.
  - destruct v0 as [| | | | | |d]; try done.
    unfold PyVal.dict_get. destruct (PyDict.get key d) as [v''|]; [|done].
    simpl. apply IH.
Qed.

(** X26: a [steps] reference whose path goes on below a value that is not
    a map resolves to that value: the segments after it are ignored. *)
Theorem steps_reference_below_scalar g1 sid seg p1 p2 r out v post :
  char_free "}" g1 →
  PyStr.split "."%char (PyStr.strip g1) = "steps" :: sid :: seg :: p1 ++ p2 →
  PyDict.get sid step_results = Some r →
  sr_output r = Some out →
  path_value (PDict out) p1 = Some v →
  (∀ d, v ≠ PDict d) →
  resolve_value (PStr ("{{" +:+ g1 +:+ "}}" +:+ post))
  = PStr ((if PyVal.truthy v then PyVal.str v else EmptyString)
          +:+ Template.re_sub replacer post).
Proof.
  intros Hfree Hs Hr Hout Hv Hscalar.
  assert (g1 ≠ EmptyString) as Hne by (by intros ->).
  rewrite resolve_template_head by done.
  rewrite (replacer_steps _ _ _ g1 sid seg (p1 ++ p2)) by done.
  rewrite Hr, Hout, (navigate_stops _ _ _ v) by done.
  assert (PyVal.truthy (PDict out) = true) as ->; [|done].
  destruct out as [|kv out]; [|done].
  destruct p1 as [|key p1]; simpl in Hv; [|done].
  injection Hv as <-. by destruct (Hscalar []).
Qed.

(** X27: a [steps] reference with fewer than four segments, such as
    [{{steps.ID}}] or [{{steps.ID.status}}], resolves to the text of the
    whole output of the step when the step has a non-empty output; the
    third segment is never read. *)
Theorem steps_reference_short g1 sid rest r out post :
  char_free "}" g1 →
  PyStr.split "."%char (PyStr.strip g1) = "steps" :: sid :: rest →
  length rest ≤ 1 →
  PyDict.get sid step_results = Some r →
  sr_output r = Some out →
  out ≠ [] →
  resolve_value (PStr ("{{" +:+ g1 +:+ "}}" +:+ post))
  = PStr (PyVal.str (PDict out) +:+ Template.re_sub replacer post).
Proof.
  intros Hfree Hs Hlen Hr Hout Hne.
  assert (g1 ≠ EmptyString) as Hg by (by intros ->).
  rewrite resolve_template_head by done.
  unfold Template.replacer.
  destruct (split_steps_startswith _ _ _ Hs) as [-> ->]. rewrite Hs.
  cbn [nth]. rewrite Hr, Hout.
  assert (drop 3 ("steps" :: sid :: rest) = []) as ->
    by (destruct rest as [|? [|]]; [done | done | simpl in Hlen; lia]).
  cbn [Template.navigate].
  by destruct out.
Qed.
End MoreReferences.

(** *** Values without templates *)

Lemma re_sub_plain f s : char_free "{" s → Template.re_sub f s = s.
Proof.
  intros Hs. unfold Template.re_sub.
  rewrite <- (append_nil s) at 1. rewrite sub_from_plain by done.
  simpl. apply append_nil.
Qed.

Lemma resolve_value_template_free `{PyText} results input : ∀ v,
  template_free v = true → Template.resolve_value results input v = v.
Proof.
  fix IH 1. intros [| | | |s|l|d]; simpl; try done.
  - intros Hs%bool_decide_eq_true_1. by rewrite re_sub_plain.
  - intros Hl. f_equal. induction l as [|x l IHl]; [done|]. simpl in *.
    apply andb_prop in Hl as [Hx Hl]. by rewrite IH, IHl.
  - intros Hd. f_equal. induction d as [|[k x] d IHd]; [done|]. simpl in *.
    apply andb_prop in Hd as [Hx Hd]. by rewrite IH, IHd.
Qed.

(** X28: a step input that holds no opening brace in any of its string
    values, at any depth of nested maps and lists, is returned by
    [_resolve_references] exactly as it is. *)
Theorem resolve_references_template_free `{PyText}
    (results : PyDict.t string WorkflowStepResult)
    (workflow_input input : list (string * pyval)) :
  template_free (PDict input) = true →
  Template._resolve_references results workflow_input input = input.
Proof.
  intros Hfree.
  pose proof (resolve_value_template_free results workflow_input (PDict input)
                Hfree) as Hres.
  simpl in Hres. by injection Hres.
Qed.

Lemma input_reference_resolution_witness :
  @Template.resolve_value Example.text [] [("n", PInt 0); ("none", PNone)]
    (PStr ("n=" +:+ "{{" +:+ " input.n " +:+ "}}" +:+ ", {{input.none}}"))
  = PStr "n=0, None".
Proof.
  apply (@input_reference_resolution Example.text []
           [("n", PInt 0); ("none", PNone)] "n=" " input.n " "n"
           ", {{input.none}}").
  - apply char_free_decide. reflexivity.
  - apply char_free_decide. reflexivity.
  - reflexivity.
Defined.

Lemma prev_reference_resolution_witness :
  let results :=
    [("a", Example.step_result "a" StepCompleted (Some [("x", PStr "1")]));
     ("b", Example.step_result "b" StepCompleted (Some [("y", PStr "2")]));
     ("c", Example.step_result "c" StepFailed None)] in
  @Template.resolve_value Example.text results []
    (PStr ("" +:+ "{{" +:+ "prev.x" +:+ "}}" +:+ "|{{prev.y}}"))
  = PStr "|2".
Proof.
  intros results.
  destruct (@prev_reference_resolution Example.text results [] "" "prev.x" "x"
              "|{{prev.y}}") as [Hlast _].
  - apply char_free_decide. reflexivity.
  - apply char_free_decide. reflexivity.
  - reflexivity.
  - refine (Hlast [("a", _)] "b" _ [("y", PStr "2")] [("c", _)]
              eq_refl eq_refl eq_refl _).
    intros kv Hkv. apply elem_of_cons in Hkv as [->|Hkv]; [done|].
    by apply elem_of_nil in Hkv.
Defined.

Lemma unknown_reference_kept_witness :
  @Template.resolve_value Example.text [] [("x", PInt 1)]
    (PStr ("a " +:+ "{{" +:+ "inputs.x" +:+ "}}" +:+ " b"))
  = PStr "a {{inputs.x}} b".
Proof.
  apply (@unknown_reference_kept Example.text [] [("x", PInt 1)]
           "a " "inputs.x" " b").
  - apply char_free_decide. reflexivity.
  - discriminate.
  - apply char_free_decide. reflexivity.
  - reflexivity.
  - reflexivity.
  - reflexivity.
Defined.

Lemma steps_reference_below_scalar_witness :
  @Template.resolve_value Example.text
    [("a", Example.step_result "a" StepCompleted (Some [("x", PStr "42")]))] []
    (PStr ("{{" +:+ "steps.a.output.x.y.z" +:+ "}}" +:+ "!"))
  = PStr "42!".
Proof.
  apply (@steps_reference_below_scalar Example.text
           [("a", Example.step_result "a" StepCompleted (Some [("x", PStr "42")]))]
           [] "steps.a.output.x.y.z" "a" "output" ["x"] ["y"; "z"]
           (Example.step_result "a" StepCompleted (Some [("x", PStr "42")]))
           [("x", PStr "42")] (PStr "42") "!").
  - apply char_free_decide. reflexivity.
  - reflexivity.
  - reflexivity.
  - reflexivity.
  - reflexivity.
  - discriminate.
Defined.

Lemma steps_reference_short_witness :
  @Template.resolve_value Example.text
    [("a", Example.step_result "a" StepCompleted (Some [("x", PStr "42")]))] []
    (PStr ("{{" +:+ "steps.a.status" +:+ "}}" +:+ ""))
  = PStr "{'x': '42'}".
Proof.
  apply (@steps_reference_short Example.text
           [("a", Example.step_result "a" StepCompleted (Some [("x", PStr "42")]))]
           [] "steps.a.status" "a" ["status"]
           (Example.step_result "a" StepCompleted (Some [("x", PStr "42")]))
           [("x", PStr "42")] "").
  - apply char_free_decide. reflexivity.
  - reflexivity.
  - simpl. lia.
  - reflexivity.
  - reflexivity.
  - discriminate.
Defined.

Lemma resolve_references_template_free_witness :
  @Template._resolve_references Example.text
    [("a", Example.step_result "a" StepCompleted (Some [("x", PStr "42")]))]
    [("k", PInt 1)]
    [("q", PStr "plain } text"); ("l", PList [PStr "a"; PDict [("n", PNone)]])]
  = [("q", PStr "plain } text"); ("l", PList [PStr "a"; PDict [("n", PNone)]])].
Proof.
  apply (@resolve_references_template_free Example.text). reflexivity.
Defined.

(** ** Synchronous task execution *)

Section ExecuteTask.
Context `{PyText} `{Runtime}.
Variables (agents : Registry.t) (context : AgentContext).

(** X29: for a registered provider and a synchronous request,
    [execute_task] never raises: it generates the task id, executes the
    provider once on a prompt made of the task type and the input, and
    answers completed exactly when the result is completed, with the
    output and the error of the result; an exception of the execution
    gives a failed response with the text of the exception and no
    result. *)
Theorem execute_task_synchronous (request : ExecuteTaskRequest)
    (st : Orchestrator.State) (agent : BaseAgent) :
  Registry.get (et_agent_type request) agents = Some agent →
  et_async_execution request = false →
  let task_id := (uuid4 (Orchestrator.world st)).1 in
  let w1 := (uuid4 (Orchestrator.world st)).2 in
  let prompt :=
    "Execute " +:+ et_task_type request +:+ ": "
    +:+ PyVal.str (PDict (et_input request)) in
  ∃ resp st',
    Orchestrator.execute_task agents request context st = (Ok resp, st') ∧
    etr_task_id resp = task_id ∧
    Orchestrator.calls st'
    = Orchestrator.calls st ++ [(agent_type agent, prompt)] ∧
    (∀ result w,
       execute agent prompt context None w1 = (Ok result, w) →
       (etr_status resp = RunCompleted ↔ res_status result = COMPLETED) ∧
       (etr_status resp = RunFailed ↔ res_status result ≠ COMPLETED) ∧
       etr_result resp = Some (res_output result) ∧
       etr_error resp = res_error result) ∧
    (∀ e w,
       execute agent prompt context None w1 = (Raise e, w) →
       etr_status resp = RunFailed ∧
       etr_result resp = None ∧
       etr_error resp = Some (exn_str e)).
Proof.
  intros Hagent Hsync task_id w1 prompt. subst task_id w1 prompt.
  unfold Orchestrator.execute_task, Orchestrator.fresh_uuid,
    Orchestrator.call_execute.
  rewrite Hagent, Hsync.
  destruct (uuid4 (Orchestrator.world st)) as [task_id w1].
  cbv beta iota zeta in *. unfold Orchestrator.with_world.
  cbn [Orchestrator.world Orchestrator.calls Orchestrator.active_workflows fst snd].
  destruct (execute agent _ context None w1) as [[result|e] w];
    cbn [Orchestrator.world Orchestrator.calls Orchestrator.active_workflows].
  - eexists _, _. split; [reflexivity|]. simpl.
    split_and!; [done | done | | by intros ?? [=]].
    intros ? ? [= <- <-].
    destruct (decide (res_status result = COMPLETED)); split_and!; done.
  - eexists _, _. split; [reflexivity|]. simpl.
    split_and!; [done | done | by intros ?? [=] |].
    by intros ? ? [= <- <-].
Qed.
End ExecuteTask.

Lemma execute_task_synchronous_witness :
  ∃ resp st',
    @Orchestrator.execute_task Example.text Example.runtime Example.agents
      {| et_agent_type := TASK; et_task_type := "plan"; et_input := [];
         et_async_execution := false |}
Example.context Example.state0 = (Ok resp, st') ∧
etr_task_id resp = "id-0" ∧
Orchestrator.calls st' = [(TASK, "Execute plan: {}")] ∧
etr_status resp = RunFailed ∧
etr_result resp = Some [] ∧
etr_error resp = Some "not yet".
Proof.
  destruct (@execute_task_synchronous Example.text Example.runtime
Example.agents Example.context
{| et_agent_type := TASK; et_task_type := "plan"; et_input := [];
   et_async_execution := false |}
Example.state0 Example.flaky eq_refl eq_refl)
as (resp & st' & Hrun & Hid & Hcalls & Hok & _).
destruct (Hok (Example.result TASK FAILED [] (Some "not yet")) 2%nat eq_refl)
as (_ & Hfailed & Hresult & Herror).
exists resp, st'.
split_and!; [exact Hrun | exact Hid | exact Hcalls | | exact Hresult
| exact Herror].
apply Hfailed. discriminate.
Defined.

(** ** The message queue *)

(** X30: messages are queued in the order they are sent, whoever the
    recipient is and whether or not it is registered, and
    [process_messages] takes them in that order, first sent first, without
    regard to their priority, and leaves the queue empty. *)
Theorem messages_first_in_first_out `{Runtime} (agents : Registry.t)
    (queue messages : list InterAgentMessage) :
  Messaging.process_messages
    (foldl (λ queue message, Messaging.send_message agents message queue)
       queue messages)
  = (queue ++ messages, []).
Proof.
  assert (∀ q : list InterAgentMessage, Messaging.process_messages q = (q, []))
    as Hdrain.
  { induction q as [|m q IH]; simpl; [done | by rewrite IH]. }
  rewrite Hdrain. f_equal.
  revert queue. induction messages as [|m messages IH]; intros queue; simpl.
  - by rewrite app_nil_r.
  - rewrite IH. unfold Messaging.send_message.
    destruct (msg_recipient m); by rewrite <- app_assoc.
Qed.
